(** * sampleconf/csv2yaml.py: from a sample sheet to a sample configuration

    A shallow embedding of [csv2yaml.py] (rpd-pipeline-tools) and the
    properties of its three stages: the record parser
    ([parse_readunits_from_csv]), the key deriver ([key_for_readunit]) and the
    grouping done in [main].

    Python values are modelled as the program has them: a [str] is a list of
    Unicode code points, [bytes] a list of octets, a [dict] an association
    list kept in insertion order, an exception an [Error] result. *)

From Stdlib Require Import String Ascii.
From Stdlib Require Import List NArith ZArith Bool Lia.
From Stdlib Require Import Permutation Sorted.
Import ListNotations.

Local Open Scope N_scope.

(** ** Python strings and bytes *)

(** A code point; a Python [str] holds code points up to 0x10FFFF. *)
Definition str : Type := list N.

(** [bytes]: octets, each below 256. *)
Definition bytes : Type := list N.

(** An ASCII literal as a [str]. *)
Definition U (s : string) : str :=
  map N_of_ascii (list_ascii_of_string s).

Class EqDec (A : Type) : Type :=
  eq_dec : forall x y : A, {x = y} + {x <> y}.

#[export] Instance N_EqDec : EqDec N := N.eq_dec.
#[export] Instance nat_EqDec : EqDec nat := Nat.eq_dec.
#[export] Instance list_EqDec {A} `{EqDec A} : EqDec (list A) :=
  list_eq_dec eq_dec.

#[export] Instance option_EqDec {A} `{EqDec A} : EqDec (option A).
Proof.
  intros [x|] [y|].
  - destruct (eq_dec x y) as [e|n].
    + left. now f_equal.
    + right. intros E. apply n. now injection E.
  - right. discriminate.
  - right. discriminate.
  - now left.
Defined.

Definition eqb {A} `{EqDec A} (x y : A) : bool :=
  if eq_dec x y then true else false.

(** [x in l] on a Python list. *)
Definition py_in {A} `{EqDec A} (x : A) (l : list A) : bool :=
  existsb (eqb x) l.

(** ** Exceptions *)

Inductive exn : Type :=
| AssertionError (msg : str)
| KeyError (key : str)
| TypeError
| AttributeError
| UnicodeEncodeError
| CsvError
| SystemExit (code : N).

Inductive result (A : Type) : Type :=
| Ok (a : A)
| Error (e : exn).
Arguments Ok {A} a.
Arguments Error {A} e.

Definition bind {A B} (r : result A) (k : A -> result B) : result B :=
  match r with
  | Ok a => k a
  | Error e => Error e
  end.

Notation "x <- r ;; k" := (bind r (fun x => k))
  (at level 61, r at next level, right associativity).

Definition is_ok {A} (r : result A) : bool :=
  match r with Ok _ => true | Error _ => false end.

(** ** [str.strip], [os.path.basename], [str.encode] *)

(** [str.isspace] on one code point (CPython's [_PyUnicode_IsWhitespace]). *)
Definition isspace (c : N) : bool :=
  ((0x09 <=? c) && (c <=? 0x0D)) || ((0x1C <=? c) && (c <=? 0x20))
  || (c =? 0x85) || (c =? 0xA0) || (c =? 0x1680)
  || ((0x2000 <=? c) && (c <=? 0x200A))
  || (c =? 0x2028) || (c =? 0x2029) || (c =? 0x202F) || (c =? 0x205F)
  || (c =? 0x3000).

Fixpoint lstrip (s : str) : str :=
  match s with
  | [] => []
  | c :: r => if isspace c then lstrip r else s
  end.

Definition rstrip (s : str) : str := rev (lstrip (rev s)).

Definition strip (s : str) : str := rstrip (lstrip s).

Definition sep : N := 47.

(** [p.rfind('/')]: the index of the last separator, or -1. *)
Fixpoint rfind_from (i : Z) (p : str) (found : Z) : Z :=
  match p with
  | [] => found
  | c :: r => rfind_from (i + 1) r (if c =? sep then i else found)
  end.

Definition rfind_sep (p : str) : Z := rfind_from 0 p (-1).

(** posixpath: [i = p.rfind(sep) + 1; return p[i:]]. *)
Definition basename (p : str) : str :=
  skipn (Z.to_nat (rfind_sep p + 1)) p.

(** UTF-8 of one code point. *)
Definition utf8_char (c : N) : bytes :=
  if c <? 0x80 then [c]
  else if c <? 0x800 then [0xC0 + c / 64; 0x80 + c mod 64]
  else if c <? 0x10000 then
    [0xE0 + c / 4096; 0x80 + (c / 64) mod 64; 0x80 + c mod 64]
  else
    [0xF0 + (c / 262144) mod 8; 0x80 + (c / 4096) mod 64;
     0x80 + (c / 64) mod 64; 0x80 + c mod 64].

Definition utf8 (s : str) : bytes := flat_map utf8_char s.

(** What the strict UTF-8 codec accepts: no surrogate, nothing past 0x10FFFF. *)
Definition encodable_char (c : N) : bool :=
  (c <? 0xD800) || ((0xDFFF <? c) && (c <=? 0x10FFFF)).

Definition encodable (s : str) : bool := forallb encodable_char s.

(** [v.encode()] with the default codec ('utf-8', 'strict'). *)
Definition encode (v : str) : result bytes :=
  if encodable v then Ok (utf8 v) else Error UnicodeEncodeError.

(** ** [hashlib.md5] (RFC 1321) *)

Module Md5.

Definition mask32 : N := 0xFFFFFFFF.

Definition add32 (a b : N) : N := N.land (a + b) mask32.

Definition not32 (x : N) : N := N.lxor (N.land x mask32) mask32.

Definition rotl32 (x c : N) : N :=
  N.lor (N.land (N.shiftl x c) mask32) (N.shiftr (N.land x mask32) (32 - c)).

Definition K : list N :=
  [ 0xd76aa478; 0xe8c7b756; 0x242070db; 0xc1bdceee;
    0xf57c0faf; 0x4787c62a; 0xa8304613; 0xfd469501;
    0x698098d8; 0x8b44f7af; 0xffff5bb1; 0x895cd7be;
    0x6b901122; 0xfd987193; 0xa679438e; 0x49b40821;
    0xf61e2562; 0xc040b340; 0x265e5a51; 0xe9b6c7aa;
    0xd62f105d; 0x02441453; 0xd8a1e681; 0xe7d3fbc8;
    0x21e1cde6; 0xc33707d6; 0xf4d50d87; 0x455a14ed;
    0xa9e3e905; 0xfcefa3f8; 0x676f02d9; 0x8d2a4c8a;
    0xfffa3942; 0x8771f681; 0x6d9d6122; 0xfde5380c;
    0xa4beea44; 0x4bdecfa9; 0xf6bb4b60; 0xbebfbc70;
    0x289b7ec6; 0xeaa127fa; 0xd4ef3085; 0x04881d05;
    0xd9d4d039; 0xe6db99e5; 0x1fa27cf8; 0xc4ac5665;
    0xf4292244; 0x432aff97; 0xab9423a7; 0xfc93a039;
    0x655b59c3; 0x8f0ccc92; 0xffeff47d; 0x85845dd1;
    0x6fa87e4f; 0xfe2ce6e0; 0xa3014314; 0x4e0811a1;
    0xf7537e82; 0xbd3af235; 0x2ad7d2bb; 0xeb86d391 ].

Definition S : list N :=
  [ 7; 12; 17; 22; 7; 12; 17; 22; 7; 12; 17; 22; 7; 12; 17; 22;
    5; 9; 14; 20; 5; 9; 14; 20; 5; 9; 14; 20; 5; 9; 14; 20;
    4; 11; 16; 23; 4; 11; 16; 23; 4; 11; 16; 23; 4; 11; 16; 23;
    6; 10; 15; 21; 6; 10; 15; 21; 6; 10; 15; 21; 6; 10; 15; 21 ].

(** The chaining value A, B, C, D. *)
Record state : Type := mkState { sA : N; sB : N; sC : N; sD : N }.

Definition init : state :=
  mkState 0x67452301 0xefcdab89 0x98badcfe 0x10325476.

(** Little-endian 32-bit word number [j] of a 64-byte block. *)
Definition word (block : bytes) (j : nat) : N :=
  nth (4 * j) block 0 + 256 * nth (4 * j + 1) block 0
  + 65536 * nth (4 * j + 2) block 0 + 16777216 * nth (4 * j + 3) block 0.

Definition round (block : bytes) (st : state) (i : nat) : state :=
  let '(mkState a b c d) := st in
  let '(f, g) :=
    if (i <? 16)%nat then
      (N.lor (N.land b c) (N.land (not32 b) d), i)
    else if (i <? 32)%nat then
      (N.lor (N.land d b) (N.land (not32 d) c), (5 * i + 1) mod 16)%nat
    else if (i <? 48)%nat then
      (N.lxor (N.lxor b c) d, (3 * i + 5) mod 16)%nat
    else
      (N.lxor c (N.lor b (not32 d)), (7 * i) mod 16)%nat in
  let f' := add32 (add32 (add32 f a) (nth i K 0)) (word block g) in
  mkState d (add32 b (rotl32 f' (nth i S 0))) b c.

Definition compress (st : state) (block : bytes) : state :=
  let st' := fold_left (round block) (seq 0 64) st in
  mkState (add32 (sA st) (sA st')) (add32 (sB st) (sB st'))
          (add32 (sC st) (sC st')) (add32 (sD st) (sD st')).

(** [n] as [k] little-endian octets. *)
Fixpoint le_bytes (k : nat) (n : N) : bytes :=
  match k with
  | O => []
  | Datatypes.S k' => n mod 256 :: le_bytes k' (n / 256)
  end.

Definition pad (msg : bytes) : bytes :=
  let len := N.of_nat (length msg) in
  let zeros := N.to_nat ((119 - len mod 64) mod 64) in
  msg ++ [0x80] ++ repeat 0 zeros ++ le_bytes 8 ((8 * len) mod 2 ^ 64).

Fixpoint blocks (fuel : nat) (l : bytes) : list bytes :=
  match fuel with
  | O => []
  | Datatypes.S fuel' =>
      match l with
      | [] => []
      | _ => firstn 64 l :: blocks fuel' (skipn 64 l)
      end
  end.

Definition digest_state (msg : bytes) : state :=
  let p := pad msg in
  fold_left compress (blocks (length p) p) init.

Definition digest (msg : bytes) : bytes :=
  let st := digest_state msg in
  flat_map (le_bytes 4) [sA st; sB st; sC st; sD st].

Definition hexdigit (n : N) : N :=
  if n <? 10 then 48 + n else 87 + n.

Definition hex_byte (b : N) : str := [hexdigit (b / 16); hexdigit (b mod 16)].

(** The [hashlib] object: what has been fed to it so far. *)
Record md5 : Type := mkMd5 { buffer : bytes }.

Definition new : md5 := mkMd5 [].

Definition update (m : md5) (data : bytes) : md5 :=
  mkMd5 (buffer m ++ data).

Definition hexdigest (m : md5) : str :=
  flat_map hex_byte (digest (buffer m)).

End Md5.

(** ** Python objects of the program *)

(** The values a row or a read unit holds: a [str], [None] (the reader's
    [restval], for a short row) or a list of [str] (under the reader's
    [restkey], for a long row). *)
Inductive pyval : Type :=
| VStr (s : str)
| VNone
| VList (l : list str).

(** A key of a row: a field name, or [None] (the reader's [restkey]). *)
Definition pykey : Type := option str.

(** Truth value of an object, as [assert v] and [if v] take it. *)
Definition truthy (v : pyval) : bool :=
  match v with
  | VStr [] => false
  | VStr _ => true
  | VNone => false
  | VList [] => false
  | VList _ => true
  end.

(** A [dict]: its items in insertion order, each key once. *)
Section Dict.
Context {K V : Type} `{EqDec K}.

Definition dict : Type := list (K * V).

(** [d.get(k)] *)
Fixpoint dict_get (d : dict) (k : K) : option V :=
  match d with
  | [] => None
  | (k', v) :: d' => if eqb k k' then Some v else dict_get d' k
  end.

(** [d[k] = v]: a key already there keeps its place. *)
Fixpoint dict_set (d : dict) (k : K) (v : V) : dict :=
  match d with
  | [] => [(k, v)]
  | (k', v') :: d' =>
      if eqb k k' then (k, v) :: d' else (k', v') :: dict_set d' k v
  end.

Definition keys (d : dict) : list K := map fst d.
Definition values (d : dict) : list V := map snd d.
End Dict.
Arguments dict K V : clear implicits.

Definition pydict : Type := dict pykey pyval.

(** [row[f]] for a field name [f]. *)
Definition getitem (row : pydict) (f : str) : result pyval :=
  match dict_get row (Some f) with
  | Some v => Ok v
  | None => Error (KeyError f)
  end.

(** [v.strip()] *)
Definition py_strip (v : pyval) : result pyval :=
  match v with
  | VStr s => Ok (VStr (strip s))
  | _ => Error AttributeError
  end.

(** [os.path.basename(v)] *)
Definition py_basename (v : pyval) : result pyval :=
  match v with
  | VStr s => Ok (VStr (basename s))
  | _ => Error TypeError
  end.

(** [v.encode()] *)
Definition py_encode (v : pyval) : result bytes :=
  match v with
  | VStr s => encode s
  | _ => Error AttributeError
  end.

(** ** The key deriver *)

Definition file_keys : list str := [U "fq1"; U "fq2"].

(** [k in file_keys] *)
Definition is_file_key (k : pykey) : bool :=
  match k with
  | Some f => py_in f file_keys
  | None => false
  end.

(** The loop of [key_for_readunit] over [ru_dict.items()]. *)
Fixpoint md5_feed (items : pydict) (m : Md5.md5) : result Md5.md5 :=
  match items with
  | [] => Ok m
  | (k, v) :: rest =>
      v <- (if is_file_key k then py_basename v else Ok v) ;;
      b <- py_encode v ;;
      md5_feed rest (Md5.update m b)
  end.

Definition key_for_readunit (ru_dict : pydict) : result str :=
  m <- md5_feed ru_dict Md5.new ;;
  Ok (firstn 8 (Md5.hexdigest m)).

(** ** The [csv] module

    The reader of CPython's [_csv], for the dialects that differ from 'excel'
    in the delimiter only (the double quote as quote character, doubled
    quotes, minimal quoting, no escape character, not strict), and
    [csv.DictReader] with its default [restkey] and [restval]. A NUL
    character is data, as it is from CPython 3.11 on. *)

Module Csv.

Inductive parser_state : Type :=
| START_RECORD
| START_FIELD
| IN_FIELD
| IN_QUOTED_FIELD
| QUOTE_IN_QUOTED_FIELD
| EAT_CRNL.

Record reader : Type := mkReader {
  state : parser_state;
  field : str;
  fields : list str
}.

Definition excel_delimiter : N := 44.
Definition quotechar : N := 34.
Definition field_limit : N := 131072.

Definition parse_reset : reader := mkReader START_RECORD [] [].

Definition parse_save_field (r : reader) : reader :=
  mkReader (state r) [] (fields r ++ [field r]).

Definition parse_add_char (r : reader) (c : N) : result reader :=
  if field_limit <=? N.of_nat (length (field r)) then Error CsvError
  else Ok (mkReader (state r) (field r ++ [c]) (fields r)).

Definition set_state (s : parser_state) (r : reader) : reader :=
  mkReader s (field r) (fields r).

Definition is_newline (c : N) : bool := (c =? 10) || (c =? 13).

(** One step of the scanner; [None] is the end-of-line mark the reader feeds
    after the last character of each line. *)
Definition parse_process_char (delimiter : N) (r : reader) (c : option N)
  : result reader :=
  let start_field (r : reader) :=
    match c with
    | None => Ok (set_state START_RECORD (parse_save_field r))
    | Some c =>
        if is_newline c then Ok (set_state EAT_CRNL (parse_save_field r))
        else if c =? quotechar then Ok (set_state IN_QUOTED_FIELD r)
        else if c =? delimiter then Ok (parse_save_field r)
        else r' <- parse_add_char r c ;; Ok (set_state IN_FIELD r')
    end in
  match state r with
  | START_RECORD =>
      match c with
      | None => Ok r
      | Some c' =>
          if is_newline c' then Ok (set_state EAT_CRNL r)
          else start_field (set_state START_FIELD r)
      end
  | START_FIELD => start_field r
  | IN_FIELD =>
      match c with
      | None => Ok (set_state START_RECORD (parse_save_field r))
      | Some c =>
          if is_newline c then Ok (set_state EAT_CRNL (parse_save_field r))
          else if c =? delimiter then
            Ok (set_state START_FIELD (parse_save_field r))
          else parse_add_char r c
      end
  | IN_QUOTED_FIELD =>
      match c with
      | None => Ok r
      | Some c =>
          if c =? quotechar then Ok (set_state QUOTE_IN_QUOTED_FIELD r)
          else parse_add_char r c
      end
  | QUOTE_IN_QUOTED_FIELD =>
      match c with
      | None => Ok (set_state START_RECORD (parse_save_field r))
      | Some c =>
          if c =? quotechar then
            r' <- parse_add_char r c ;; Ok (set_state IN_QUOTED_FIELD r')
          else if c =? delimiter then
            Ok (set_state START_FIELD (parse_save_field r))
          else if is_newline c then
            Ok (set_state EAT_CRNL (parse_save_field r))
          else r' <- parse_add_char r c ;; Ok (set_state IN_FIELD r')
      end
  | EAT_CRNL =>
      match c with
      | None => Ok (set_state START_RECORD r)
      | Some c => if is_newline c then Ok r else Error CsvError
      end
  end.

(** The characters of one line, then the end-of-line mark. *)
Fixpoint parse_line (delimiter : N) (r : reader) (line : str)
  : result reader :=
  match line with
  | [] => parse_process_char delimiter r None
  | c :: line' =>
      r' <- parse_process_char delimiter r (Some c) ;;
      parse_line delimiter r' line'
  end.

Definition at_start (r : reader) : bool :=
  match state r with START_RECORD => true | _ => false end.

Definition in_quoted (r : reader) : bool :=
  match state r with IN_QUOTED_FIELD => true | _ => false end.

(** What iterating over the reader yields: the records in order, cut after
    the first one that raises. A record goes on over the following lines for
    as long as a quoted field is open. *)
Fixpoint reader_iter (delimiter : N) (r : reader) (lines : list str)
  : list (result (list str)) :=
  match lines with
  | [] =>
      if negb (length (field r) =? 0)%nat || in_quoted r
      then [Ok (fields (parse_save_field r))]
      else []
  | line :: lines' =>
      match parse_line delimiter r line with
      | Error e => [Error e]
      | Ok r' =>
          if at_start r'
          then Ok (fields r') :: reader_iter delimiter parse_reset lines'
          else reader_iter delimiter r' lines'
      end
  end.

(** Text mode with universal newlines: "\r\n" and "\r" are read as "\n". *)
Fixpoint universal_newlines (s : str) : str :=
  match s with
  | [] => []
  | c :: s' =>
      if c =? 13 then
        match s' with
        | d :: s'' =>
            if d =? 10 then 10 :: universal_newlines s''
            else 10 :: universal_newlines s'
        | [] => [10]
        end
      else c :: universal_newlines s'
  end.

(** Iterating over the open file: its lines, each with its newline. *)
Fixpoint lines_from (cur : str) (s : str) : list str :=
  match s with
  | [] => match cur with [] => [] | _ => [cur] end
  | c :: s' =>
      if c =? 10 then (cur ++ [c]) :: lines_from [] s'
      else lines_from (cur ++ [c]) s'
  end.

Definition readlines (text : str) : list str :=
  lines_from [] (universal_newlines text).

(** [csv.reader(csvfile, delimiter=delimiter)] *)
Definition reader_of (delimiter : N) (text : str)
  : list (result (list str)) :=
  reader_iter delimiter parse_reset (readlines text).

(** [dict(zip(fieldnames, row))] *)
Fixpoint dict_zip (fieldnames row : list str) (d : pydict) : pydict :=
  match fieldnames, row with
  | f :: fs, v :: vs => dict_zip fs vs (dict_set d (Some f) (VStr v))
  | _, _ => d
  end.

(** [for key in names: d[key] = restval] *)
Definition fill_restval (names : list str) (d : pydict) : pydict :=
  fold_left (fun d key => dict_set d (Some key) VNone) names d.

(** The [dict] that [DictReader.__next__] makes of a record. *)
Definition row_dict (fieldnames row : list str) : pydict :=
  let d := dict_zip fieldnames row [] in
  let lf := length fieldnames in
  let lr := length row in
  if (lf <? lr)%nat then dict_set d None (VList (skipn lf row))
  else if (lr <? lf)%nat then fill_restval (skipn lr fieldnames) d
  else d.

(** [DictReader.__next__] passes over empty records. *)
Fixpoint dict_rows (fieldnames : list str) (records : list (result (list str)))
  : list (result pydict) :=
  match records with
  | [] => []
  | Error e :: _ => [Error e]
  | Ok [] :: rest => dict_rows fieldnames rest
  | Ok row :: rest => Ok (row_dict fieldnames row) :: dict_rows fieldnames rest
  end.

(** [csv.DictReader(csvfile)] once [fieldnames] has been read: the header
    ([None] for a file with no record) and the rows still to come. *)
Record DictReader : Type := mkDictReader {
  fieldnames : option (list str);
  rows : list (result pydict)
}.

Definition DictReader_of (delimiter : N) (text : str) : result DictReader :=
  match reader_of delimiter text with
  | [] => Ok (mkDictReader None [])
  | Error e :: _ => Error e
  | Ok header :: rest => Ok (mkDictReader (Some header) (dict_rows header rest))
  end.

End Csv.

(** ** The record parser *)

Definition MANDATORY_FIELDS : list str := [U "sample_id"; U "fq1"].

Definition RECOMMENDED_FIELDS : list str :=
  [U "fq2"; U "run_id"; U "flowcell_id"; U "lane_id"; U "library_id"].

Definition missing_header_msg (f : str) : str :=
  U "Missing mandatory header/field: " ++ f.

Definition empty_field_msg (f : str) : str :=
  U "Mandatory field " ++ f ++ U " is empty".

(** [for f in MANDATORY_FIELDS: assert f in header, ...] *)
Fixpoint check_header (fs : list str) (header : option (list str))
  : result unit :=
  match fs with
  | [] => Ok tt
  | f :: fs' =>
      match header with
      | None => Error TypeError
      | Some h =>
          if py_in f h then check_header fs' header
          else Error (AssertionError (missing_header_msg f))
      end
  end.

(** [for f in MANDATORY_FIELDS: assert row[f], ...; ru[f] = row[f].strip()] *)
Fixpoint mandatory_loop (fs : list str) (row ru : pydict) : result pydict :=
  match fs with
  | [] => Ok ru
  | f :: fs' =>
      v <- getitem row f ;;
      if truthy v then
        s <- py_strip v ;;
        mandatory_loop fs' row (dict_set ru (Some f) s)
      else Error (AssertionError (empty_field_msg f))
  end.

(** [for f in RECOMMENDED_FIELDS: if row[f]: ru[f] = row[f].strip()] *)
Fixpoint recommended_loop (fs : list str) (row ru : pydict) : result pydict :=
  match fs with
  | [] => Ok ru
  | f :: fs' =>
      v <- getitem row f ;;
      if truthy v then
        s <- py_strip v ;;
        recommended_loop fs' row (dict_set ru (Some f) s)
      else recommended_loop fs' row ru
  end.

(** [k in MANDATORY_FIELDS or k in RECOMMENDED_FIELDS] *)
Definition is_schema_key (k : pykey) : bool :=
  match k with
  | Some f => py_in f MANDATORY_FIELDS || py_in f RECOMMENDED_FIELDS
  | None => false
  end.

(** [for k, v in row.items(): if ...: continue; ru[k] = v] *)
Fixpoint auxiliary_loop (items : pydict) (ru : pydict) : pydict :=
  match items with
  | [] => ru
  | (k, v) :: items' =>
      if is_schema_key k then auxiliary_loop items' ru
      else auxiliary_loop items' (dict_set ru k v)
  end.

(** The body of the loop over the rows, for a row that is not empty. The
    argument of [logger.debug] is evaluated at every verbosity, so
    [key_for_readunit(ru)] runs, and can raise, for every row. *)
Definition readunit_of_row (row : pydict) : result pydict :=
  ru <- mandatory_loop MANDATORY_FIELDS row [] ;;
  ru <- recommended_loop RECOMMENDED_FIELDS row ru ;;
  let ru := auxiliary_loop row ru in
  _ <- key_for_readunit ru ;;
  Ok ru.

(** [for _, row in enumerate(csvreader): ...] *)
Fixpoint parse_rows (rows : list (result pydict)) (readunits : list pydict)
  : result (list pydict) :=
  match rows with
  | [] => Ok readunits
  | Error e :: _ => Error e
  | Ok [] :: rows' => parse_rows rows' readunits
  | Ok row :: rows' =>
      ru <- readunit_of_row row ;;
      parse_rows rows' (readunits ++ [ru])
  end.

(** [parse_readunits_from_csv], on the text of the file [csvfilename]. The
    reader is made by [csv.DictReader(csvfile)]: no dialect and no delimiter
    are passed, so it is the 'excel' one, which splits at commas. *)
Definition parse_readunits_from_csv (csvfile : str) : result (list pydict) :=
  csvreader <- Csv.DictReader_of Csv.excel_delimiter csvfile ;;
  _ <- check_header MANDATORY_FIELDS (Csv.fieldnames csvreader) ;;
  parse_rows (Csv.rows csvreader) [].

(** ** Grouping by sample, in [main] *)

(** [a < b] on [str]: lexicographic on the code points. *)
Fixpoint str_ltb (a b : str) : bool :=
  match a, b with
  | _, [] => false
  | [], _ :: _ => true
  | x :: a', y :: b' =>
      if x <? y then true
      else if y <? x then false
      else str_ltb a' b'
  end.

(** The key function [lambda x: x['sample_id']]. [sorted] compares the keys
    with [<]; every read unit that the parser returns has a [str] there, and
    anything else is reported as the [TypeError] of that comparison. *)
Definition sample_id_of (x : pydict) : result str :=
  v <- getitem x (U "sample_id") ;;
  match v with
  | VStr s => Ok s
  | _ => Error TypeError
  end.

Fixpoint with_keys (readunits : list pydict) : result (list (str * pydict)) :=
  match readunits with
  | [] => Ok []
  | x :: xs =>
      k <- sample_id_of x ;;
      rest <- with_keys xs ;;
      Ok ((k, x) :: rest)
  end.

(** [sorted(..., key=...)] is stable: an element goes before the first one
    whose key is not smaller than its own. *)
Fixpoint insert_by_key (x : str * pydict) (l : list (str * pydict))
  : list (str * pydict) :=
  match l with
  | [] => [x]
  | y :: l' =>
      if str_ltb (fst y) (fst x) then y :: insert_by_key x l'
      else x :: l
  end.

Definition sorted (l : list (str * pydict)) : list (str * pydict) :=
  fold_right insert_by_key [] l.

(** [itertools.groupby]: the runs of consecutive elements with equal keys. *)
Fixpoint groupby (l : list (str * pydict)) : list (str * list pydict) :=
  match l with
  | [] => []
  | (k, x) :: l' =>
      match groupby l' with
      | (k', g) :: gs =>
          if eqb k k' then (k, x :: g) :: gs
          else (k, [x]) :: (k', g) :: gs
      | [] => [(k, [x])]
      end
  end.

(** A sample of the document: [{'readunits': {...}}]. *)
Record Sample : Type := mkSample { readunits : dict str pydict }.

Definition Samples : Type := dict str Sample.

(** [for ru in g_readunits:
       samples[sample_id]['readunits'][key_for_readunit(ru)] = ru] *)
Fixpoint add_readunits (g_readunits : list pydict) (sample_id : str)
  (samples : Samples) : result Samples :=
  match g_readunits with
  | [] => Ok samples
  | ru :: g' =>
      match dict_get samples sample_id with
      | None => Error (KeyError sample_id)
      | Some s =>
          key <- key_for_readunit ru ;;
          add_readunits g' sample_id
            (dict_set samples sample_id
               (mkSample (dict_set (readunits s) key ru)))
      end
  end.

(** [for sample_id, g_readunits in groupby(...):
       samples[sample_id] = {'readunits': dict()}; ...] *)
Fixpoint add_groups (groups : list (str * list pydict)) (samples : Samples)
  : result Samples :=
  match groups with
  | [] => Ok samples
  | (sample_id, g_readunits) :: groups' =>
      samples <- add_readunits g_readunits sample_id
                   (dict_set samples sample_id (mkSample [])) ;;
      add_groups groups' samples
  end.

(** The grouping of [main]: from the parsed read units to [samples]. *)
Definition group_readunits (readunits : list pydict) : result Samples :=
  keyed <- with_keys readunits ;;
  add_groups (groupby (sorted keyed)) [].

(** [main], from the delimiter argument and the text of the input file to the
    [samples] that are dumped as [dict(samples=samples)]. The tests on the
    paths (the input is there, the output is not, or may be overwritten) and
    the writing of the file are input and output, and are left out. *)
Definition main (delimiter : str) (csv : str) : result Samples :=
  if negb (length delimiter =? 1)%nat then Error (SystemExit 1)
  else
    readunits <- parse_readunits_from_csv csv ;;
    group_readunits readunits.

(** ** The key as the specification words it *)

(** A read unit of the data model: field names with their [str] values, in
    iteration order. *)
Definition ReadUnit : Type := list (str * str).

Definition as_dict (ru : ReadUnit) : pydict :=
  map (fun kv => (Some (fst kv), VStr (snd kv))) ru.

(** The value of a field as it enters the hash: the final path component for
    the file-path fields, the value itself for the others. *)
Definition hashed_value (kv : str * str) : str :=
  if py_in (fst kv) file_keys then basename (snd kv) else snd kv.

(** The first 8 characters of the hexadecimal MD5 digest of the UTF-8 bytes
    of the values, concatenated in field order. *)
Definition key_spec (ru : ReadUnit) : str :=
  firstn 8
    (Md5.hexdigest (Md5.mkMd5 (flat_map (fun kv => utf8 (hashed_value kv)) ru))).

Definition is_lower_hex (c : N) : bool :=
  ((48 <=? c) && (c <=? 57)) || ((97 <=? c) && (c <=? 102)).

(** ** What the statements on keys speak of *)

(** A directory prefix: nothing, or a path that ends with the separator. *)
Definition dir_prefix (d : str) : Prop :=
  d = [] \/ exists d', d = d' ++ [sep].

(** Two items enter the hash alike: same value, and both keys or neither
    among [fq1] and [fq2]. *)
Definition same_for_key (a b : pykey * pyval) : Prop :=
  snd a = snd b /\ is_file_key (fst a) = is_file_key (fst b).

(** ** What the statements on rows speak of *)

(** A value read from the sheet under a field name: a [str], or [None] when
    the row is short. *)
Definition is_field_value (v : pyval) : Prop :=
  match v with
  | VList _ => False
  | _ => True
  end.

(** The raw value is [None] or the empty [str]. *)
Definition raw_empty (row : pydict) (f : str) : Prop :=
  dict_get row (Some f) = Some VNone \/ dict_get row (Some f) = Some (VStr []).

(** The raw value is a [str] with at least one character. *)
Definition raw_nonempty (row : pydict) (f : str) : Prop :=
  exists c s, dict_get row (Some f) = Some (VStr (c :: s)).

Definition field_values (d : pydict) : Prop :=
  forall f v, dict_get d (Some f) = Some v -> is_field_value v.

(** Every name of [fs] is a column of the header. *)
Definition header_has (fs header : list str) : bool :=
  forallb (fun f => py_in f header) fs.

Definition encodable_value (v : pyval) : Prop :=
  match v with
  | VStr s => encodable s = true
  | _ => False
  end.

Definition all_encodable (d : pydict) : Prop :=
  Forall (fun kv => encodable_value (snd kv)) d.

(** ** Runs, and the mapping of a sample *)

(** The keys do not decrease. *)
Definition key_le (x y : str * pydict) : Prop := str_ltb (fst y) (fst x) = false.

Definition str_lt (a b : str) : Prop := str_ltb a b = true.

(** The elements with key [k], in the order of the list. *)
Definition with_key (k : str) (l : list (str * pydict)) : list (str * pydict) :=
  filter (fun x => eqb (fst x) k) l.

(** The read units of sample [k], in the order of the list. *)
Definition run_of (k : str) (l : list (str * pydict)) : list pydict :=
  map snd (with_key k l).

Definition group_lt (g h : str * list pydict) : Prop :=
  str_ltb (fst g) (fst h) = true.

(** The elements of a group, each with the key of the group. *)
Definition ungroup (grp : str * list pydict) : list (str * pydict) :=
  map (pair (fst grp)) (snd grp).

(** The mapping of one sample: the read units of its run, entered one by
    one under their keys. *)
Fixpoint insert_all (g : list pydict) (d : dict str pydict)
  : result (dict str pydict) :=
  match g with
  | [] => Ok d
  | ru :: g' =>
      key <- key_for_readunit ru ;;
      insert_all g' (dict_set d key ru)
  end.

(** A group for a sample: its key, and the mapping made of its run. *)
Definition sample_of (grp : str * list pydict) (smp : str * Sample) : Prop :=
  fst smp = fst grp /\ insert_all (snd grp) [] = Ok (readunits (snd smp)).

(** Every read unit has a key. *)
Definition keys_derivable (l : list pydict) : Prop :=
  Forall (fun ru => exists k, key_for_readunit ru = Ok k) l.

(** Every read unit has a key, as a test. *)
Definition all_keyed (l : list pydict) : bool :=
  forallb (fun ru => is_ok (key_for_readunit ru)) l.

Definition groupable (ru : pydict) : Prop :=
  is_ok (sample_id_of ru) = true /\ is_ok (key_for_readunit ru) = true.

(** The number of read units that each sample of a result holds. *)
Definition sample_sizes (r : result Samples) : result (list (str * nat)) :=
  samples <- r ;;
  Ok (map (fun smp => (fst smp, length (readunits (snd smp)))) samples).

(** ** The entries of the document *)

#[export] Instance pyval_EqDec : EqDec pyval.
Proof.
  intros x y. destruct x as [s| |l], y as [s'| |l'];
    try (right; discriminate); try (left; reflexivity).
  - destruct (eq_dec s s') as [->|n]; [now left|].
    right. intros [= E]. now apply n.
  - destruct (eq_dec l l') as [->|n]; [now left|].
    right. intros [= E]. now apply n.
Defined.

#[export] Instance prod_EqDec {A B} `{EqDec A} `{EqDec B} : EqDec (A * B).
Proof.
  intros [a b] [a' b'].
  destruct (eq_dec a a') as [->|n]; [|right; intros [= E _]; now apply n].
  destruct (eq_dec b b') as [->|n]; [now left|].
  right. intros [= E]. now apply n.
Defined.

(** The entries of the document: sample id, key and read unit. *)
Definition document_entries (samples : Samples) : list (str * str * pydict) :=
  flat_map
    (fun smp => map (fun kv => (fst smp, fst kv, snd kv)) (readunits (snd smp)))
    samples.

(** How many entries of the document hold the read unit [ru]. *)
Definition entries_for (samples : Samples) (ru : pydict) : nat :=
  length (filter (fun e => eqb (snd e) ru) (document_entries samples)).

(** ** The dump: [yaml.dump] and [ignore_aliases]
    The part of PyYAML's representer that decides on aliases. An object that
    can be shared (a [dict] or a [list]) has an identity, here the path that
    leads to it; a [str] and [None] have none, PyYAML never makes an alias
    of them. The order in which the items of a mapping are written is left
    out: it does not change which nodes there are. *)

#[warnings="-register-all"]
Inductive pyobj : Type :=
| OStr (s : str)
| ONone
| OList (id : list nat) (l : list pyobj)
| ODict (id : list nat) (items : list (pyobj * pyobj)).

(** What is written for an object: a scalar, a sequence, a mapping, or an
    alias to an object written before. *)
#[warnings="-register-all"]
Inductive node : Type :=
| ScalarNode (value : str)
| SequenceNode (l : list node)
| MappingNode (items : list (node * node))
| AliasNode (id : list nat).

(** [yaml.Dumper.ignore_aliases = lambda *args: True] *)
Definition ignore_aliases (data : pyobj) : bool := true.

(** The [ignore_aliases] that PyYAML comes with. *)
Definition default_ignore_aliases (data : pyobj) : bool :=
  match data with
  | OStr _ | ONone => true
  | _ => false
  end.

(** [represent_data]: with [ignore_aliases(data)] false, an object that is
    among the represented ones is an alias, and any other joins them. *)
Fixpoint represent_data (ign : pyobj -> bool) (data : pyobj)
  (represented : list (list nat)) {struct data} : node * list (list nat) :=
  match data with
  | OStr s => (ScalarNode s, represented)
  | ONone => (ScalarNode (U "null"), represented)
  | OList id l =>
      if negb (ign data) && py_in id represented
      then (AliasNode id, represented)
      else
        let represented :=
          if ign data then represented else id :: represented in
        let '(ns, represented) :=
          (fix items (l : list pyobj) (represented : list (list nat)) :=
             match l with
             | [] => ([], represented)
             | x :: l' =>
                 let '(n, represented) := represent_data ign x represented in
                 let '(ns, represented) := items l' represented in
                 (n :: ns, represented)
             end) l represented in
        (SequenceNode ns, represented)
  | ODict id kvs =>
      if negb (ign data) && py_in id represented
      then (AliasNode id, represented)
      else
        let represented :=
          if ign data then represented else id :: represented in
        let '(ns, represented) :=
          (fix items (l : list (pyobj * pyobj))
               (represented : list (list nat)) :=
             match l with
             | [] => ([], represented)
             | (k, v) :: l' =>
                 let '(nk, represented) := represent_data ign k represented in
                 let '(nv, represented) := represent_data ign v represented in
                 let '(ns, represented) := items l' represented in
                 ((nk, nv) :: ns, represented)
             end) kvs represented in
        (MappingNode ns, represented)
  end.

(** [yaml.dump(data)], as nodes. *)
Definition dump (ign : pyobj -> bool) (data : pyobj) : node :=
  fst (represent_data ign data []).

Fixpoint has_alias (n : node) : bool :=
  match n with
  | ScalarNode _ => false
  | SequenceNode l => existsb has_alias l
  | MappingNode items =>
      existsb (fun kv => has_alias (fst kv) || has_alias (snd kv)) items
  | AliasNode _ => true
  end.

Fixpoint mapi {A B} (f : nat -> A -> B) (i : nat) (l : list A) : list B :=
  match l with
  | [] => []
  | x :: l' => f i x :: mapi f (S i) l'
  end.

Definition key_obj (k : pykey) : pyobj :=
  match k with
  | Some f => OStr f
  | None => ONone
  end.

Definition val_obj (id : list nat) (v : pyval) : pyobj :=
  match v with
  | VStr s => OStr s
  | VNone => ONone
  | VList l => OList id (map OStr l)
  end.

(** The objects of the document, each [dict] a different object: its
    identity is the path from [dict(samples=samples)] down to it. *)
Definition ru_obj (id : list nat) (ru : pydict) : pyobj :=
  ODict id (mapi (fun m kv => (key_obj (fst kv), val_obj (id ++ [m]) (snd kv)))
                 O ru).

Definition sample_obj (id : list nat) (s : Sample) : pyobj :=
  ODict id
    [(OStr (U "readunits"),
      ODict (id ++ [O])
        (mapi (fun j kv => (OStr (fst kv), ru_obj (id ++ [O; j]) (snd kv)))
              O (readunits s)))].

Definition document (samples : Samples) : pyobj :=
  ODict []
    [(OStr (U "samples"),
      ODict [O]
        (mapi (fun i smp => (OStr (fst smp), sample_obj [O; i] (snd smp)))
              O samples))].

Section pyobj_induction.
Variable P : pyobj -> Prop.
Hypothesis HStr : forall s, P (OStr s).
Hypothesis HNone : P ONone.
Hypothesis HList : forall id l, Forall P l -> P (OList id l).
Hypothesis HDict :
  forall id items,
    Forall (fun kv => P (fst kv) /\ P (snd kv)) items -> P (ODict id items).

Fixpoint pyobj_nested_ind (o : pyobj) : P o :=
  match o with
  | OStr s => HStr s
  | ONone => HNone
  | OList id l =>
      HList id l
        ((fix all (l : list pyobj) : Forall P l :=
            match l with
            | [] => Forall_nil P
            | x :: l' => Forall_cons x (pyobj_nested_ind x) (all l')
            end) l)
  | ODict id items =>
      HDict id items
        ((fix all (l : list (pyobj * pyobj))
            : Forall (fun kv => P (fst kv) /\ P (snd kv)) l :=
            match l with
            | [] => Forall_nil _
            | kv :: l' =>
                Forall_cons kv
                  (conj (pyobj_nested_ind (fst kv)) (pyobj_nested_ind (snd kv)))
                  (all l')
            end) items)
  end.
End pyobj_induction.

(** The loops of [represent_sequence] and [represent_mapping]. *)
Definition represent_list (ign : pyobj -> bool) :=
  fix items (l : list pyobj) (represented : list (list nat))
    : list node * list (list nat) :=
    match l with
    | [] => ([], represented)
    | x :: l' =>
        let '(n, represented) := represent_data ign x represented in
        let '(ns, represented) := items l' represented in
        (n :: ns, represented)
    end.

Definition represent_items (ign : pyobj -> bool) :=
  fix items (l : list (pyobj * pyobj)) (represented : list (list nat))
    : list (node * node) * list (list nat) :=
    match l with
    | [] => ([], represented)
    | (k, v) :: l' =>
        let '(nk, represented) := represent_data ign k represented in
        let '(nv, represented) := represent_data ign v represented in
        let '(ns, represented) := items l' represented in
        ((nk, nv) :: ns, represented)
    end.

(** ** Sheets and read units for the examples *)

Definition nl : str := [10].

Definition tab : str := [9].

Definition full_header_line : str :=
  U "sample_id,fq1,fq2,run_id,flowcell_id,lane_id,library_id".

Definition full_header : list str := MANDATORY_FIELDS ++ RECOMMENDED_FIELDS.

Definition ru_example : ReadUnit :=
  [(U "sample_id", U "S1"); (U "fq1", U "/data/run1/a_R1.fq.gz");
   (U "fq2", U "/data/run1/a_R2.fq.gz"); (U "centre", U "GIS")].

(** A sheet whose only row has blanks, and nothing else, as [fq1]. *)
Definition blank_fq1_sheet : str :=
  full_header_line ++ nl ++ U "S1,  ,,,,," ++ nl.

(** A sheet whose only row has one blank, and nothing else, as [fq2]. *)
Definition blank_fq2_sheet : str :=
  full_header_line ++ nl ++ U "S1,a.fq, ,,,," ++ nl.

Definition empty_fq2_record : list str :=
  [U "S1"; U " a_R1.fq.gz"; []; U "run7 "; []; []; []].

(** A sheet with the mandatory columns only, whose row has no [sample_id]. *)
Definition short_header_sheet : str :=
  U "sample_id,fq1" ++ nl ++ U ",a.fq" ++ nl.

Definition colliding_rows : list pydict :=
  [ [(Some (U "sample_id"), VStr (U "S1")); (Some (U "fq1"), VStr (U "/old/a.fq"))];
    [(Some (U "sample_id"), VStr (U "S0")); (Some (U "fq1"), VStr (U "b.fq"))];
    [(Some (U "sample_id"), VStr (U "S1")); (Some (U "fq1"), VStr (U "/new/a.fq"))] ].

(** A sheet with the sample ids A, A, B whose two rows for A are the same. *)
Definition repeated_row_sheet : str :=
  full_header_line ++ nl ++ U "A,x_R1.fq,,,,," ++ nl ++ U "A,x_R1.fq,,,,," ++ nl
  ++ U "B,y_R1.fq,,,,," ++ nl.

Definition aab_rows : list pydict :=
  [ [(Some (U "sample_id"), VStr (U "A")); (Some (U "fq1"), VStr (U "x_R1.fq"))];
    [(Some (U "sample_id"), VStr (U "B")); (Some (U "fq1"), VStr (U "y_R1.fq"))];
    [(Some (U "sample_id"), VStr (U "A")); (Some (U "fq1"), VStr (U "z_R1.fq"))] ].

Definition aab_keyed : list (str * pydict) :=
  combine [U "A"; U "B"; U "A"] aab_rows.

(** A sheet with one row written twice. *)
Definition twin_rows_sheet : str :=
  full_header_line ++ nl ++ U "S1,a_R1.fq.gz,a_R2.fq.gz,,,," ++ nl
  ++ U "S1,a_R1.fq.gz,a_R2.fq.gz,,,," ++ nl.

Definition twin : pydict :=
  [(Some (U "sample_id"), VStr (U "S1")); (Some (U "fq1"), VStr (U "a_R1.fq.gz"));
   (Some (U "fq2"), VStr (U "a_R2.fq.gz"))].

(** The sheet of the default delimiter: two columns, a tab between them. *)
Definition tab_sheet : str :=
  U "sample_id" ++ tab ++ U "fq1" ++ nl ++ U "S1" ++ tab ++ U "a.fq" ++ nl.

(** ** What the statements on the parse speak of *)

(** A record with at least one field: a line that is not blank. *)
Definition nonblank (record : list str) : bool :=
  match record with
  | [] => false
  | _ => true
  end.

(** The reader of the parser: the 'excel' one. *)
Definition excel_reader (csv : str) : list (result (list str)) :=
  Csv.reader_of Csv.excel_delimiter csv.

(** The row has a value for the field that [if row[f]] takes as true. *)
Definition has_value (row : pydict) (f : str) : bool :=
  match dict_get row (Some f) with
  | Some v => truthy v
  | None => false
  end.

(** A [str] that [strip] leaves as it is. *)
Definition trimmed (s : str) : Prop := lstrip s = s /\ rstrip s = s.

(** A read unit as the parser leaves it, under a header: no field twice;
    every key the name of a column and every value a [str]; the mandatory
    fields there, and they and the recommended fields trimmed. *)
Definition well_formed (header : list str) (ru : pydict) : Prop :=
  NoDup (keys ru)
  /\ (forall k v, In (k, v) ru ->
        exists f s, k = Some f /\ In f header /\ v = VStr s)
  /\ (forall f, In f MANDATORY_FIELDS ->
        exists s, dict_get ru (Some f) = Some (VStr s) /\ trimmed s)
  /\ (forall f s, In f RECOMMENDED_FIELDS ->
        dict_get ru (Some f) = Some (VStr s) -> trimmed s).

(** A value that is not a [str]. *)
Definition not_str (v : pyval) : Prop :=
  match v with
  | VStr _ => False
  | _ => True
  end.

(** An item that the key deriver hashes, or on which it raises an
    [AttributeError]: its value is not a [str] and is not sent through
    [os.path.basename] first. *)
Definition hashes_or_raises (kv : pykey * pyval) : Prop :=
  encodable_value (snd kv) \/ (is_file_key (fst kv) = false /\ not_str (snd kv)).

(** The values that are [str] encode. *)
Definition str_encodable (kv : pykey * pyval) : Prop :=
  match snd kv with
  | VStr s => encodable s = true
  | _ => True
  end.

(** An item of a short row: a field of the record, or [None] under a column
    that the record does not reach. *)
Definition short_row_item (record names : list str) (kv : pykey * pyval)
  : Prop :=
  (exists s, snd kv = VStr s /\ In s record)
  \/ (snd kv = VNone /\ exists f, fst kv = Some f /\ In f names).

(** The states of the reader outside a quoted field. *)
Definition unquoted (r : Csv.reader) : Prop :=
  match Csv.state r with
  | Csv.IN_QUOTED_FIELD | Csv.QUOTE_IN_QUOTED_FIELD => False
  | _ => True
  end.

(** [logger.info("Parsed %d samples with a total of %d readunits",
                 len(samples), len(readunits))]: the two numbers. *)
Definition logged_counts (samples : Samples) (readunits : list (str * pydict))
  : nat * nat :=
  (length samples, length readunits).

(** The sample id and the key of a read unit that has been given its sample
    id. *)
Definition slot (kx : str * pydict) : str * result str :=
  (fst kx, key_for_readunit (snd kx)).

(** ** The logger

    [logging]: a logger has a level and a parent; the level [NOTSET] hands
    the decision over to the parent. *)
Module Logging.

Definition NOTSET : Z := 0.
Definition DEBUG : Z := 10.
Definition INFO : Z := 20.
Definition WARNING : Z := 30.
Definition WARN : Z := WARNING.
Definition ERROR : Z := 40.
Definition CRITICAL : Z := 50.

#[warnings="-register-all"]
Inductive Logger : Type :=
| mkLogger (level : Z) (parent : option Logger).

(** The root logger, whose level nothing in the program changes. *)
Definition root : Logger := mkLogger WARNING None.

(** [Logger.getEffectiveLevel]: the first level that is not zero, from the
    logger upwards. *)
Fixpoint getEffectiveLevel (logger : Logger) : Z :=
  match logger with
  | mkLogger level parent =>
      if negb (level =? 0)%Z then level
      else match parent with
           | Some p => getEffectiveLevel p
           | None => NOTSET
           end
  end.

(** [logging.disable] is never called: the manager's threshold is its
    initial one. *)
Definition manager_disable : Z := 0.

(** [Logger.isEnabledFor] *)
Definition isEnabledFor (logger : Logger) (level : Z) : bool :=
  if (manager_disable >=? level)%Z then false
  else (level >=? getEffectiveLevel logger)%Z.

End Logging.

(** [logger = logging.getLogger(__name__)] after
    [logger.setLevel(logging.WARN + 10*args.quiet - 10*args.verbose)]: a
    child of the root logger. Its one handler has no level of its own, so a
    message is written exactly when the logger is enabled for it. *)
Definition logger (quiet verbose : nat) : Logging.Logger :=
  Logging.mkLogger
    (Logging.WARN + 10 * Z.of_nat quiet - 10 * Z.of_nat verbose)%Z
    (Some Logging.root).

(** * yamlcheck.py

    The checker is the YAML library's loader and a loop around it. The
    loader is not part of the program: the objects it constructs, what
    [load] makes of a file, which objects are a [dict] and which can be
    iterated over are what Python and the library say, and the program is
    modelled over them. *)
Module Yamlcheck.

(** What the script prints, line by line. A line holds the objects that are
    printed; their text is Python's. *)
Inductive line (obj : Type) : Type :=
| Dict_header                (* dict: *)
| Dict_item (k v : obj)      (* k and v, indented *)
| List_header                (* list: *)
| List_item (v : obj)        (* the type of v and v, indented *)
| OK (yamlfile : str)        (* OK: yamlfile *)
| Help.                      (* the help text, on the error stream *)

Arguments Dict_header {obj}.
Arguments Dict_item {obj} k v.
Arguments List_header {obj}.
Arguments List_item {obj} v.
Arguments OK {obj} yamlfile.
Arguments Help {obj}.

Section Script.

(** The objects that the loader constructs. *)
Variable obj : Type.

(** [with open(yamlfile) as fh: load(fh, Loader=Loader)] *)
Variable load : str -> result obj.

(** [data.items()] where [isinstance(data, dict)], [None] elsewhere. *)
Variable items : obj -> option (list (obj * obj)).

(** What [for v in data] runs through, [None] for an object that is not
    iterable. *)
Variable iter : obj -> option (list obj).

(** [parse(yamlfile, printdata)]: the lines printed and how it ends. *)
Definition parse (yamlfile : str) (printdata : bool)
  : list (line obj) * result unit :=
  match load yamlfile with
  | Error e => ([], Error e)
  | Ok data =>
      if printdata then
        match items data with
        | Some kvs =>
            (Dict_header :: map (fun kv => Dict_item (fst kv) (snd kv)) kvs,
             Ok tt)
        | None =>
            match iter data with
            | Some vs => (List_header :: map List_item vs, Ok tt)
            | None => ([List_header], Error TypeError)
            end
        end
      else ([], Ok tt)
  end.

(** [for y in args.yamlfiles: parse(y, printdata=args.print); print(OK)] *)
Fixpoint check_files (yamlfiles : list str) (print : bool)
  : list (line obj) * result unit :=
  match yamlfiles with
  | [] => ([], Ok tt)
  | y :: rest =>
      match parse y print with
      | (out, Error e) => (out, Error e)
      | (out, Ok _) =>
          let (out', r) := check_files rest print in
          (out ++ OK y :: out', r)
      end
  end.

(** The body of the script, for the arguments [yamlfiles] and [-p]. *)
Definition script (yamlfiles : list str) (print : bool)
  : list (line obj) * result unit :=
  match yamlfiles with
  | [] => ([Help], Error (SystemExit 1))
  | _ => check_files yamlfiles print
  end.

(** The files that a printout reports as [OK], in the order of the lines. *)
Fixpoint ok_files (out : list (line obj)) : list str :=
  match out with
  | [] => []
  | OK y :: out' => y :: ok_files out'
  | _ :: out' => ok_files out'
  end.

End Script.

Arguments parse {obj} load items iter yamlfile printdata.
Arguments check_files {obj} load items iter yamlfiles print.
Arguments script {obj} load items iter yamlfiles print.
Arguments ok_files {obj} out.

End Yamlcheck.

(** A loader for the examples: the file [null] holds a document that is not
    iterable, every other file does not load. *)
Definition example_load (y : str) : result (option (list nat)) :=
  if eqb y (U "null") then Ok None else Error CsvError.

(** * Properties *)

(** ** Test vectors of the digest *)

Example md5_empty :
  Md5.hexdigest Md5.new = U "d41d8cd98f00b204e9800998ecf8427e".
Proof. vm_compute. reflexivity. Qed.

Example md5_abc :
  Md5.hexdigest (Md5.update Md5.new (utf8 (U "abc")))
  = U "900150983cd24fb0d6963f7d28e17f72".
Proof. vm_compute. reflexivity. Qed.

Example md5_two_blocks :
  Md5.hexdigest (Md5.update Md5.new (repeat 97 120))
  = U "5f61c0ccad4cac44c75ff505e1f1e537".
Proof. vm_compute. reflexivity. Qed.

Example md5_pad_boundary :
  Md5.hexdigest (Md5.update Md5.new (repeat 97 56))
  = U "3b0c8ac703f828b04c6c197006d17218".
Proof. vm_compute. reflexivity. Qed.

(** ** Equality tests and dictionaries *)

Lemma eqb_refl {A} `{EqDec A} (x : A) : eqb x x = true.
Proof. unfold eqb. destruct (eq_dec x x); congruence. Qed.

Lemma eqb_eq {A} `{EqDec A} (x y : A) : eqb x y = true <-> x = y.
Proof. unfold eqb. destruct (eq_dec x y); split; congruence. Qed.

Lemma eqb_neq {A} `{EqDec A} (x y : A) : eqb x y = false <-> x <> y.
Proof. unfold eqb. destruct (eq_dec x y); split; congruence. Qed.

Lemma py_in_In {A} `{EqDec A} (x : A) (l : list A) :
  py_in x l = true <-> In x l.
Proof.
  unfold py_in. rewrite existsb_exists. split.
  - intros [y [Hy E]]. apply eqb_eq in E. now subst.
  - intros Hx. exists x. split; [assumption | apply eqb_refl].
Qed.

Lemma py_in_not_In {A} `{EqDec A} (x : A) (l : list A) :
  py_in x l = false <-> ~ In x l.
Proof.
  rewrite <- py_in_In. destruct (py_in x l); split; congruence.
Qed.

Section DictFacts.
Context {K V : Type} `{EqDec K}.
Implicit Types (d : dict K V) (k : K) (v : V).

Lemma dict_get_set_same d k v : dict_get (dict_set d k v) k = Some v.
Proof.
  induction d as [|[k' v'] d IH]; simpl.
  - now rewrite eqb_refl.
  - destruct (eqb k k') eqn:E; simpl.
    + now rewrite eqb_refl.
    + now rewrite E.
Qed.

Lemma dict_get_set_other d k k' v :
  k' <> k -> dict_get (dict_set d k v) k' = dict_get d k'.
Proof.
  intros Hne. induction d as [|[k0 v0] d IH]; simpl.
  - apply eqb_neq in Hne. now rewrite Hne.
  - destruct (eqb k k0) eqn:E; simpl.
    + apply eqb_eq in E. subst k0. apply eqb_neq in Hne. now rewrite Hne.
    + destruct (eqb k' k0); [reflexivity | assumption].
Qed.

Lemma dict_get_set d k k' v :
  dict_get (dict_set d k v) k' = if eqb k' k then Some v else dict_get d k'.
Proof.
  destruct (eqb k' k) eqn:E.
  - apply eqb_eq in E. subst. apply dict_get_set_same.
  - apply eqb_neq in E. now apply dict_get_set_other.
Qed.

Lemma dict_get_None d k : dict_get d k = None <-> ~ In k (keys d).
Proof.
  induction d as [|[k' v'] d IH]; simpl.
  - tauto.
  - destruct (eqb k k') eqn:E.
    + apply eqb_eq in E. subst. split; [discriminate | tauto].
    + apply eqb_neq in E. rewrite IH. split.
      * intros Hn [Hk|Hk]; [congruence | tauto].
      * tauto.
Qed.

Lemma dict_get_In d k v : dict_get d k = Some v -> In (k, v) d.
Proof.
  induction d as [|[k' v'] d IH]; simpl; [discriminate|].
  destruct (eqb k k') eqn:E.
  - apply eqb_eq in E. subst. intros [= ->]. now left.
  - intros Hg. right. now apply IH.
Qed.

Lemma In_dict_get d k v :
  NoDup (keys d) -> In (k, v) d -> dict_get d k = Some v.
Proof.
  induction d as [|[k' v'] d IH]; simpl; [tauto|].
  intros Hnd [Hin|Hin].
  - injection Hin as -> ->. now rewrite eqb_refl.
  - inversion Hnd as [|? ? Hk' Hnd']; subst.
    destruct (eqb k k') eqn:E.
    + apply eqb_eq in E. subst. exfalso. apply Hk'.
      change k' with (fst (k', v)). now apply in_map.
    + now apply IH.
Qed.

(** Setting a key that is not there appends the item. *)
Lemma dict_set_fresh d k v :
  ~ In k (keys d) -> dict_set d k v = d ++ [(k, v)].
Proof.
  induction d as [|[k' v'] d IH]; simpl; [reflexivity|].
  intros Hn. destruct (eqb k k') eqn:E.
  - apply eqb_eq in E. subst. tauto.
  - f_equal. apply IH. tauto.
Qed.

(** Setting a key that is there keeps the keys and their order. *)
Lemma keys_dict_set_old d k v :
  In k (keys d) -> keys (dict_set d k v) = keys d.
Proof.
  induction d as [|[k' v'] d IH]; simpl; [tauto|].
  intros Hin. destruct (eqb k k') eqn:E; simpl.
  - apply eqb_eq in E. now subst.
  - f_equal. apply IH. apply eqb_neq in E. destruct Hin; congruence.
Qed.

Lemma keys_dict_set d k v :
  keys (dict_set d k v) = if py_in k (keys d) then keys d else keys d ++ [k].
Proof.
  destruct (py_in k (keys d)) eqn:E.
  - apply py_in_In in E. now apply keys_dict_set_old.
  - apply py_in_not_In in E. rewrite dict_set_fresh by assumption.
    unfold keys. now rewrite map_app.
Qed.

Lemma NoDup_keys_dict_set d k v :
  NoDup (keys d) -> NoDup (keys (dict_set d k v)).
Proof.
  intros Hnd. rewrite keys_dict_set. destruct (py_in k (keys d)) eqn:E.
  - assumption.
  - apply py_in_not_In in E. apply NoDup_app; auto.
    + constructor; [tauto | constructor].
    + intros x Hx [<-|[]]. now apply E.
Qed.

(** Every item of [dict_set d k v] is the new one or an old one under
    another key. *)
Lemma In_dict_set d k v k' v' :
  NoDup (keys d) -> In (k', v') (dict_set d k v) ->
  (k' = k /\ v' = v) \/ (k' <> k /\ In (k', v') d).
Proof.
  intros Hnd Hin.
  apply In_dict_get in Hin; [|now apply NoDup_keys_dict_set].
  rewrite dict_get_set in Hin. destruct (eqb k' k) eqn:E.
  - apply eqb_eq in E. injection Hin as <-. now left.
  - apply eqb_neq in E. right. split; [assumption|].
    now apply dict_get_In.
Qed.
End DictFacts.

(** ** The digest is 32 lowercase hexadecimal characters *)

Lemma hexdigit_lower_hex (n : N) : n < 16 -> is_lower_hex (Md5.hexdigit n) = true.
Proof.
  intros Hn. unfold is_lower_hex, Md5.hexdigit.
  destruct (n <? 10) eqn:E.
  - apply N.ltb_lt in E. apply orb_true_iff. left.
    apply andb_true_iff. split; apply N.leb_le; lia.
  - apply N.ltb_ge in E. apply orb_true_iff. right.
    apply andb_true_iff. split; apply N.leb_le; lia.
Qed.

Lemma hex_byte_lower_hex (b : N) :
  b < 256 -> forallb is_lower_hex (Md5.hex_byte b) = true.
Proof.
  intros Hb. unfold Md5.hex_byte. simpl.
  rewrite !hexdigit_lower_hex; [reflexivity | |].
  - apply N.mod_lt. discriminate.
  - apply N.Div0.div_lt_upper_bound. exact Hb.
Qed.

Lemma le_bytes_length (k : nat) (n : N) : length (Md5.le_bytes k n) = k.
Proof. revert n. induction k; intros n; simpl; [|rewrite IHk]; reflexivity. Qed.

Lemma le_bytes_octets (k : nat) (n : N) :
  Forall (fun b => b < 256) (Md5.le_bytes k n).
Proof.
  revert n. induction k; intros n; simpl; constructor.
  - apply N.mod_lt. discriminate.
  - apply IHk.
Qed.

Lemma digest_length (msg : bytes) : length (Md5.digest msg) = 16%nat.
Proof.
  unfold Md5.digest. generalize (Md5.digest_state msg). intros st.
  cbn [flat_map]. rewrite !length_app, !le_bytes_length. reflexivity.
Qed.

Lemma digest_octets (msg : bytes) : Forall (fun b => b < 256) (Md5.digest msg).
Proof.
  unfold Md5.digest. generalize (Md5.digest_state msg). intros st.
  cbn [flat_map]. repeat (apply Forall_app; split);
    try apply le_bytes_octets. constructor.
Qed.

Lemma hexdigest_length (m : Md5.md5) : length (Md5.hexdigest m) = 32%nat.
Proof.
  unfold Md5.hexdigest.
  pose proof (digest_length (Md5.buffer m)) as Hl.
  generalize dependent (Md5.digest (Md5.buffer m)). intros l.
  assert (G : forall l : bytes,
             length (flat_map Md5.hex_byte l) = (2 * length l)%nat).
  { clear. induction l as [|b l IH]; simpl; [reflexivity | rewrite IH; lia]. }
  intros Hl. rewrite G, Hl. reflexivity.
Qed.

Lemma hexdigest_lower_hex (m : Md5.md5) :
  forallb is_lower_hex (Md5.hexdigest m) = true.
Proof.
  unfold Md5.hexdigest.
  pose proof (digest_octets (Md5.buffer m)) as Ho.
  induction Ho as [|b l Hb Ho IH]; [reflexivity|].
  cbn [flat_map]. rewrite forallb_app, IH, hex_byte_lower_hex by assumption.
  reflexivity.
Qed.

Lemma forallb_firstn {A} (p : A -> bool) (n : nat) (l : list A) :
  forallb p l = true -> forallb p (firstn n l) = true.
Proof.
  revert l. induction n; intros [|x l]; simpl; try reflexivity.
  intros H. apply andb_true_iff in H as [Hx Hl].
  now rewrite Hx, IHn.
Qed.

Lemma forallb_skipn {A} (p : A -> bool) (n : nat) (l : list A) :
  forallb p l = true -> forallb p (skipn n l) = true.
Proof.
  revert l. induction n; intros [|x l]; simpl; try tauto.
  intros H. apply andb_true_iff in H as [Hx Hl]. now apply IHn.
Qed.

(** ** The key deriver *)

Lemma md5_feed_app (l1 l2 : pydict) (m : Md5.md5) :
  md5_feed (l1 ++ l2) m = m' <- md5_feed l1 m ;; md5_feed l2 m'.
Proof.
  revert m. induction l1 as [|[k v] l1 IH]; intros m; simpl; [reflexivity|].
  destruct (if is_file_key k then py_basename v else Ok v) as [v'|e];
    simpl; [|reflexivity].
  destruct (py_encode v') as [b|e]; simpl; [apply IH | reflexivity].
Qed.

Lemma md5_feed_cons (k : pykey) (v : pyval) (rest : pydict) (m : Md5.md5) :
  md5_feed ((k, v) :: rest) m
  = v' <- (if is_file_key k then py_basename v else Ok v) ;;
    b <- py_encode v' ;;
    md5_feed rest (Md5.update m b).
Proof. reflexivity. Qed.

Lemma encodable_basename (s : str) :
  encodable s = true -> encodable (basename s) = true.
Proof. apply forallb_skipn. Qed.

Lemma md5_feed_as_dict (ru : ReadUnit) (m : Md5.md5) :
  Forall (fun kv => encodable (snd kv) = true) ru ->
  md5_feed (as_dict ru) m
  = Ok (Md5.mkMd5
          (Md5.buffer m ++ flat_map (fun kv => utf8 (hashed_value kv)) ru)).
Proof.
  intros Hall. revert m.
  induction Hall as [|[k v] ru Hv Hall IH]; intros m.
  - simpl. rewrite app_nil_r. now destruct m.
  - change (as_dict ((k, v) :: ru)) with ((Some k, VStr v) :: as_dict ru).
    rewrite md5_feed_cons.
    change (is_file_key (Some k)) with (py_in k file_keys).
    cbn [flat_map]. unfold hashed_value at 1. cbn [fst snd] in *.
    destruct (py_in k file_keys); cbn [bind py_basename py_encode];
      unfold encode; rewrite ?(encodable_basename _ Hv), ?Hv; cbn [bind];
      rewrite IH; cbn [Md5.update Md5.buffer]; now rewrite <- app_assoc.
Qed.

(** C6: the key of a read unit is the first 8 characters of the lowercase
    hexadecimal digest of a 128-bit hash (MD5, 16 octets) of the UTF-8 bytes
    of its values taken in field order, with the values of [fq1] and [fq2]
    replaced by their basename; it is 8 lowercase hexadecimal characters. *)
Theorem key_for_readunit_is_key_spec (ru : ReadUnit) :
  Forall (fun kv => encodable (snd kv) = true) ru ->
  key_for_readunit (as_dict ru) = Ok (key_spec ru)
  /\ length (Md5.digest (flat_map (fun kv => utf8 (hashed_value kv)) ru))
     = 16%nat
  /\ length (key_spec ru) = 8%nat
  /\ forallb is_lower_hex (key_spec ru) = true.
Proof.
  intros Hall. unfold key_for_readunit, key_spec.
  rewrite (md5_feed_as_dict ru Md5.new Hall).
  cbn [bind Md5.new Md5.buffer app].
  split; [reflexivity | split; [apply digest_length | split]].
  - rewrite length_firstn, hexdigest_length. reflexivity.
  - apply forallb_firstn, hexdigest_lower_hex.
Qed.

Lemma key_for_readunit_is_key_spec_witness :
  key_for_readunit (as_dict ru_example) = Ok (key_spec ru_example)
  /\ length
       (Md5.digest (flat_map (fun kv => utf8 (hashed_value kv)) ru_example))
     = 16%nat
  /\ length (key_spec ru_example) = 8%nat
  /\ forallb is_lower_hex (key_spec ru_example) = true.
Proof.
  apply (key_for_readunit_is_key_spec ru_example).
  repeat constructor.
Defined.

Example key_of_ru_example : key_for_readunit (as_dict ru_example) = Ok (U "21df0f65").
Proof. vm_compute. reflexivity. Qed.

(** ** Basename normalization *)

Lemma rfind_from_no_sep (i : Z) (b : str) (found : Z) :
  ~ In sep b -> rfind_from i b found = found.
Proof.
  revert i found. induction b as [|c b IH]; intros i found Hn; simpl.
  - reflexivity.
  - destruct (c =? sep) eqn:E.
    + apply N.eqb_eq in E. subst. exfalso. apply Hn. now left.
    + apply IH. intros Hin. apply Hn. now right.
Qed.

Lemma rfind_from_last_sep (i : Z) (d b : str) (found : Z) :
  ~ In sep b ->
  rfind_from i (d ++ sep :: b) found = (i + Z.of_nat (length d))%Z.
Proof.
  intros Hn. revert i found.
  induction d as [|c d IH]; intros i found.
  - cbn [app rfind_from length]. rewrite N.eqb_refl.
    rewrite rfind_from_no_sep by assumption. simpl. lia.
  - cbn [app rfind_from length]. rewrite IH. lia.
Qed.

Lemma basename_no_sep (b : str) : ~ In sep b -> basename b = b.
Proof.
  intros Hn. unfold basename, rfind_sep.
  now rewrite rfind_from_no_sep.
Qed.

Lemma basename_after_sep (d b : str) :
  ~ In sep b -> basename (d ++ sep :: b) = b.
Proof.
  intros Hn. unfold basename, rfind_sep.
  rewrite rfind_from_last_sep by assumption.
  replace (Z.to_nat (0 + Z.of_nat (length d) + 1)) with (length d + 1)%nat
    by lia.
  replace (d ++ sep :: b) with ((d ++ [sep]) ++ b)
    by (now rewrite <- app_assoc).
  rewrite skipn_app, skipn_all2 by (rewrite length_app; simpl; lia).
  rewrite length_app. simpl.
  now replace (length d + 1 - (length d + 1))%nat with 0%nat by lia.
Qed.

Lemma basename_dir_prefix (d b : str) :
  dir_prefix d -> ~ In sep b -> basename (d ++ b) = b.
Proof.
  intros [->|[d' ->]] Hn.
  - now apply basename_no_sep.
  - rewrite <- app_assoc. now apply basename_after_sep.
Qed.

(** C7: two read units that are the same but for the directory prefix of a
    file-path field ([fq1] or [fq2]), the basename being the same, have the
    same key. *)
Theorem key_basename_normalization
  (before after : pydict) (f d1 d2 b : str) :
  In f file_keys ->
  dir_prefix d1 -> dir_prefix d2 -> ~ In sep b ->
  key_for_readunit (before ++ (Some f, VStr (d1 ++ b)) :: after)
  = key_for_readunit (before ++ (Some f, VStr (d2 ++ b)) :: after).
Proof.
  intros Hf H1 H2 Hb. unfold key_for_readunit.
  rewrite !md5_feed_app. destruct (md5_feed before Md5.new) as [m|e];
    [|reflexivity].
  cbn [bind]. rewrite !md5_feed_cons.
  assert (E : is_file_key (Some f) = true) by (now apply py_in_In).
  rewrite E. cbn [py_basename bind].
  now rewrite !basename_dir_prefix.
Qed.

Lemma key_basename_normalization_witness :
  key_for_readunit
    ([(Some (U "sample_id"), VStr (U "S1"))]
       ++ (Some (U "fq1"), VStr (U "/data/run1/" ++ U "a_R1.fq.gz"))
       :: [(Some (U "run_id"), VStr (U "r7"))])
  = key_for_readunit
      ([(Some (U "sample_id"), VStr (U "S1"))]
         ++ (Some (U "fq1"), VStr (U "/mnt/archive/2018/" ++ U "a_R1.fq.gz"))
         :: [(Some (U "run_id"), VStr (U "r7"))]).
Proof.
  apply (key_basename_normalization
           [(Some (U "sample_id"), VStr (U "S1"))]
           [(Some (U "run_id"), VStr (U "r7"))]
           (U "fq1") (U "/data/run1/") (U "/mnt/archive/2018/")
           (U "a_R1.fq.gz")).
  - simpl. left. reflexivity.
  - right. exists (U "/data/run1"). reflexivity.
  - right. exists (U "/mnt/archive/2018"). reflexivity.
  - intros Hin. simpl in Hin. repeat (destruct Hin as [Hin|Hin]; [discriminate|]).
    exact Hin.
Defined.

(** ** The key does not read the field names *)

Lemma md5_feed_same_for_key (ru1 ru2 : pydict) :
  Forall2 same_for_key ru1 ru2 ->
  forall m, md5_feed ru1 m = md5_feed ru2 m.
Proof.
  induction 1 as [|[k1 v1] [k2 v2] ru1 ru2 [Hv Hk] _ IH]; intros m.
  - reflexivity.
  - simpl in Hv, Hk. subst v2. rewrite !md5_feed_cons, Hk.
    destruct (if is_file_key k2 then py_basename v1 else Ok v1) as [v|e];
      [|reflexivity].
    cbn [bind]. destruct (py_encode v) as [b|e]; [|reflexivity].
    cbn [bind]. apply IH.
Qed.

(** C10: the key reads the values in order and, of a field name, only
    whether it is [fq1] or [fq2]: two read units with the same values in the
    same order, whose names agree on that at every position, have the same
    key, whatever the other names are. *)
Theorem key_depends_on_values_only (ru1 ru2 : pydict) :
  Forall2 same_for_key ru1 ru2 ->
  key_for_readunit ru1 = key_for_readunit ru2.
Proof.
  intros Hsame. unfold key_for_readunit.
  now rewrite (md5_feed_same_for_key ru1 ru2 Hsame).
Qed.

Lemma key_depends_on_values_only_witness :
  key_for_readunit
    [(Some (U "sample_id"), VStr (U "S1")); (Some (U "fq1"), VStr (U "/x/a.fq"));
     (Some (U "centre"), VStr (U "GIS"))]
  = key_for_readunit
      [(Some (U "library_id"), VStr (U "S1")); (Some (U "fq2"), VStr (U "/x/a.fq"));
       (Some (U "comment"), VStr (U "GIS"))].
Proof.
  apply key_depends_on_values_only.
  repeat constructor.
Defined.

(** ** The rows that the [DictReader] hands over *)

Lemma In_keys_dict_set {K V} `{EqDec K} (d : dict K V) k k' v :
  In k (keys (dict_set d k' v)) <-> k = k' \/ In k (keys d).
Proof.
  rewrite keys_dict_set. destruct (py_in k' (keys d)) eqn:E.
  - apply py_in_In in E. split; [tauto|]. intros [->|Hin]; assumption.
  - rewrite in_app_iff. simpl. intuition congruence.
Qed.

Lemma In_keys_dict_zip (fs vs : list str) (d : pydict) (k : pykey) :
  In k (keys (Csv.dict_zip fs vs d))
  <-> In k (keys d) \/ exists f, k = Some f /\ In f (firstn (length vs) fs).
Proof.
  revert vs d. induction fs as [|f fs IH]; intros vs d.
  - simpl. rewrite firstn_nil. split; [tauto|]. intros [Hin|[f [_ []]]]. exact Hin.
  - destruct vs as [|v vs].
    + simpl. split; [tauto|]. intros [Hin|[f' [_ []]]]. exact Hin.
    + cbn [Csv.dict_zip length firstn]. rewrite IH, In_keys_dict_set. split.
      * intros [[->|Hin]|[f' [-> Hin]]].
        -- right. exists f. split; [reflexivity | now left].
        -- now left.
        -- right. exists f'. split; [reflexivity | now right].
      * intros [Hin|[f' [-> [->|Hin]]]].
        -- left. now right.
        -- left. now left.
        -- right. exists f'. now split.
Qed.

Lemma In_keys_fill_restval (names : list str) (d : pydict) (k : pykey) :
  In k (keys (Csv.fill_restval names d))
  <-> In k (keys d) \/ exists f, k = Some f /\ In f names.
Proof.
  unfold Csv.fill_restval. revert d.
  induction names as [|n names IH]; intros d; simpl.
  - split; [tauto|]. intros [Hin|[f [_ []]]]. exact Hin.
  - rewrite IH, In_keys_dict_set. split.
    + intros [[->|Hin]|[f [-> Hin]]].
      * right. exists n. split; [reflexivity | now left].
      * now left.
      * right. exists f. split; [reflexivity | now right].
    + intros [Hin|[f [-> [->|Hin]]]].
      * left. now right.
      * left. now left.
      * right. exists f. now split.
Qed.

(** A row has exactly the field names of the header as its [str] keys. *)
Lemma In_keys_row_dict (header record : list str) (f : str) :
  In (Some f) (keys (Csv.row_dict header record)) <-> In f header.
Proof.
  unfold Csv.row_dict.
  destruct (length header <? length record)%nat eqn:E1;
    [|destruct (length record <? length header)%nat eqn:E2].
  - apply Nat.ltb_lt in E1.
    rewrite In_keys_dict_set, In_keys_dict_zip, firstn_all2 by lia.
    simpl. split.
    + intros [?|[[]|[f' [[= ->] Hin]]]]; [discriminate | assumption].
    + intros Hin. right. right. now exists f.
  - rewrite In_keys_fill_restval, In_keys_dict_zip. simpl.
    assert (Hsplit : In f header
                     <-> In f (firstn (length record) header)
                         \/ In f (skipn (length record) header)).
    { rewrite <- in_app_iff. now rewrite firstn_skipn. }
    rewrite Hsplit. split.
    + intros [[[]|[f' [[= ->] Hin]]]|[f' [[= ->] Hin]]]; tauto.
    + intros [Hin|Hin].
      * left. right. now exists f.
      * right. now exists f.
  - apply Nat.ltb_ge in E1. apply Nat.ltb_ge in E2.
    rewrite In_keys_dict_zip, firstn_all2 by lia. simpl. split.
    + intros [[]|[f' [[= ->] Hin]]]. assumption.
    + intros Hin. right. now exists f.
Qed.

Lemma field_values_set (d : pydict) (k : pykey) (v : pyval) :
  field_values d -> (k <> None -> is_field_value v) ->
  field_values (dict_set d k v).
Proof.
  intros Hd Hv f w. rewrite dict_get_set.
  match goal with |- context [if ?c then _ else _] => destruct c eqn:E end.
  - apply eqb_eq in E. subst k. intros [= <-]. apply Hv. discriminate.
  - apply Hd.
Qed.

Lemma field_values_dict_zip (fs vs : list str) (d : pydict) :
  field_values d -> field_values (Csv.dict_zip fs vs d).
Proof.
  revert vs d. induction fs as [|f fs IH]; intros [|v vs] d Hd; simpl; auto.
  apply IH. apply field_values_set; [assumption | intros _; exact I].
Qed.

Lemma field_values_fill_restval (names : list str) (d : pydict) :
  field_values d -> field_values (Csv.fill_restval names d).
Proof.
  unfold Csv.fill_restval. revert d.
  induction names as [|n names IH]; intros d Hd; simpl; auto.
  apply IH. apply field_values_set; [assumption | intros _; exact I].
Qed.

Lemma field_values_row_dict (header record : list str) :
  field_values (Csv.row_dict header record).
Proof.
  assert (H0 : field_values []) by (intros f v; discriminate).
  unfold Csv.row_dict.
  destruct (length header <? length record)%nat;
    [|destruct (length record <? length header)%nat].
  - apply field_values_set; [|congruence]. now apply field_values_dict_zip.
  - now apply field_values_fill_restval, field_values_dict_zip.
  - now apply field_values_dict_zip.
Qed.

(** Under a field name of the header a row has a [str] with a character,
    or else the empty [str] or [None]. *)
Lemma row_dict_raw (header record : list str) (f : str) :
  In f header ->
  raw_nonempty (Csv.row_dict header record) f
  \/ raw_empty (Csv.row_dict header record) f.
Proof.
  intros Hin. apply In_keys_row_dict with (record := record) in Hin.
  destruct (dict_get (Csv.row_dict header record) (Some f)) as [v|] eqn:E.
  - pose proof (field_values_row_dict header record f v E) as Hv.
    unfold raw_nonempty, raw_empty. rewrite E.
    destruct v as [[|c s]| |l]; [| | |destruct Hv].
    + right. now right.
    + left. now exists c, s.
    + right. now left.
  - apply dict_get_None in E. contradiction.
Qed.

Lemma row_dict_missing (header record : list str) (f : str) :
  ~ In f header -> getitem (Csv.row_dict header record) f = Error (KeyError f).
Proof.
  intros Hn. unfold getitem.
  destruct (dict_get (Csv.row_dict header record) (Some f)) eqn:E;
    [|reflexivity].
  exfalso. apply Hn. apply (In_keys_row_dict header record).
  apply dict_get_In in E. change (Some f) with (fst (Some f, p)).
  now apply in_map.
Qed.

Lemma raw_nonempty_not_empty (row : pydict) (f : str) :
  raw_nonempty row f -> ~ raw_empty row f.
Proof.
  intros [c [s E]] [E'|E']; rewrite E in E'; discriminate.
Qed.

(** ** The three loops over a row *)

Lemma In_map_Some {A} (x : A) (l : list A) : In (Some x) (map Some l) <-> In x l.
Proof.
  rewrite in_map_iff. split.
  - intros [y [[= ->] Hy]]. exact Hy.
  - intros Hx. now exists x.
Qed.

Lemma getitem_Ok (row : pydict) (f : str) (v : pyval) :
  getitem row f = Ok v <-> dict_get row (Some f) = Some v.
Proof.
  unfold getitem. destruct (dict_get row (Some f)); split; congruence.
Qed.

Lemma mandatory_loop_Ok (fs : list str) (row ru ru' : pydict) :
  mandatory_loop fs row ru = Ok ru' ->
  (forall f, In f fs ->
     exists c s, dict_get row (Some f) = Some (VStr (c :: s))
                 /\ dict_get ru' (Some f) = Some (VStr (strip (c :: s))))
  /\ (forall k, ~ In k (map Some fs) -> dict_get ru' k = dict_get ru k).
Proof.
  revert ru. induction fs as [|f fs IH]; intros ru Hloop.
  - injection Hloop as <-. split; [intros f []|reflexivity].
  - cbn [mandatory_loop] in Hloop.
    destruct (getitem row f) as [v|e] eqn:Hget; [|discriminate].
    apply getitem_Ok in Hget. cbn [bind] in Hloop.
    destruct v as [[|c s]| |[|x l]]; try discriminate.
    cbn [truthy py_strip bind] in Hloop.
    apply IH in Hloop as [Hin Hout]. split.
    + intros f' Hf'. destruct (in_dec eq_dec f' fs) as [Hi|Hni].
      * now apply Hin.
      * destruct Hf' as [<-|Hf']; [|contradiction].
        exists c, s. split; [assumption|].
        rewrite Hout by (now rewrite In_map_Some).
        apply dict_get_set_same.
    + intros k Hk. cbn [map In] in Hk.
      rewrite Hout by tauto.
      apply dict_get_set_other. intros ->. tauto.
Qed.

(** With every field there, the first loop ends well, all raw values having
    a character, or it stops at a field whose raw value is empty. *)
Lemma mandatory_loop_cases (fs : list str) (row ru : pydict) :
  (forall f, In f fs -> raw_nonempty row f \/ raw_empty row f) ->
  (exists ru', mandatory_loop fs row ru = Ok ru'
               /\ forall f, In f fs -> raw_nonempty row f)
  \/ (exists f, In f fs /\ raw_empty row f
                /\ mandatory_loop fs row ru
                   = Error (AssertionError (empty_field_msg f))).
Proof.
  revert ru. induction fs as [|f fs IH]; intros ru Hraw.
  - left. exists ru. split; [reflexivity | intros f []].
  - cbn [mandatory_loop]. unfold getitem.
    destruct (Hraw f (or_introl eq_refl)) as [[c [s E]]|[E|E]]; rewrite E;
      cbn [bind truthy py_strip].
    + destruct (IH (dict_set ru (Some f) (VStr (strip (c :: s)))))
        as [[ru' [Hok Hall]]|[f' [Hf' [He Herr]]]].
      * intros f' Hf'. apply Hraw. now right.
      * left. exists ru'. split; [assumption|].
        intros f' [<-|Hf']; [now exists c, s | now apply Hall].
      * right. exists f'. split; [now right | now split].
    + right. exists f. split; [now left|]. split; [now left | reflexivity].
    + right. exists f. split; [now left|]. split; [now right | reflexivity].
Qed.

Lemma recommended_loop_Ok (fs : list str) (row ru ru' : pydict) :
  recommended_loop fs row ru = Ok ru' ->
  (forall f, In f fs ->
     exists v, dict_get row (Some f) = Some v
               /\ if truthy v
                  then exists s, v = VStr s
                                 /\ dict_get ru' (Some f) = Some (VStr (strip s))
                  else dict_get ru' (Some f) = dict_get ru (Some f))
  /\ (forall k, ~ In k (map Some fs) -> dict_get ru' k = dict_get ru k).
Proof.
  revert ru. induction fs as [|f fs IH]; intros ru Hloop.
  - injection Hloop as <-. split; [intros f []|reflexivity].
  - cbn [recommended_loop] in Hloop.
    destruct (getitem row f) as [v|e] eqn:Hget; [|discriminate].
    apply getitem_Ok in Hget. cbn [bind] in Hloop.
    destruct (truthy v) eqn:Ht.
    + destruct v as [s| |l]; try discriminate.
      cbn [py_strip bind] in Hloop.
      apply IH in Hloop as [Hin Hout]. split.
      * intros f' Hf'. destruct (in_dec eq_dec f' fs) as [Hi|Hni].
        -- destruct (Hin f' Hi) as [v' [Hv' Hcase]]. exists v'.
           split; [assumption|]. destruct (truthy v') eqn:Ht'; [assumption|].
           rewrite Hcase. apply dict_get_set_other.
           intros [= ->]. rewrite Hget in Hv'. congruence.
        -- destruct Hf' as [<-|Hf']; [|contradiction].
           exists (VStr s). split; [assumption|]. rewrite Ht.
           exists s. split; [reflexivity|].
           rewrite Hout by (now rewrite In_map_Some).
           apply dict_get_set_same.
      * intros k Hk. cbn [map In] in Hk. rewrite Hout by tauto.
        apply dict_get_set_other. intros ->. tauto.
    + apply IH in Hloop as [Hin Hout]. split.
      * intros f' Hf'. destruct (in_dec eq_dec f' fs) as [Hi|Hni].
        -- now apply Hin.
        -- destruct Hf' as [<-|Hf']; [|contradiction].
           exists v. split; [assumption|]. rewrite Ht.
           apply Hout. now rewrite In_map_Some.
      * intros k Hk. cbn [map In] in Hk. apply Hout. tauto.
Qed.

(** With every field there, the second loop never raises. *)
Lemma recommended_loop_total (fs : list str) (row ru : pydict) :
  (forall f, In f fs -> raw_nonempty row f \/ raw_empty row f) ->
  exists ru', recommended_loop fs row ru = Ok ru'.
Proof.
  revert ru. induction fs as [|f fs IH]; intros ru Hraw.
  - now exists ru.
  - cbn [recommended_loop]. unfold getitem.
    destruct (Hraw f (or_introl eq_refl)) as [[c [s E]]|[E|E]]; rewrite E;
      cbn [bind truthy py_strip]; apply IH; intros f' Hf'; apply Hraw;
      now right.
Qed.

(** With a field that the row does not have, the second loop raises the
    [KeyError] of the first such field. *)
Lemma recommended_loop_KeyError (fs : list str) (row ru : pydict) :
  (forall f, In f fs ->
     dict_get row (Some f) = None \/ raw_nonempty row f \/ raw_empty row f) ->
  (exists f, In f fs /\ dict_get row (Some f) = None) ->
  exists f, In f fs /\ dict_get row (Some f) = None
            /\ recommended_loop fs row ru = Error (KeyError f).
Proof.
  revert ru. induction fs as [|f fs IH]; intros ru Hraw [f0 [Hf0 Hnone]].
  - destruct Hf0.
  - cbn [recommended_loop]. unfold getitem.
    destruct (Hraw f (or_introl eq_refl)) as [E|[[c [s E]]|[E|E]]]; rewrite E;
      cbn [bind truthy py_strip].
    + exists f. split; [now left | now split].
    + destruct Hf0 as [<-|Hf0]; [congruence|].
      destruct (IH (dict_set ru (Some f) (VStr (strip (c :: s)))))
        as [f' [Hf' [Hn Herr]]].
      * intros f' Hf'. apply Hraw. now right.
      * now exists f0.
      * exists f'. split; [now right | now split].
    + destruct Hf0 as [<-|Hf0]; [congruence|].
      destruct (IH ru) as [f' [Hf' [Hn Herr]]].
      * intros f' Hf'. apply Hraw. now right.
      * now exists f0.
      * exists f'. split; [now right | now split].
    + destruct Hf0 as [<-|Hf0]; [congruence|].
      destruct (IH ru) as [f' [Hf' [Hn Herr]]].
      * intros f' Hf'. apply Hraw. now right.
      * now exists f0.
      * exists f'. split; [now right | now split].
Qed.

Lemma auxiliary_loop_schema_key (items ru : pydict) (k : pykey) :
  is_schema_key k = true -> dict_get (auxiliary_loop items ru) k = dict_get ru k.
Proof.
  intros Hk. revert ru. induction items as [|[k0 v0] items IH]; intros ru.
  - reflexivity.
  - cbn [auxiliary_loop]. destruct (is_schema_key k0) eqn:E0.
    + apply IH.
    + rewrite IH. apply dict_get_set_other. intros ->. congruence.
Qed.

Lemma mandatory_is_schema_key (f : str) :
  In f MANDATORY_FIELDS -> is_schema_key (Some f) = true.
Proof.
  intros Hf. cbn [is_schema_key]. apply orb_true_iff. left.
  now apply py_in_In.
Qed.

Lemma recommended_is_schema_key (f : str) :
  In f RECOMMENDED_FIELDS -> is_schema_key (Some f) = true.
Proof.
  intros Hf. cbn [is_schema_key]. apply orb_true_iff. right.
  now apply py_in_In.
Qed.

Lemma mandatory_not_recommended (f : str) :
  In f MANDATORY_FIELDS -> ~ In f RECOMMENDED_FIELDS.
Proof.
  intros Hm. apply py_in_not_In.
  destruct Hm as [<-|[<-|[]]]; reflexivity.
Qed.

(** A read unit comes out of the three loops, run one after the other. *)
Lemma readunit_of_row_Ok (row ru : pydict) :
  readunit_of_row row = Ok ru ->
  exists ru1 ru2,
    mandatory_loop MANDATORY_FIELDS row [] = Ok ru1
    /\ recommended_loop RECOMMENDED_FIELDS row ru1 = Ok ru2
    /\ ru = auxiliary_loop row ru2.
Proof.
  unfold readunit_of_row. intros Hrow.
  destruct (mandatory_loop MANDATORY_FIELDS row []) as [ru1|e] eqn:E1;
    [|discriminate].
  cbn [bind] in Hrow.
  destruct (recommended_loop RECOMMENDED_FIELDS row ru1) as [ru2|e] eqn:E2;
    [|discriminate].
  cbn [bind] in Hrow.
  destruct (key_for_readunit (auxiliary_loop row ru2)); [|discriminate].
  injection Hrow as <-. exists ru1, ru2. auto.
Qed.

(** ** Header checks *)

Lemma header_has_In (fs header : list str) :
  header_has fs header = true <-> forall f, In f fs -> In f header.
Proof.
  unfold header_has. rewrite forallb_forall.
  split; intros Hall f Hf; apply py_in_In; auto.
Qed.

Lemma check_header_Ok (fs header : list str) :
  check_header fs (Some header) = Ok tt <-> header_has fs header = true.
Proof.
  induction fs as [|f fs IH]; simpl.
  - tauto.
  - destruct (py_in f header); simpl; [exact IH|]. split; discriminate.
Qed.

Lemma header_has_false (fs header : list str) :
  header_has fs header = false -> exists f, In f fs /\ ~ In f header.
Proof.
  induction fs as [|f fs IH]; simpl; [discriminate|].
  destruct (py_in f header) eqn:E; simpl.
  - intros Hfs. destruct (IH Hfs) as [f' [Hf' Hn]]. exists f'. auto.
  - intros _. exists f. split; [now left | now apply py_in_not_In].
Qed.

Lemma row_dict_nonempty (header record : list str) (f : str) :
  In f header -> Csv.row_dict header record <> [].
Proof.
  intros Hin E. apply (In_keys_row_dict header record) in Hin.
  rewrite E in Hin. destruct Hin.
Qed.

Lemma parse_rows_cons (row : pydict) (rest : list (result pydict))
  (readunits : list pydict) :
  row <> [] ->
  parse_rows (Ok row :: rest) readunits
  = ru <- readunit_of_row row ;; parse_rows rest (readunits ++ [ru]).
Proof. destruct row; [congruence | reflexivity]. Qed.

(** ** Values that can be hashed *)

Lemma all_encodable_set (d : pydict) (k : pykey) (v : pyval) :
  all_encodable d -> encodable_value v -> all_encodable (dict_set d k v).
Proof.
  intros Hd Hv. induction Hd as [|[k' v'] d Hv' Hd IH]; simpl.
  - repeat constructor. exact Hv.
  - match goal with |- context [if ?c then _ else _] => destruct c end;
      constructor; assumption.
Qed.

Lemma all_encodable_get (d : pydict) (k : pykey) (v : pyval) :
  all_encodable d -> dict_get d k = Some v -> encodable_value v.
Proof.
  intros Hd Hg. apply dict_get_In in Hg.
  unfold all_encodable in Hd. rewrite Forall_forall in Hd.
  exact (Hd _ Hg).
Qed.

Lemma encodable_lstrip (s : str) :
  encodable s = true -> encodable (lstrip s) = true.
Proof.
  unfold encodable. induction s as [|c s IH]; simpl; [reflexivity|].
  intros H. destruct (isspace c); [|exact H].
  apply andb_true_iff in H. now apply IH.
Qed.

Lemma encodable_rev (s : str) : encodable s = true -> encodable (rev s) = true.
Proof.
  unfold encodable. rewrite !forallb_forall.
  intros H c Hc. apply H. now apply in_rev.
Qed.

Lemma encodable_strip (s : str) :
  encodable s = true -> encodable (strip s) = true.
Proof.
  intros H. unfold strip, rstrip.
  now apply encodable_rev, encodable_lstrip, encodable_rev, encodable_lstrip.
Qed.

Lemma all_encodable_dict_zip (fs vs : list str) (d : pydict) :
  all_encodable d -> forallb encodable vs = true ->
  all_encodable (Csv.dict_zip fs vs d).
Proof.
  revert vs d. induction fs as [|f fs IH]; intros [|v vs] d Hd Hvs; simpl; auto.
  simpl in Hvs. apply andb_true_iff in Hvs as [Hv Hvs].
  apply IH; [|assumption]. now apply all_encodable_set.
Qed.

Lemma all_encodable_row_dict (header record : list str) :
  length record = length header -> forallb encodable record = true ->
  all_encodable (Csv.row_dict header record).
Proof.
  intros Hlen Henc. unfold Csv.row_dict.
  rewrite Hlen, Nat.ltb_irrefl.
  apply all_encodable_dict_zip; [constructor | assumption].
Qed.

Lemma mandatory_loop_encodable (fs : list str) (row ru ru' : pydict) :
  all_encodable row -> all_encodable ru ->
  mandatory_loop fs row ru = Ok ru' -> all_encodable ru'.
Proof.
  intros Hrow. revert ru. induction fs as [|f fs IH]; intros ru Hru Hloop.
  - now injection Hloop as <-.
  - cbn [mandatory_loop] in Hloop.
    destruct (getitem row f) as [v|e] eqn:Hget; [|discriminate].
    apply getitem_Ok in Hget. cbn [bind] in Hloop.
    pose proof (all_encodable_get _ _ _ Hrow Hget) as Hv.
    destruct v as [s| |l]; [|destruct Hv|destruct Hv]. cbn in Hv.
    destruct (truthy (VStr s)); [|discriminate].
    cbn [py_strip bind] in Hloop.
    apply IH in Hloop; [assumption|].
    apply all_encodable_set; [assumption|]. now apply encodable_strip.
Qed.

Lemma recommended_loop_encodable (fs : list str) (row ru ru' : pydict) :
  all_encodable row -> all_encodable ru ->
  recommended_loop fs row ru = Ok ru' -> all_encodable ru'.
Proof.
  intros Hrow. revert ru. induction fs as [|f fs IH]; intros ru Hru Hloop.
  - now injection Hloop as <-.
  - cbn [recommended_loop] in Hloop.
    destruct (getitem row f) as [v|e] eqn:Hget; [|discriminate].
    apply getitem_Ok in Hget. cbn [bind] in Hloop.
    pose proof (all_encodable_get _ _ _ Hrow Hget) as Hv.
    destruct v as [s| |l]; [|destruct Hv|destruct Hv]. cbn in Hv.
    destruct (truthy (VStr s)).
    + cbn [py_strip bind] in Hloop.
      apply IH in Hloop; [assumption|].
      apply all_encodable_set; [assumption|]. now apply encodable_strip.
    + now apply IH in Hloop.
Qed.

Lemma auxiliary_loop_encodable (items ru : pydict) :
  all_encodable items -> all_encodable ru ->
  all_encodable (auxiliary_loop items ru).
Proof.
  intros Hitems. revert ru.
  induction Hitems as [|[k v] items Hv Hitems IH]; intros ru Hru.
  - exact Hru.
  - cbn [auxiliary_loop]. destruct (is_schema_key k).
    + now apply IH.
    + apply IH. now apply all_encodable_set.
Qed.

Lemma md5_feed_total (d : pydict) (m : Md5.md5) :
  all_encodable d -> exists m', md5_feed d m = Ok m'.
Proof.
  intros Hd. revert m. induction Hd as [|[k v] d Hv Hd IH]; intros m.
  - now exists m.
  - rewrite md5_feed_cons. cbn [snd] in Hv.
    destruct v as [s| |l]; [|destruct Hv|destruct Hv]. cbn in Hv.
    destruct (is_file_key k); cbn [py_basename bind py_encode]; unfold encode.
    + rewrite (encodable_basename _ Hv). cbn [bind]. apply IH.
    + rewrite Hv. cbn [bind]. apply IH.
Qed.

(** The key deriver raises on nothing that is all encodable [str]. *)
Lemma key_for_readunit_total (d : pydict) :
  all_encodable d -> exists k, key_for_readunit d = Ok k.
Proof.
  intros Hd. unfold key_for_readunit.
  destruct (md5_feed_total d Md5.new Hd) as [m' ->]. cbn [bind]. eauto.
Qed.

(** ** Mandatory fields *)

Lemma readunit_of_row_mandatory (row ru : pydict) (f : str) :
  readunit_of_row row = Ok ru -> In f MANDATORY_FIELDS ->
  exists c s, dict_get row (Some f) = Some (VStr (c :: s))
              /\ dict_get ru (Some f) = Some (VStr (strip (c :: s))).
Proof.
  intros Hrow Hf.
  destruct (readunit_of_row_Ok row ru Hrow) as [ru1 [ru2 [H1 [H2 ->]]]].
  destruct (mandatory_loop_Ok _ _ _ _ H1) as [Hin _].
  destruct (Hin f Hf) as [c [s [Hraw Hru1]]].
  exists c, s. split; [assumption|].
  rewrite auxiliary_loop_schema_key by (now apply mandatory_is_schema_key).
  destruct (recommended_loop_Ok _ _ _ _ H2) as [_ Hout].
  rewrite Hout; [assumption|].
  rewrite In_map_Some. now apply mandatory_not_recommended.
Qed.

(** A mandatory value that is not empty and is empty once trimmed passes
    the test, which is made before the trimming: whenever a read unit is made
    of the row, it holds the field with the empty string. *)
Lemma blank_mandatory_value_is_stored_empty (row ru : pydict) (f : str) :
  readunit_of_row row = Ok ru -> In f MANDATORY_FIELDS ->
  (exists c s, dict_get row (Some f) = Some (VStr (c :: s))
               /\ strip (c :: s) = []) ->
  dict_get ru (Some f) = Some (VStr []).
Proof.
  intros Hrow Hf [c [s [Hraw Hblank]]].
  destruct (readunit_of_row_mandatory row ru f Hrow Hf)
    as [c' [s' [Hraw' Hru]]].
  rewrite Hraw in Hraw'. injection Hraw' as <- <-.
  now rewrite Hblank in Hru.
Qed.

(** C4, where the code departs from it: a mandatory field whose value is
    whitespace only, and so empty once trimmed, must make the row fail. The
    code asserts on the value as read, with the message that the field is
    empty, and trims it only afterwards. On the sheet whose one row has two
    blanks for [fq1] the parser does not fail: it returns a read unit whose
    [fq1] is the empty string, where the same row with nothing at all for
    [fq1] fails with the assertion error that names [fq1]. A [sample_id] of
    blanks goes the same way, and [main] then files the read unit under a
    sample whose id is the empty string. *)
Theorem blank_mandatory_field_is_accepted :
  strip (U "  ") = []
  /\ parse_readunits_from_csv blank_fq1_sheet
     = Ok [[(Some (U "sample_id"), VStr (U "S1")); (Some (U "fq1"), VStr [])]]
  /\ parse_readunits_from_csv
       (full_header_line ++ nl ++ U "S1,,,,,," ++ nl)
     = Error (AssertionError (U "Mandatory field fq1 is empty"))
  /\ sample_sizes
       (main (U ",") (full_header_line ++ nl ++ U "  ,a.fq,,,,," ++ nl))
     = Ok [([], 1%nat)].
Proof. repeat split; vm_compute; reflexivity. Qed.

(** The test on the mandatory fields, as the code makes it: for a row under
    a header with the mandatory fields, if the raw value of a mandatory field is missing ([None], for a
    short row) or the empty string, the row fails with the assertion error
    that names such a field, and so does the parse, no read unit being made of
    the row; a read unit that is made has every mandatory field, with the raw
    value trimmed; and when every mandatory raw value has a character the
    first loop stores them trimmed. The test is on the raw value: a value of
    blanks only passes it. *)
Theorem mandatory_fields_enforced (header record : list str) :
  check_header MANDATORY_FIELDS (Some header) = Ok tt ->
  let row := Csv.row_dict header record in
  ((exists f, In f MANDATORY_FIELDS /\ raw_empty row f) ->
   exists f, In f MANDATORY_FIELDS /\ raw_empty row f
     /\ readunit_of_row row = Error (AssertionError (empty_field_msg f))
     /\ forall rest readunits,
          parse_rows (Ok row :: rest) readunits
          = Error (AssertionError (empty_field_msg f)))
  /\ (forall ru, readunit_of_row row = Ok ru ->
      forall f, In f MANDATORY_FIELDS ->
        exists c s, dict_get row (Some f) = Some (VStr (c :: s))
                    /\ dict_get ru (Some f) = Some (VStr (strip (c :: s))))
  /\ ((forall f, In f MANDATORY_FIELDS -> raw_nonempty row f) ->
      exists ru1, mandatory_loop MANDATORY_FIELDS row [] = Ok ru1
        /\ forall f, In f MANDATORY_FIELDS ->
             exists c s, dict_get row (Some f) = Some (VStr (c :: s))
                         /\ dict_get ru1 (Some f)
                            = Some (VStr (strip (c :: s)))).
Proof.
  intros Hhdr row. rewrite check_header_Ok, header_has_In in Hhdr.
  assert (Hraw : forall f, In f MANDATORY_FIELDS ->
                   raw_nonempty row f \/ raw_empty row f).
  { intros f Hf. apply row_dict_raw. now apply Hhdr. }
  assert (Hne : row <> []).
  { apply (row_dict_nonempty header record (U "sample_id")).
    apply Hhdr. now left. }
  split; [|split].
  - intros [f0 [Hf0 He0]].
    destruct (mandatory_loop_cases MANDATORY_FIELDS row [] Hraw)
      as [[ru' [_ Hall]]|[f [Hf [He Herr]]]].
    + exfalso. exact (raw_nonempty_not_empty row f0 (Hall f0 Hf0) He0).
    + exists f. split; [assumption|]. split; [assumption|].
      assert (Hrow : readunit_of_row row
                     = Error (AssertionError (empty_field_msg f))).
      { unfold readunit_of_row. now rewrite Herr. }
      split; [assumption|]. intros rest readunits.
      rewrite parse_rows_cons by assumption. now rewrite Hrow.
  - intros ru Hru f Hf. now apply readunit_of_row_mandatory.
  - intros Hall.
    destruct (mandatory_loop_cases MANDATORY_FIELDS row [] Hraw)
      as [[ru1 [Hok _]]|[f [Hf [He _]]]].
    + exists ru1. split; [assumption|].
      intros f Hf. now apply (mandatory_loop_Ok _ _ _ _ Hok).
    + exfalso. exact (raw_nonempty_not_empty row f (Hall f Hf) He).
Qed.

Lemma mandatory_fields_enforced_witness :
  exists f, In f MANDATORY_FIELDS
    /\ raw_empty (Csv.row_dict full_header [U "S1"]) f
    /\ readunit_of_row (Csv.row_dict full_header [U "S1"])
       = Error (AssertionError (empty_field_msg f))
    /\ forall rest readunits,
         parse_rows (Ok (Csv.row_dict full_header [U "S1"]) :: rest) readunits
         = Error (AssertionError (empty_field_msg f)).
Proof.
  apply (mandatory_fields_enforced full_header [U "S1"]).
  - reflexivity.
  - exists (U "fq1"). split.
    + simpl. right. left. reflexivity.
    + left. reflexivity.
Defined.

(** ** Recommended fields *)

Lemma readunit_of_row_recommended (row ru : pydict) (f : str) :
  readunit_of_row row = Ok ru -> In f RECOMMENDED_FIELDS ->
  exists v, dict_get row (Some f) = Some v
    /\ if truthy v
       then exists s, v = VStr s /\ dict_get ru (Some f) = Some (VStr (strip s))
       else dict_get ru (Some f) = None.
Proof.
  intros Hrow Hf.
  destruct (readunit_of_row_Ok row ru Hrow) as [ru1 [ru2 [H1 [H2 ->]]]].
  destruct (recommended_loop_Ok _ _ _ _ H2) as [Hin _].
  destruct (Hin f Hf) as [v [Hv Hcase]]. exists v. split; [assumption|].
  rewrite auxiliary_loop_schema_key by (now apply recommended_is_schema_key).
  destruct (truthy v); [assumption|]. rewrite Hcase.
  destruct (mandatory_loop_Ok _ _ _ _ H1) as [_ Hout].
  rewrite Hout; [reflexivity|].
  rewrite In_map_Some. intros Hm.
  exact (mandatory_not_recommended f Hm Hf).
Qed.

(** A recommended value that is not empty and is empty once trimmed passes
    the test, which is made before the trimming: whenever a read unit is made
    of the row, it holds the field, with the empty string. *)
Lemma blank_recommended_value_is_stored_empty (row ru : pydict) (f : str) :
  readunit_of_row row = Ok ru -> In f RECOMMENDED_FIELDS ->
  (exists c s, dict_get row (Some f) = Some (VStr (c :: s))
               /\ strip (c :: s) = []) ->
  dict_get ru (Some f) = Some (VStr []).
Proof.
  intros Hrow Hf [c [s [Hraw Hblank]]].
  destruct (readunit_of_row_recommended row ru f Hrow Hf) as [v [Hv Hcase]].
  rewrite Hraw in Hv. injection Hv as <-. cbn [truthy] in Hcase.
  destruct Hcase as [s' [[= <-] Hget]]. now rewrite Hblank in Hget.
Qed.

(** C5, where the code departs from it: a recommended field is to be in the
    read unit only when its value is not empty once trimmed. The code tests
    the value as read and trims it only afterwards. On the sheet whose one
    row has one blank for [fq2] the field is not left out: the read unit has
    [fq2], with the empty string, where the same row with nothing at all for
    [fq2] gives the read unit without [fq2]. *)
Theorem blank_recommended_field_is_kept :
  strip (U " ") = []
  /\ parse_readunits_from_csv blank_fq2_sheet
     = Ok [[(Some (U "sample_id"), VStr (U "S1"));
            (Some (U "fq1"), VStr (U "a.fq")); (Some (U "fq2"), VStr [])]]
  /\ parse_readunits_from_csv
       (full_header_line ++ nl ++ U "S1,a.fq,,,,," ++ nl)
     = Ok [[(Some (U "sample_id"), VStr (U "S1"));
            (Some (U "fq1"), VStr (U "a.fq"))]].
Proof. repeat split; vm_compute; reflexivity. Qed.

(** The test on the recommended fields, as the code makes it: for a row
    under a header with the recommended fields, the loop over them never
    raises; a read unit made of the row has
    a recommended field exactly when its raw value is a non-empty string, and
    then with that value trimmed, and has no such field when the raw value is
    the empty string or missing; and a row with as many values as the header
    has columns, all of them text that encodes, and with non-empty mandatory
    values, does make a read unit, empty recommended values or not. The test
    is on the raw value: a value of blanks only is kept, as the empty
    string. *)
Theorem recommended_fields_optional (header record : list str) :
  header_has RECOMMENDED_FIELDS header = true ->
  let row := Csv.row_dict header record in
  (forall ru0, exists ru1,
      recommended_loop RECOMMENDED_FIELDS row ru0 = Ok ru1)
  /\ (forall ru, readunit_of_row row = Ok ru ->
      forall f, In f RECOMMENDED_FIELDS ->
        (raw_empty row f /\ dict_get ru (Some f) = None)
        \/ (exists c s, dict_get row (Some f) = Some (VStr (c :: s))
                        /\ dict_get ru (Some f)
                           = Some (VStr (strip (c :: s)))))
  /\ (check_header MANDATORY_FIELDS (Some header) = Ok tt ->
      (forall f, In f MANDATORY_FIELDS -> raw_nonempty row f) ->
      length record = length header ->
      forallb encodable record = true ->
      exists ru, readunit_of_row row = Ok ru).
Proof.
  intros Hrec row. rewrite header_has_In in Hrec.
  assert (Hraw : forall f, In f RECOMMENDED_FIELDS ->
                   raw_nonempty row f \/ raw_empty row f).
  { intros f Hf. apply row_dict_raw. now apply Hrec. }
  split; [|split].
  - intros ru0. now apply recommended_loop_total.
  - intros ru Hru f Hf.
    destruct (readunit_of_row_recommended row ru f Hru Hf) as [v [Hv Hcase]].
    destruct (Hraw f Hf) as [[c [s E]]|He].
    + right. exists c, s. split; [assumption|].
      rewrite E in Hv. injection Hv as <-. cbn [truthy] in Hcase.
      destruct Hcase as [s' [[= <-] Hget]]. exact Hget.
    + left. split; [assumption|].
      destruct He as [E|E]; rewrite E in Hv; injection Hv as <-;
        exact Hcase.
  - intros Hhdr Hall Hlen Henc.
    rewrite check_header_Ok, header_has_In in Hhdr.
    assert (Hrowenc : all_encodable row)
      by (now apply all_encodable_row_dict).
    destruct (mandatory_loop_cases MANDATORY_FIELDS row [])
      as [[ru1 [H1 _]]|[f [Hf [He _]]]].
    { intros f Hf. left. now apply Hall. }
    2: { exfalso. exact (raw_nonempty_not_empty row f (Hall f Hf) He). }
    destruct (recommended_loop_total RECOMMENDED_FIELDS row ru1 Hraw)
      as [ru2 H2].
    assert (Henc1 : all_encodable ru1).
    { apply (mandatory_loop_encodable MANDATORY_FIELDS row [] ru1); auto.
      constructor. }
    assert (Henc2 : all_encodable ru2).
    { now apply (recommended_loop_encodable RECOMMENDED_FIELDS row ru1 ru2). }
    destruct (key_for_readunit_total (auxiliary_loop row ru2)) as [k Hk].
    { now apply auxiliary_loop_encodable. }
    exists (auxiliary_loop row ru2). unfold readunit_of_row.
    rewrite H1. cbn [bind]. rewrite H2. cbn [bind]. now rewrite Hk.
Qed.

Lemma recommended_fields_optional_witness :
  exists ru, readunit_of_row (Csv.row_dict full_header empty_fq2_record) = Ok ru.
Proof.
  apply (recommended_fields_optional full_header empty_fq2_record).
  - reflexivity.
  - reflexivity.
  - intros f [<-|[<-|[]]]; unfold raw_nonempty; vm_compute; eauto.
  - reflexivity.
  - reflexivity.
Defined.

Example empty_fq2_readunit :
  readunit_of_row (Csv.row_dict full_header empty_fq2_record)
  = Ok [(Some (U "sample_id"), VStr (U "S1"));
        (Some (U "fq1"), VStr (U "a_R1.fq.gz"));
        (Some (U "run_id"), VStr (U "run7"))].
Proof. vm_compute. reflexivity. Qed.

(** ** A header without a recommended field *)

(** Under a header without [fq2], a row whose [sample_id] is empty does not
    fail with a lookup failure: the assertion on the mandatory field comes
    first. *)
Lemma empty_mandatory_comes_before_lookup :
  parse_readunits_from_csv short_header_sheet
  = Error (AssertionError (U "Mandatory field sample_id is empty")).
Proof. vm_compute. reflexivity. Qed.

(** C9, as the code has it: under a header that has the mandatory fields and
    lacks a recommended one, every row fails, and the parse with it. When the
    mandatory raw values of the row are non-empty the failure is the lookup
    failure ([KeyError]) for a recommended field that the header lacks; when
    one of them is empty or missing it is the assertion error for that
    mandatory field, which is checked first. The field that the header lacks
    is never passed over in silence. *)
Theorem missing_recommended_column_is_fatal (header record : list str) :
  check_header MANDATORY_FIELDS (Some header) = Ok tt ->
  header_has RECOMMENDED_FIELDS header = false ->
  let row := Csv.row_dict header record in
  exists e,
    readunit_of_row row = Error e
    /\ (forall rest readunits,
          parse_rows (Ok row :: rest) readunits = Error e)
    /\ (((forall f, In f MANDATORY_FIELDS -> raw_nonempty row f)
         /\ exists f, In f RECOMMENDED_FIELDS /\ ~ In f header
                      /\ e = KeyError f)
        \/ (exists f, In f MANDATORY_FIELDS /\ raw_empty row f
                      /\ e = AssertionError (empty_field_msg f))).
Proof.
  intros Hhdr Hrec row. rewrite check_header_Ok, header_has_In in Hhdr.
  apply header_has_false in Hrec as [f0 [Hf0 Hn0]].
  assert (Hraw : forall f, In f MANDATORY_FIELDS ->
                   raw_nonempty row f \/ raw_empty row f).
  { intros f Hf. apply row_dict_raw. now apply Hhdr. }
  assert (Hne : row <> []).
  { apply (row_dict_nonempty header record (U "sample_id")).
    apply Hhdr. now left. }
  assert (Hparse : forall e, readunit_of_row row = Error e ->
            forall rest readunits,
              parse_rows (Ok row :: rest) readunits = Error e).
  { intros e He rest readunits.
    rewrite parse_rows_cons by assumption. now rewrite He. }
  destruct (mandatory_loop_cases MANDATORY_FIELDS row [] Hraw)
    as [[ru1 [H1 Hall]]|[f [Hf [He Herr]]]].
  - destruct (recommended_loop_KeyError RECOMMENDED_FIELDS row ru1)
      as [f [Hf [Hnone Herr]]].
    + intros f Hf. destruct (in_dec eq_dec f header) as [Hin|Hnin].
      * right. now apply row_dict_raw.
      * left. apply dict_get_None. unfold row.
        now rewrite In_keys_row_dict.
    + exists f0. split; [assumption|]. apply dict_get_None. unfold row.
      now rewrite In_keys_row_dict.
    + assert (Hrow : readunit_of_row row = Error (KeyError f)).
      { unfold readunit_of_row. rewrite H1. cbn [bind]. now rewrite Herr. }
      exists (KeyError f). split; [assumption|]. split; [now apply Hparse|].
      left. split; [assumption|]. exists f. split; [assumption|].
      split; [|reflexivity].
      apply dict_get_None in Hnone. unfold row in Hnone.
      now rewrite In_keys_row_dict in Hnone.
  - assert (Hrow : readunit_of_row row
                   = Error (AssertionError (empty_field_msg f))).
    { unfold readunit_of_row. now rewrite Herr. }
    exists (AssertionError (empty_field_msg f)).
    split; [assumption|]. split; [now apply Hparse|].
    right. exists f. auto.
Qed.

Lemma missing_recommended_column_is_fatal_witness :
  exists e,
    readunit_of_row (Csv.row_dict MANDATORY_FIELDS [U "S1"; U "a.fq"]) = Error e
    /\ (forall rest readunits,
          parse_rows
            (Ok (Csv.row_dict MANDATORY_FIELDS [U "S1"; U "a.fq"]) :: rest)
            readunits
          = Error e)
    /\ (((forall f, In f MANDATORY_FIELDS ->
            raw_nonempty (Csv.row_dict MANDATORY_FIELDS [U "S1"; U "a.fq"]) f)
         /\ exists f, In f RECOMMENDED_FIELDS /\ ~ In f MANDATORY_FIELDS
                      /\ e = KeyError f)
        \/ (exists f, In f MANDATORY_FIELDS
              /\ raw_empty (Csv.row_dict MANDATORY_FIELDS [U "S1"; U "a.fq"]) f
              /\ e = AssertionError (empty_field_msg f))).
Proof.
  apply (missing_recommended_column_is_fatal
           MANDATORY_FIELDS [U "S1"; U "a.fq"]); reflexivity.
Defined.

Example missing_fq2_column :
  parse_readunits_from_csv (U "sample_id,fq1" ++ nl ++ U "S1,a.fq" ++ nl)
  = Error (KeyError (U "fq2")).
Proof. vm_compute. reflexivity. Qed.

(** ** The order on [str] *)

Lemma str_ltb_irrefl (a : str) : str_ltb a a = false.
Proof.
  induction a as [|x a IH]; simpl; [reflexivity|].
  now rewrite N.ltb_irrefl.
Qed.

Lemma str_ltb_trans (a b c : str) :
  str_ltb a b = true -> str_ltb b c = true -> str_ltb a c = true.
Proof.
  revert b c. induction a as [|x a IH]; intros [|y b] [|z c]; simpl;
    try congruence.
  destruct (x <? y) eqn:Exy; [|destruct (y <? x) eqn:Eyx; [discriminate|]].
  - intros _. destruct (y <? z) eqn:Eyz;
      [|destruct (z <? y) eqn:Ezy; [discriminate|]].
    + intros _. apply N.ltb_lt in Exy, Eyz.
      assert (E : (x <? z) = true) by (apply N.ltb_lt; lia). now rewrite E.
    + intros _. apply N.ltb_lt in Exy. apply N.ltb_ge in Eyz, Ezy.
      assert (E : (x <? z) = true) by (apply N.ltb_lt; lia). now rewrite E.
  - apply N.ltb_ge in Exy, Eyx. assert (x = y) by lia. subst y.
    destruct (x <? z); [reflexivity|]. destruct (z <? x); [discriminate|].
    apply IH.
Qed.

Lemma str_ltb_total (a b : str) :
  str_ltb a b = false -> str_ltb b a = false -> a = b.
Proof.
  revert b. induction a as [|x a IH]; intros [|y b]; simpl; try congruence.
  destruct (x <? y) eqn:Exy; [discriminate|].
  destruct (y <? x) eqn:Eyx; [discriminate|].
  apply N.ltb_ge in Exy, Eyx. assert (x = y) by lia. subst y.
  intros H1 H2. f_equal. now apply IH.
Qed.

Lemma str_ltb_neq (a b : str) : str_ltb a b = true -> a <> b.
Proof. intros H ->. rewrite str_ltb_irrefl in H. discriminate. Qed.

(** ** [sorted] is a stable sort *)

Lemma insert_by_key_perm (x : str * pydict) (l : list (str * pydict)) :
  Permutation (insert_by_key x l) (x :: l).
Proof.
  induction l as [|y l IH]; simpl; [reflexivity|].
  destruct (str_ltb (fst y) (fst x)); [|reflexivity].
  rewrite IH. apply perm_swap.
Qed.

Lemma sorted_perm (l : list (str * pydict)) : Permutation (sorted l) l.
Proof.
  induction l as [|x l IH]; simpl; [reflexivity|].
  rewrite insert_by_key_perm. now constructor.
Qed.

Lemma insert_by_key_sorted (x : str * pydict) (l : list (str * pydict)) :
  StronglySorted key_le l -> StronglySorted key_le (insert_by_key x l).
Proof.
  induction 1 as [|y l Hl IH Hy]; simpl.
  - repeat constructor.
  - destruct (str_ltb (fst y) (fst x)) eqn:E.
    + constructor; [assumption|].
      rewrite Forall_forall in *. intros z Hz.
      apply (Permutation_in _ (insert_by_key_perm x l)) in Hz.
      destruct Hz as [<-|Hz]; [|now apply Hy].
      unfold key_le.
      destruct (str_ltb (fst x) (fst y)) eqn:E'; [|reflexivity].
      pose proof (str_ltb_trans _ _ _ E E') as Hc.
      rewrite str_ltb_irrefl in Hc. discriminate.
    + constructor; [now constructor|]. constructor; [exact E|].
      rewrite Forall_forall in *. intros z Hz. unfold key_le.
      destruct (str_ltb (fst z) (fst x)) eqn:E'; [|reflexivity].
      (* z < x <= y <= z *)
      specialize (Hy z Hz). unfold key_le in Hy.
      destruct (str_ltb (fst x) (fst y)) eqn:Exy.
      * pose proof (str_ltb_trans _ _ _ E' Exy) as Hc. congruence.
      * rewrite (str_ltb_total _ _ Exy E) in E'. congruence.
Qed.

Lemma sorted_sorted (l : list (str * pydict)) : StronglySorted key_le (sorted l).
Proof.
  induction l as [|x l IH]; simpl; [constructor|].
  now apply insert_by_key_sorted.
Qed.

Lemma with_key_insert (k : str) (x : str * pydict) (l : list (str * pydict)) :
  with_key k (insert_by_key x l) = with_key k (x :: l).
Proof.
  unfold with_key. induction l as [|y l IH]; [reflexivity|].
  cbn [insert_by_key]. destruct (str_ltb (fst y) (fst x)) eqn:E;
    [|reflexivity].
  cbn [filter] in *. rewrite IH.
  destruct (eqb (fst x) k) eqn:Ex; [|reflexivity].
  destruct (eqb (fst y) k) eqn:Ey; [|reflexivity].
  apply eqb_eq in Ex, Ey. apply str_ltb_neq in E. congruence.
Qed.

(** Stability: the elements of one key keep the order they had. *)
Lemma sorted_stable (k : str) (l : list (str * pydict)) :
  with_key k (sorted l) = with_key k l.
Proof.
  induction l as [|x l IH]; [reflexivity|].
  cbn [sorted fold_right]. fold (sorted l). rewrite with_key_insert.
  unfold with_key in *. cbn [filter]. now rewrite IH.
Qed.

(** ** [groupby] on a sorted list: one run for each key *)

Lemma with_key_none (k : str) (l : list (str * pydict)) :
  ~ In k (map fst l) -> with_key k l = [].
Proof.
  unfold with_key. induction l as [|x l IH]; simpl; [reflexivity|].
  intros Hn. destruct (eqb (fst x) k) eqn:E.
  - apply eqb_eq in E. tauto.
  - apply IH. tauto.
Qed.

Lemma groupby_cons (k : str) (x : pydict) (l : list (str * pydict)) :
  groupby ((k, x) :: l)
  = match groupby l with
    | (k', g) :: gs =>
        if eqb k k' then (k, x :: g) :: gs else (k, [x]) :: (k', g) :: gs
    | [] => [(k, [x])]
    end.
Proof. reflexivity. Qed.

(** The groups of a sorted list: their keys strictly increase, each group is
    the run of its key, every key has its group, and the first group has the
    key of the first element. *)
Lemma groupby_sorted (l : list (str * pydict)) :
  StronglySorted key_le l ->
  StronglySorted group_lt (groupby l)
  /\ (forall k g, In (k, g) (groupby l) -> g = run_of k l)
  /\ (forall k, In k (map fst l) <-> In k (map fst (groupby l)))
  /\ (forall x l', l = x :: l' ->
        exists g gs, groupby l = (fst x, g) :: gs).
Proof.
  induction 1 as [|[k x] l Hl IH Hk].
  - simpl. repeat split; try tauto; try constructor; discriminate.
  - destruct IH as [IHs [IHrun [IHkeys IHhd]]].
    rewrite groupby_cons.
    destruct (groupby l) as [|[k' g] gs] eqn:Eg.
    + (* no group: the rest is empty *)
      assert (l = []) as ->.
      { destruct l as [|y l']; [reflexivity|].
        destruct (IHhd y l' eq_refl) as [g [gs E]]. discriminate. }
      repeat split.
      * repeat constructor.
      * intros k0 g0 [[= <- <-]|[]]. unfold run_of, with_key. simpl.
        now rewrite eqb_refl.
      * simpl. tauto.
      * simpl. tauto.
      * intros y l' [= <- <-]. simpl. eauto.
    + (* the rest starts with the group of [k'] *)
      assert (Hk' : In k' (map fst l)) by (apply IHkeys; now left).
      assert (Hle : str_ltb k' k = false).
      { apply in_map_iff in Hk' as [y [<- Hy]].
        rewrite Forall_forall in Hk. exact (Hk y Hy). }
      inversion IHs as [|? ? Hgs Hlt]; subst.
      destruct (eqb k k') eqn:E.
      * apply eqb_eq in E. subst k'. repeat split.
        -- constructor; assumption.
        -- intros k0 g0 [[= <- <-]|Hin].
           ++ unfold run_of, with_key. cbn [filter fst]. rewrite eqb_refl.
              cbn [map snd]. f_equal. apply IHrun. now left.
           ++ assert (k <> k0).
              { rewrite Forall_forall in Hlt.
                apply (str_ltb_neq k k0). exact (Hlt _ Hin). }
              unfold run_of, with_key. cbn [filter fst].
              assert (E : eqb k k0 = false) by (now apply eqb_neq).
              rewrite E. apply IHrun. now right.
        -- cbn [map fst In]. rewrite IHkeys. cbn [map fst In]. tauto.
        -- cbn [map fst In]. rewrite IHkeys. cbn [map fst In]. tauto.
        -- intros y l' [= <- <-]. simpl. eauto.
      * apply eqb_neq in E.
        assert (Hlt' : str_ltb k k' = true).
        { destruct (str_ltb k k') eqn:E'; [reflexivity|].
          exfalso. apply E. now apply str_ltb_total. }
        assert (Hall : Forall (group_lt (k, [x])) ((k', g) :: gs)).
        { constructor; [exact Hlt'|].
          rewrite Forall_forall in *. intros h Hh.
          exact (str_ltb_trans _ _ _ Hlt' (Hlt h Hh)). }
        assert (Hnot : ~ In k (map fst l)).
        { rewrite IHkeys. intros Hin. apply in_map_iff in Hin as [h [Eh Hh]].
          rewrite Forall_forall in Hall. specialize (Hall h Hh).
          unfold group_lt in Hall. cbn [fst] in Hall. rewrite Eh in Hall.
          rewrite str_ltb_irrefl in Hall. discriminate. }
        repeat split.
        -- constructor; assumption.
        -- intros k0 g0 [[= <- <-]|Hin].
           ++ unfold run_of, with_key. cbn [filter fst]. rewrite eqb_refl.
              fold (with_key k l). now rewrite with_key_none.
           ++ assert (k <> k0).
              { rewrite Forall_forall in Hall.
                apply (str_ltb_neq k k0). exact (Hall _ Hin). }
              unfold run_of, with_key. cbn [filter fst].
              assert (E0 : eqb k k0 = false) by (now apply eqb_neq).
              rewrite E0. now apply IHrun.
        -- cbn [map fst In]. rewrite IHkeys. cbn [map fst In]. tauto.
        -- cbn [map fst In]. rewrite IHkeys. cbn [map fst In]. tauto.
        -- intros y l' [= <- <-]. simpl. eauto.
Qed.

Lemma group_lt_NoDup (groups : list (str * list pydict)) :
  StronglySorted group_lt groups -> NoDup (map fst groups).
Proof.
  induction 1 as [|g groups Hs IH Hg]; simpl; constructor; [|assumption].
  intros Hin. apply in_map_iff in Hin as [h [Eh Hh]].
  rewrite Forall_forall in Hg. specialize (Hg h Hh).
  unfold group_lt in Hg. rewrite Eh, str_ltb_irrefl in Hg. discriminate.
Qed.

(** ** The samples that [main] builds *)

Lemma dict_set_same_value {K V} `{EqDec K} (d : dict K V) k v :
  dict_get d k = Some v -> dict_set d k v = d.
Proof.
  induction d as [|[k' v'] d IH]; simpl; [discriminate|].
  destruct (eqb k k') eqn:E.
  - apply eqb_eq in E. subst. now intros [= ->].
  - intros Hg. now rewrite IH.
Qed.

Lemma dict_set_twice {K V} `{EqDec K} (d : dict K V) k v w :
  dict_set (dict_set d k v) k w = dict_set d k w.
Proof.
  induction d as [|[k' v'] d IH]; simpl.
  - now rewrite eqb_refl.
  - destruct (eqb k k') eqn:E; simpl.
    + now rewrite eqb_refl.
    + now rewrite E, IH.
Qed.


Lemma insert_all_total (g : list pydict) (d : dict str pydict) :
  keys_derivable g -> exists d', insert_all g d = Ok d'.
Proof.
  intros Hg. revert d. induction Hg as [|ru g [k Hk] Hg IH]; intros d; simpl.
  - now exists d.
  - rewrite Hk. simpl. apply IH.
Qed.



(** What a mapping holds was entered from the run, under its own key. *)
Lemma insert_all_In (g : list pydict) (d d' : dict str pydict)
  (k : str) (ru : pydict) :
  insert_all g d = Ok d' -> dict_get d' k = Some ru ->
  (In ru g /\ key_for_readunit ru = Ok k) \/ dict_get d k = Some ru.
Proof.
  revert d. induction g as [|x g IH]; intros d Hins Hget; simpl in Hins.
  - injection Hins as <-. now right.
  - destruct (key_for_readunit x) as [k0|e] eqn:Ek; [|discriminate].
    simpl in Hins. destruct (IH _ Hins Hget) as [[Hin Hk]|Hd].
    + left. split; [now right | assumption].
    + rewrite dict_get_set in Hd. destruct (eqb k k0) eqn:E.
      * apply eqb_eq in E. subst k0. injection Hd as <-.
        left. split; [now left | assumption].
      * now right.
Qed.

Lemma insert_all_NoDup (g : list pydict) (d d' : dict str pydict) :
  insert_all g d = Ok d' -> NoDup (keys d) -> NoDup (keys d').
Proof.
  revert d. induction g as [|x g IH]; intros d Hins Hnd; simpl in Hins.
  - now injection Hins as <-.
  - destruct (key_for_readunit x) as [k0|e]; [|discriminate].
    simpl in Hins. apply (IH _ Hins). now apply NoDup_keys_dict_set.
Qed.

Lemma add_readunits_spec (g : list pydict) (sample_id : str)
  (samples : Samples) (s : Sample) :
  dict_get samples sample_id = Some s ->
  add_readunits g sample_id samples
  = d <- insert_all g (readunits s) ;;
    Ok (dict_set samples sample_id (mkSample d)).
Proof.
  revert samples s. induction g as [|ru g IH]; intros samples s Hget.
  - simpl. destruct s as [d]. simpl. now rewrite dict_set_same_value.
  - cbn [add_readunits insert_all]. rewrite Hget.
    destruct (key_for_readunit ru) as [key|e]; [|reflexivity].
    cbn [bind].
    rewrite (IH _ (mkSample (dict_set (readunits s) key ru)))
      by apply dict_get_set_same.
    cbn [readunits].
    destruct (insert_all g (dict_set (readunits s) key ru)); [|reflexivity].
    cbn [bind]. now rewrite dict_set_twice.
Qed.

(** On groups with distinct keys, none of them in [samples] yet, the loop
    of [main] appends one sample for each group, in order. *)
Lemma add_groups_spec (groups : list (str * list pydict)) (samples : Samples) :
  NoDup (map fst groups) ->
  (forall k, In k (map fst groups) -> ~ In k (keys samples)) ->
  Forall (fun grp => keys_derivable (snd grp)) groups ->
  exists built,
    add_groups groups samples = Ok (samples ++ built)
    /\ Forall2 sample_of groups built.
Proof.
  revert samples.
  induction groups as [|[sid g] groups IH]; intros samples Hnd Hfresh Hkeys.
  - exists []. simpl. rewrite app_nil_r. split; [reflexivity | constructor].
  - cbn [add_groups]. inversion Hnd as [|? ? Hsid Hnd']; subst.
    inversion Hkeys as [|? ? Hg Hkeys']; subst. cbn [snd] in Hg.
    assert (Hnew : ~ In sid (keys samples)) by (apply Hfresh; now left).
    rewrite (add_readunits_spec g sid _ (mkSample []))
      by apply dict_get_set_same.
    cbn [readunits]. destruct (insert_all_total g [] Hg) as [d Hd].
    rewrite Hd. cbn [bind]. rewrite dict_set_twice, dict_set_fresh by assumption.
    destruct (IH (samples ++ [(sid, mkSample d)]) Hnd') as [built [Hadd Hall]].
    + intros k Hk. unfold keys. rewrite map_app, in_app_iff.
      intros [Hin|[<-|[]]].
      * apply (Hfresh k); [now right | assumption].
      * contradiction.
    + assumption.
    + exists ((sid, mkSample d) :: built). split.
      * rewrite Hadd. now rewrite <- app_assoc.
      * constructor; [|assumption]. split; [reflexivity | exact Hd].
Qed.

(** ** The grouping of [main], run by run *)

Lemma all_keyed_derivable (l : list pydict) :
  all_keyed l = true -> keys_derivable l.
Proof.
  unfold all_keyed, keys_derivable. rewrite forallb_forall, Forall_forall.
  intros H ru Hru. specialize (H ru Hru).
  destruct (key_for_readunit ru) as [k|e]; [now exists k | discriminate].
Qed.

Lemma with_keys_Ok (l : list pydict) (keyed : list (str * pydict)) :
  with_keys l = Ok keyed ->
  map snd keyed = l
  /\ Forall (fun kx => sample_id_of (snd kx) = Ok (fst kx)) keyed.
Proof.
  revert keyed. induction l as [|x l IH]; intros keyed Hk; simpl in Hk.
  - injection Hk as <-. split; [reflexivity | constructor].
  - destruct (sample_id_of x) as [k|e] eqn:Ex; [|discriminate].
    simpl in Hk. destruct (with_keys l) as [rest|e]; [|discriminate].
    simpl in Hk. injection Hk as <-. destruct (IH rest eq_refl) as [Hm Hall].
    split; [simpl; now rewrite Hm | now constructor].
Qed.

Lemma with_key_incl (k : str) (l : list (str * pydict)) (x : str * pydict) :
  In x (with_key k l) -> In x l /\ fst x = k.
Proof.
  unfold with_key. rewrite filter_In. intros [Hin E].
  apply eqb_eq in E. now split.
Qed.

Lemma run_of_incl (k : str) (l : list (str * pydict)) (ru : pydict) :
  In ru (run_of k l) -> In (k, ru) l.
Proof.
  unfold run_of. rewrite in_map_iff. intros [[k' x] [<- Hin]].
  apply with_key_incl in Hin as [Hin Hk]. simpl in Hk. now subst.
Qed.

Lemma Forall2_sample_of_keys (groups : list (str * list pydict))
  (samples : Samples) :
  Forall2 sample_of groups samples -> keys samples = map fst groups.
Proof.
  induction 1 as [|grp smp groups samples [Hk _] _ IH]; simpl;
    [reflexivity | now rewrite Hk, IH].
Qed.

Lemma Forall2_sample_of_get (groups : list (str * list pydict))
  (samples : Samples) (sid : str) (s : Sample) :
  Forall2 sample_of groups samples ->
  dict_get samples sid = Some s ->
  exists g, In (sid, g) groups /\ insert_all g [] = Ok (readunits s).
Proof.
  induction 1 as [|[k g] [k' s'] groups samples [Hk Hins] _ IH]; simpl;
    [discriminate|].
  simpl in Hk, Hins. subst k'. destruct (eqb sid k) eqn:E.
  - apply eqb_eq in E. subst k. intros [= <-]. exists g. split; [now left | assumption].
  - intros Hget. destruct (IH Hget) as [g' [Hin Hins']].
    exists g'. split; [now right | assumption].
Qed.

(** What the grouping returns: one sample for each run of the sorted read
    units, in the order of the runs; the keys of the samples are the sample
    ids, in increasing order; the mapping of a sample is made of its rows,
    entered in row order. *)
Lemma group_readunits_runs (l : list pydict) (keyed : list (str * pydict)) :
  with_keys l = Ok keyed -> keys_derivable l ->
  exists samples,
    group_readunits l = Ok samples
    /\ keys samples = map fst (groupby (sorted keyed))
    /\ NoDup (keys samples)
    /\ (forall sid, In sid (keys samples) <-> In sid (map fst keyed))
    /\ (forall sid s, dict_get samples sid = Some s ->
          In (sid, run_of sid keyed) (groupby (sorted keyed))
          /\ insert_all (run_of sid keyed) [] = Ok (readunits s)).
Proof.
  intros Hk Hder. unfold group_readunits. rewrite Hk. cbn [bind].
  destruct (with_keys_Ok l keyed Hk) as [Hsnd _].
  destruct (groupby_sorted (sorted keyed) (sorted_sorted keyed))
    as [Hs [Hrun [Hkeys _]]].
  assert (Hstable : forall sid, run_of sid (sorted keyed) = run_of sid keyed).
  { intros sid. unfold run_of. now rewrite sorted_stable. }
  destruct (add_groups_spec (groupby (sorted keyed)) [])
    as [samples [Hadd Hall]].
  - now apply group_lt_NoDup.
  - intros k _ [].
  - rewrite Forall_forall. intros [k g] Hin. cbn [snd].
    rewrite (Hrun k g Hin), Hstable.
    unfold keys_derivable in *. rewrite Forall_forall in *.
    intros ru Hru. apply Hder. rewrite <- Hsnd.
    apply run_of_incl in Hru. change ru with (snd (k, ru)). now apply in_map.
  - exists samples. simpl in Hadd.
    pose proof (Forall2_sample_of_keys _ _ Hall) as Hkeys'.
    split; [assumption|]. split; [assumption|]. split; [|split].
    + rewrite Hkeys'. now apply group_lt_NoDup.
    + intros sid. rewrite Hkeys', <- Hkeys. split; intros Hin.
      * apply in_map_iff in Hin as [x [<- Hx]]. apply in_map.
        exact (Permutation_in _ (sorted_perm keyed) Hx).
      * apply in_map_iff in Hin as [x [<- Hx]]. apply in_map.
        exact (Permutation_in _ (Permutation_sym (sorted_perm keyed)) Hx).
    + intros sid s Hget.
      destruct (Forall2_sample_of_get _ _ _ _ Hall Hget) as [g [Hin Hins]].
      pose proof (Hrun sid g Hin) as Hg. rewrite Hstable in Hg. subst g.
      now split.
Qed.

(** ** Key collisions within a sample *)



(** ** Grouping by sample *)

(** With the sample ids A, A, B the document has the samples A and B, and A
    holds one read unit, not two, when the two rows for A have one key. *)
Lemma repeated_row_counts_once :
  sample_sizes (main tab repeated_row_sheet)
  = Ok [(U "A", 1%nat); (U "B", 1%nat)].
Proof. vm_compute. reflexivity. Qed.

(** The groups are consecutive pieces of the list. *)
Lemma groupby_concat (l : list (str * pydict)) :
  flat_map ungroup (groupby l) = l.
Proof.
  induction l as [|[k x] l IH]; [reflexivity|].
  rewrite groupby_cons. destruct (groupby l) as [|[k' g] gs].
  - simpl in IH. now subst l.
  - destruct (eqb k k') eqn:E.
    + apply eqb_eq in E. subst k'. rewrite <- IH. reflexivity.
    + rewrite <- IH. reflexivity.
Qed.

Lemma group_lt_keys (groups : list (str * list pydict)) :
  StronglySorted group_lt groups -> StronglySorted str_lt (map fst groups).
Proof.
  induction 1 as [|g groups Hs IH Hg]; simpl; constructor; [assumption|].
  rewrite Forall_forall in *. intros k Hk.
  apply in_map_iff in Hk as [h [<- Hh]]. exact (Hg h Hh).
Qed.

Lemma insert_all_two (x y : pydict) (d : dict str pydict) :
  insert_all [x; y] [] = Ok d ->
  NoDup (map key_for_readunit [x; y]) ->
  length d = 2%nat.
Proof.
  simpl. destruct (key_for_readunit x) as [kx|e]; [|discriminate].
  destruct (key_for_readunit y) as [ky|e]; [|discriminate].
  simpl. intros Hd Hnd. inversion Hnd as [|? ? Hn _]; subst.
  assert (E : eqb ky kx = false).
  { apply eqb_neq. intros ->. apply Hn. now left. }
  rewrite E in Hd. now injection Hd as <-.
Qed.

Lemma insert_all_one (x : pydict) (d : dict str pydict) :
  insert_all [x] [] = Ok d -> length d = 1%nat.
Proof.
  simpl. destruct (key_for_readunit x) as [kx|e]; [|discriminate].
  simpl. intros Hd. now injection Hd as <-.
Qed.

(** Two read units of sample [A] with different keys and one of sample [B]
    make two samples, of two read units and of one. *)
Lemma two_samples (samples : Samples) (keyed : list (str * pydict))
  (A B : str) (x y z : pydict) :
  NoDup (keys samples) ->
  (forall sid, In sid (keys samples) <-> In sid (map fst keyed)) ->
  (forall sid s, dict_get samples sid = Some s ->
     insert_all (run_of sid keyed) [] = Ok (readunits s)) ->
  A <> B ->
  (forall sid, In sid (map fst keyed) <-> sid = A \/ sid = B) ->
  run_of A keyed = [x; y] -> run_of B keyed = [z] ->
  NoDup (map key_for_readunit [x; y]) ->
  length samples = 2%nat
  /\ exists sA sB,
       dict_get samples A = Some sA /\ length (readunits sA) = 2%nat
       /\ dict_get samples B = Some sB /\ length (readunits sB) = 1%nat.
Proof.
  intros Hnd Hids Hget HAB Hset HrA HrB Hkeys. split.
  - assert (Hperm : Permutation (keys samples) [A; B]).
    { apply NoDup_Permutation; [assumption | |].
      - constructor; [simpl; intuition congruence|].
        constructor; [simpl; tauto | constructor].
      - intros sid. rewrite Hids, Hset. simpl. intuition congruence. }
    apply Permutation_length in Hperm. unfold keys in Hperm.
    now rewrite length_map in Hperm.
  - assert (HA : In A (keys samples)) by (rewrite Hids, Hset; now left).
    assert (HB : In B (keys samples)) by (rewrite Hids, Hset; now right).
    destruct (dict_get samples A) as [sA|] eqn:EA;
      [|apply dict_get_None in EA; contradiction].
    destruct (dict_get samples B) as [sB|] eqn:EB;
      [|apply dict_get_None in EB; contradiction].
    exists sA, sB. split; [reflexivity|]. split; [|split; [reflexivity|]].
    + apply Hget in EA. rewrite HrA in EA.
      exact (insert_all_two x y _ EA Hkeys).
    + apply Hget in EB. rewrite HrB in EB.
      exact (insert_all_one z _ EB).
Qed.

(** C8, as the code has it: the read units are sorted by sample id with a
    stable sort (a permutation, sample ids not decreasing in the
    lexicographic order, the rows of one sample in row order) and cut into
    the consecutive runs of equal sample id; there is one sample for each
    run, keyed by the sample id, the samples in increasing order of it, and
    the mapping of a sample is made of its rows entered in row order. With
    the sample ids A, A, B, in any order, there are two samples, and A holds
    two read units and B one when the two read units of A have different
    keys. *)
Theorem grouping_by_sample (l : list pydict) (keyed : list (str * pydict)) :
  with_keys l = Ok keyed -> all_keyed l = true ->
  Permutation (sorted keyed) keyed
  /\ StronglySorted key_le (sorted keyed)
  /\ (forall sid, with_key sid (sorted keyed) = with_key sid keyed)
  /\ flat_map ungroup (groupby (sorted keyed)) = sorted keyed
  /\ exists samples,
       group_readunits l = Ok samples
       /\ keys samples = map fst (groupby (sorted keyed))
       /\ StronglySorted str_lt (keys samples)
       /\ (forall sid, In sid (keys samples) <-> In sid (map fst keyed))
       /\ (forall sid s, dict_get samples sid = Some s ->
             insert_all (run_of sid keyed) [] = Ok (readunits s))
       /\ (forall A B, A <> B ->
             map fst keyed = [A; A; B] \/ map fst keyed = [A; B; A]
             \/ map fst keyed = [B; A; A] ->
             NoDup (map key_for_readunit (run_of A keyed)) ->
             length samples = 2%nat
             /\ exists sA sB,
                  dict_get samples A = Some sA
                  /\ length (readunits sA) = 2%nat
                  /\ dict_get samples B = Some sB
                  /\ length (readunits sB) = 1%nat).
Proof.
  intros Hk Hall. apply all_keyed_derivable in Hall.
  split; [apply sorted_perm|]. split; [apply sorted_sorted|].
  split; [intros sid; apply sorted_stable|].
  split; [apply groupby_concat|].
  destruct (group_readunits_runs l keyed Hk Hall)
    as [samples [Hgrp [Hkeys [Hnd [Hids Hget]]]]].
  exists samples. split; [assumption|]. split; [assumption|].
  split; [|split; [assumption|split]].
  - rewrite Hkeys. apply group_lt_keys.
    now apply (groupby_sorted (sorted keyed) (sorted_sorted keyed)).
  - intros sid s Hs. now apply Hget.
  - intros A B HAB Hshape Hkeys2.
    assert (EAB : eqb A B = false) by (now apply eqb_neq).
    assert (EBA : eqb B A = false) by (apply eqb_neq; congruence).
    assert (Hget' : forall sid s, dict_get samples sid = Some s ->
              insert_all (run_of sid keyed) [] = Ok (readunits s))
      by (intros sid s Hs; now apply Hget).
    destruct Hshape as [Hs|[Hs|Hs]];
      destruct keyed as [|[k1 x1] [|[k2 x2] [|[k3 x3] [|]]]];
      try discriminate; injection Hs as -> -> ->.
    + apply (two_samples samples [(A, x1); (A, x2); (B, x3)] A B x1 x2 x3);
        auto; try (intros sid; simpl; intuition congruence);
        try revert Hkeys2; unfold run_of, with_key; cbn [filter fst];
        now rewrite ?eqb_refl, ?EBA, ?EAB.
    + apply (two_samples samples [(A, x1); (B, x2); (A, x3)] A B x1 x3 x2);
        auto; try (intros sid; simpl; intuition congruence);
        try revert Hkeys2; unfold run_of, with_key; cbn [filter fst];
        now rewrite ?eqb_refl, ?EBA, ?EAB.
    + apply (two_samples samples [(B, x1); (A, x2); (A, x3)] A B x2 x3 x1);
        auto; try (intros sid; simpl; intuition congruence);
        try revert Hkeys2; unfold run_of, with_key; cbn [filter fst];
        now rewrite ?eqb_refl, ?EBA, ?EAB.
Qed.

Lemma grouping_by_sample_witness :
  exists samples,
    group_readunits aab_rows = Ok samples
    /\ length samples = 2%nat
    /\ exists sA sB,
         dict_get samples (U "A") = Some sA /\ length (readunits sA) = 2%nat
         /\ dict_get samples (U "B") = Some sB
         /\ length (readunits sB) = 1%nat.
Proof.
  destruct (grouping_by_sample aab_rows aab_keyed)
    as [_ [_ [_ [_ [samples [Hgrp [_ [_ [_ [_ Hex]]]]]]]]]].
  - reflexivity.
  - reflexivity.
  - exists samples. split; [exact Hgrp|].
    apply (Hex (U "A") (U "B")).
    + discriminate.
    + right. left. reflexivity.
    + vm_compute. constructor.
      * intros [E|[]]. discriminate E.
      * constructor; [intros [] | constructor].
Defined.

(** ** Rows with the same content *)

(** Two rows with the same content make two read units, and the document
    has one entry for them, not two: the second took the place of the
    first. *)
Lemma twin_rows_make_one_entry :
  parse_readunits_from_csv twin_rows_sheet = Ok [twin; twin]
  /\ (samples <- main tab twin_rows_sheet ;; Ok (entries_for samples twin))
     = Ok 1%nat.
Proof. split; vm_compute; reflexivity. Qed.

Lemma In_document_entries (samples : Samples) (sid k : str) (v : pydict) :
  In (sid, k, v) (document_entries samples)
  <-> exists s, In (sid, s) samples /\ In (k, v) (readunits s).
Proof.
  unfold document_entries. rewrite in_flat_map. split.
  - intros [[sid' s] [Hs Hin]]. apply in_map_iff in Hin as [[k' v'] [E Hkv]].
    simpl in E. injection E as <- <- <-. now exists s.
  - intros [s [Hs Hkv]]. exists (sid, s). split; [assumption|].
    apply in_map_iff. now exists (k, v).
Qed.

Lemma NoDup_map_pair {A B} (a : A) (l : list B) :
  NoDup l -> NoDup (map (pair a) l).
Proof.
  induction 1 as [|b l Hb Hl IH]; simpl; constructor; [|assumption].
  intros Hin. apply in_map_iff in Hin as [b' [[= ->] Hb']]. contradiction.
Qed.

(** No two entries of the document have the same sample id and key. *)
Lemma NoDup_document_entries (samples : Samples) :
  NoDup (keys samples) ->
  (forall sid s, In (sid, s) samples -> NoDup (keys (readunits s))) ->
  NoDup (map fst (document_entries samples)).
Proof.
  induction samples as [|[sid0 s0] samples IH]; intros Hnd Hin;
    [constructor|].
  inversion Hnd as [|? ? Hsid Hnd']; subst.
  unfold document_entries. cbn [flat_map fst snd]. rewrite map_app, map_map.
  cbn [fst]. apply NoDup_app.
  - change (fun x : str * pydict => (sid0, fst x))
      with (fun x : str * pydict => pair sid0 (fst x)).
    rewrite <- (map_map fst (pair sid0)). apply NoDup_map_pair.
    apply (Hin sid0 s0). now left.
  - apply IH; [assumption|]. intros sid s Hs. apply (Hin sid s). now right.
  - intros [sid k] H1 H2.
    apply in_map_iff in H1 as [[k' v'] [[= <- <-] _]].
    apply in_map_iff in H2 as [[[sid' k''] v] [E He]]. simpl in E.
    injection E as -> ->. apply In_document_entries in He as [s [Hs _]].
    apply Hsid. change sid0 with (fst (sid0, s)). now apply in_map.
Qed.

(** Of elements with distinct tags, at most one passes a test that only one
    tag passes. *)
Lemma at_most_one {A T} (tag : A -> T) (p : A -> bool) (l : list A) (t : T) :
  NoDup (map tag l) ->
  (forall x, In x l -> p x = true -> tag x = t) ->
  (length (filter p l) <= 1)%nat.
Proof.
  induction l as [|x l IH]; intros Hnd Htag; simpl; [lia|].
  inversion Hnd as [|? ? Hx Hnd']; subst.
  assert (IH' : (length (filter p l) <= 1)%nat).
  { apply IH; [assumption|]. intros y Hy. apply Htag. now right. }
  destruct (p x) eqn:Ex; [|exact IH'].
  assert (Hnone : filter p l = []).
  { destruct (filter p l) as [|y r] eqn:Ef; [reflexivity|].
    assert (Hy : In y (filter p l)) by (rewrite Ef; now left).
    apply filter_In in Hy as [Hy Hpy]. exfalso. apply Hx.
    rewrite (Htag x (or_introl eq_refl) Ex).
    rewrite <- (Htag y (or_intror Hy) Hpy). now apply in_map. }
  rewrite Hnone. simpl. lia.
Qed.

Lemma with_keys_In (l : list pydict) (keyed : list (str * pydict)) :
  with_keys l = Ok keyed ->
  (forall ru, In ru l -> exists sid, sample_id_of ru = Ok sid
                                     /\ In (sid, ru) keyed)
  /\ (forall sid ru, In (sid, ru) keyed -> In ru l
                                           /\ sample_id_of ru = Ok sid).
Proof.
  intros Hk. destruct (with_keys_Ok l keyed Hk) as [Hsnd Hall].
  rewrite Forall_forall in Hall. split.
  - intros ru Hru. rewrite <- Hsnd in Hru.
    apply in_map_iff in Hru as [[sid x] [E Hin]]. simpl in E. subst x.
    exists sid. split; [exact (Hall _ Hin) | assumption].
  - intros sid ru Hin. split.
    + rewrite <- Hsnd. change ru with (snd (sid, ru)). now apply in_map.
    + exact (Hall _ Hin).
Qed.

Lemma In_run_of (k : str) (l : list (str * pydict)) (ru : pydict) :
  In (k, ru) l -> In ru (run_of k l).
Proof.
  intros Hin. unfold run_of, with_key. change ru with (snd (k, ru)).
  apply in_map. apply filter_In. split; [assumption | apply eqb_refl].
Qed.

(** A key that a read unit of the run has is bound in the mapping. *)
Lemma insert_all_bound (g : list pydict) (d d' : dict str pydict) (k : str) :
  insert_all g d = Ok d' ->
  dict_get d k <> None \/ (exists ru, In ru g /\ key_for_readunit ru = Ok k) ->
  dict_get d' k <> None.
Proof.
  revert d. induction g as [|x g IH]; intros d Hins Hk; simpl in Hins.
  - injection Hins as <-. destruct Hk as [Hk|[ru [[] _]]]. exact Hk.
  - destruct (key_for_readunit x) as [k0|e] eqn:Ex; [|discriminate].
    simpl in Hins. apply (IH _ Hins).
    destruct Hk as [Hk|[ru [[<-|Hru] Hkey]]].
    + left. rewrite dict_get_set. now destruct (eqb k k0).
    + left. rewrite Ex in Hkey. injection Hkey as ->.
      rewrite dict_get_set_same. discriminate.
    + right. now exists ru.
Qed.

Lemma represent_data_OList (ign : pyobj -> bool) (id : list nat)
  (l : list pyobj) (represented : list (list nat)) :
  represent_data ign (OList id l) represented
  = if negb (ign (OList id l)) && py_in id represented
    then (AliasNode id, represented)
    else
      let '(ns, represented) :=
        represent_list ign l
          (if ign (OList id l) then represented else id :: represented) in
      (SequenceNode ns, represented).
Proof. reflexivity. Qed.

Lemma represent_data_ODict (ign : pyobj -> bool) (id : list nat)
  (kvs : list (pyobj * pyobj)) (represented : list (list nat)) :
  represent_data ign (ODict id kvs) represented
  = if negb (ign (ODict id kvs)) && py_in id represented
    then (AliasNode id, represented)
    else
      let '(ns, represented) :=
        represent_items ign kvs
          (if ign (ODict id kvs) then represented else id :: represented) in
      (MappingNode ns, represented).
Proof. reflexivity. Qed.

(** With the [ignore_aliases] of the program nothing is remembered and no
    node is an alias, whatever objects are shared. *)
Lemma represent_data_ignore_aliases (data : pyobj) :
  forall represented,
    has_alias (fst (represent_data ignore_aliases data represented)) = false
    /\ snd (represent_data ignore_aliases data represented) = represented.
Proof.
  induction data as [s| |id l IH|id kvs IH] using pyobj_nested_ind;
    intros represented.
  - now split.
  - now split.
  - rewrite represent_data_OList. cbn [ignore_aliases negb andb].
    assert (Hl : has_alias
                   (SequenceNode
                      (fst (represent_list ignore_aliases l represented)))
                 = false
                 /\ snd (represent_list ignore_aliases l represented)
                    = represented).
    { revert represented. induction IH as [|x l Hx _ IHl]; intros represented.
      - now split.
      - cbn [represent_list]. fold (represent_list ignore_aliases).
        destruct (Hx represented) as [Hn Hr].
        destruct (represent_data ignore_aliases x represented) as [n r].
        cbn [fst snd] in Hn, Hr. subst r.
        destruct (IHl represented) as [Hns Hrs].
        destruct (represent_list ignore_aliases l represented) as [ns r].
        cbn [fst snd has_alias existsb] in *. now rewrite Hn, Hns. }
    destruct (represent_list ignore_aliases l represented) as [ns r].
    exact Hl.
  - rewrite represent_data_ODict. cbn [ignore_aliases negb andb].
    assert (Hl : has_alias
                   (MappingNode
                      (fst (represent_items ignore_aliases kvs represented)))
                 = false
                 /\ snd (represent_items ignore_aliases kvs represented)
                    = represented).
    { revert represented.
      induction IH as [|[k v] kvs [Hk Hv] _ IHl]; intros represented.
      - now split.
      - cbn [represent_items]. fold (represent_items ignore_aliases).
        cbn [fst snd] in Hk, Hv.
        destruct (Hk represented) as [Hnk Hrk].
        destruct (represent_data ignore_aliases k represented) as [nk r].
        cbn [fst snd] in Hnk, Hrk. subst r.
        destruct (Hv represented) as [Hnv Hrv].
        destruct (represent_data ignore_aliases v represented) as [nv r].
        cbn [fst snd] in Hnv, Hrv. subst r.
        destruct (IHl represented) as [Hns Hrs].
        destruct (represent_items ignore_aliases kvs represented) as [ns r].
        cbn [fst snd has_alias existsb] in *. now rewrite Hnk, Hnv, Hns. }
    destruct (represent_items ignore_aliases kvs represented) as [ns r].
    exact Hl.
Qed.

Lemma dump_has_no_alias (data : pyobj) :
  has_alias (dump ignore_aliases data) = false.
Proof. apply represent_data_ignore_aliases. Qed.

(** One [dict] met twice: PyYAML's own [ignore_aliases] writes an alias the
    second time, the one of the program writes the mapping again. *)
Example shared_dict_default :
  dump default_ignore_aliases
    (OList [] [ODict [O] [(OStr (U "a"), OStr (U "b"))];
               ODict [O] [(OStr (U "a"), OStr (U "b"))]])
  = SequenceNode [MappingNode [(ScalarNode (U "a"), ScalarNode (U "b"))];
                  AliasNode [O]].
Proof. reflexivity. Qed.

Example shared_dict_expanded :
  dump ignore_aliases
    (OList [] [ODict [O] [(OStr (U "a"), OStr (U "b"))];
               ODict [O] [(OStr (U "a"), OStr (U "b"))]])
  = SequenceNode [MappingNode [(ScalarNode (U "a"), ScalarNode (U "b"))];
                  MappingNode [(ScalarNode (U "a"), ScalarNode (U "b"))]].
Proof. reflexivity. Qed.

Lemma filter_length_pos {A} (p : A -> bool) (l : list A) (x : A) :
  In x l -> p x = true -> (1 <= length (filter p l))%nat.
Proof.
  intros Hin Hp. assert (Hx : In x (filter p l)) by (now apply filter_In).
  destruct (filter p l); [destruct Hx | simpl; lia].
Qed.

(** C2, as the code has it: two read units with the same content have the
    same sample id and the same key, so they go to one entry of the
    document, the later in place of the earlier: no read unit is held by
    more than one entry; the key of every read unit is bound in its sample,
    to a read unit of that sample with that key; and it is bound to the read
    unit itself, which then has exactly one entry, when the rows of that
    sample with that key all have its content. What is dumped has no alias:
    [ignore_aliases] is true of every object. *)
Theorem same_content_one_entry (l : list pydict) (keyed : list (str * pydict)) :
  with_keys l = Ok keyed -> all_keyed l = true ->
  exists samples,
    group_readunits l = Ok samples
    /\ has_alias (dump ignore_aliases (document samples)) = false
    /\ forall ru, In ru l ->
         (entries_for samples ru <= 1)%nat
         /\ exists sid k s held,
              sample_id_of ru = Ok sid
              /\ key_for_readunit ru = Ok k
              /\ dict_get samples sid = Some s
              /\ dict_get (readunits s) k = Some held
              /\ In held l
              /\ sample_id_of held = Ok sid
              /\ key_for_readunit held = Ok k
              /\ ((forall x, In x l -> sample_id_of x = Ok sid ->
                     key_for_readunit x = Ok k -> x = ru) ->
                  held = ru /\ entries_for samples ru = 1%nat).
Proof.
  intros Hk Hall. apply all_keyed_derivable in Hall.
  destruct (group_readunits_runs l keyed Hk Hall)
    as [samples [Hgrp [Hkeys [Hnd [Hids Hget]]]]].
  destruct (with_keys_In l keyed Hk) as [Hto Hfrom].
  exists samples. split; [assumption|].
  split; [apply dump_has_no_alias|].
  (* every entry comes from a row of its sample and is under its key *)
  assert (Hentry : forall sid s k v,
            In (sid, s) samples -> In (k, v) (readunits s) ->
            NoDup (keys (readunits s))
            /\ In v l /\ sample_id_of v = Ok sid /\ key_for_readunit v = Ok k).
  { intros sid s k v Hs Hkv.
    apply (In_dict_get _ _ _ Hnd) in Hs.
    destruct (Hget sid s Hs) as [_ Hins].
    assert (Hnd' : NoDup (keys (readunits s))).
    { apply (insert_all_NoDup _ _ _ Hins). constructor. }
    split; [assumption|].
    apply (In_dict_get _ _ _ Hnd') in Hkv.
    destruct (insert_all_In _ _ _ _ _ Hins Hkv) as [[Hin Hkey]|Hd];
      [|discriminate].
    apply run_of_incl, Hfrom in Hin. tauto. }
  assert (Hle : forall ru sid k,
            sample_id_of ru = Ok sid -> key_for_readunit ru = Ok k ->
            (entries_for samples ru <= 1)%nat).
  { intros ru sid k Hsid Hkey. unfold entries_for.
    apply (at_most_one fst _ _ (sid, k)).
    - apply NoDup_document_entries; [assumption|].
      intros sid' s' Hs'.
      apply (In_dict_get _ _ _ Hnd) in Hs'.
      destruct (Hget sid' s' Hs') as [_ Hins].
      apply (insert_all_NoDup _ _ _ Hins). constructor.
    - intros [[sid' k'] v] Hin Hv. cbn [fst snd] in *.
      apply eqb_eq in Hv. subst v.
      apply In_document_entries in Hin as [s' [Hs' Hkv]].
      destruct (Hentry sid' s' k' ru Hs' Hkv) as [_ [_ [Hsid' Hkey']]].
      congruence. }
  intros ru Hru.
  destruct (Hto ru Hru) as [sid [Hsid Hin]].
  assert (Hder : exists k, key_for_readunit ru = Ok k).
  { unfold keys_derivable in Hall. rewrite Forall_forall in Hall.
    now apply Hall. }
  destruct Hder as [k Hkey].
  split; [exact (Hle ru sid k Hsid Hkey)|].
  assert (Hsidin : In sid (keys samples)).
  { apply Hids. change sid with (fst (sid, ru)). now apply in_map. }
  destruct (dict_get samples sid) as [s|] eqn:Es;
    [|apply dict_get_None in Es; contradiction].
  destruct (Hget sid s Es) as [_ Hins].
  assert (Hbound : dict_get (readunits s) k <> None).
  { apply (insert_all_bound _ _ _ _ Hins). right. exists ru.
    split; [now apply In_run_of | assumption]. }
  destruct (dict_get (readunits s) k) as [held|] eqn:Eh; [|congruence].
  destruct (Hentry sid s k held (dict_get_In _ _ _ Es) (dict_get_In _ _ _ Eh))
    as [_ [Hhl [Hhsid Hhkey]]].
  exists sid, k, s, held. repeat (split; [assumption || reflexivity|]).
  intros Hsame. assert (held = ru) as -> by (now apply Hsame).
  split; [reflexivity|].
  apply Nat.le_antisymm; [exact (Hle ru sid k Hsid Hkey)|].
  unfold entries_for. apply (filter_length_pos _ _ (sid, k, ru)).
  - apply In_document_entries. exists s.
    split; now apply dict_get_In.
  - apply eqb_refl.
Qed.

Lemma same_content_one_entry_witness :
  exists samples,
    group_readunits [twin; twin] = Ok samples
    /\ has_alias (dump ignore_aliases (document samples)) = false
    /\ entries_for samples twin = 1%nat.
Proof.
  destruct (same_content_one_entry [twin; twin]
              [(U "S1", twin); (U "S1", twin)])
    as [samples [Hgrp [Hdump Hall]]].
  - reflexivity.
  - reflexivity.
  - exists samples. split; [exact Hgrp|]. split; [exact Hdump|].
    destruct (Hall twin (or_introl eq_refl))
      as [_ [sid [k [s [held [Hsid [Hkey [_ [_ [_ [_ [_ Hone]]]]]]]]]]]].
    apply Hone. intros x [<-|[<-|[]]]; reflexivity.
Defined.

(** ** What the parser returns can be grouped *)

Lemma readunit_of_row_groupable (row ru : pydict) :
  readunit_of_row row = Ok ru -> groupable ru.
Proof.
  intros Hrow. split.
  - destruct (readunit_of_row_mandatory row ru (U "sample_id") Hrow)
      as [c [s [_ Hget]]]; [now left|].
    unfold sample_id_of, getitem. now rewrite Hget.
  - destruct (readunit_of_row_Ok row ru Hrow) as [ru1 [ru2 [H1 [H2 ->]]]].
    unfold readunit_of_row in Hrow. rewrite H1 in Hrow. cbn [bind] in Hrow.
    rewrite H2 in Hrow. cbn [bind] in Hrow.
    now destruct (key_for_readunit (auxiliary_loop row ru2)).
Qed.

Lemma parse_rows_groupable (rows : list (result pydict))
  (readunits l : list pydict) :
  Forall groupable readunits -> parse_rows rows readunits = Ok l ->
  Forall groupable l.
Proof.
  revert readunits. induction rows as [|[row|e] rows IH];
    intros readunits Hacc Hparse.
  - simpl in Hparse. now injection Hparse as <-.
  - destruct row as [|kv row].
    + simpl in Hparse. now apply (IH readunits).
    + rewrite parse_rows_cons in Hparse by discriminate.
      destruct (readunit_of_row (kv :: row)) as [ru|e] eqn:Eru;
        [|discriminate].
      cbn [bind] in Hparse. apply (IH _) in Hparse; [assumption|].
      apply Forall_app. split; [assumption|]. constructor; [|constructor].
      now apply readunit_of_row_groupable in Eru.
  - discriminate.
Qed.

Lemma groupable_with_keys (l : list pydict) :
  Forall groupable l ->
  (exists keyed, with_keys l = Ok keyed) /\ all_keyed l = true.
Proof.
  induction 1 as [|ru l [Hsid Hkey] _ [[keyed IHk] IHa]].
  - split; [now exists [] | reflexivity].
  - split.
    + simpl. destruct (sample_id_of ru) as [k|e]; [|discriminate].
      rewrite IHk. simpl. eauto.
    + unfold all_keyed in *. simpl. now rewrite Hkey, IHa.
Qed.

(** The read units of a parse all have a [str] sample id and a key. *)
Lemma parse_output_groupable (csv : str) (l : list pydict) :
  parse_readunits_from_csv csv = Ok l ->
  (exists keyed, with_keys l = Ok keyed) /\ all_keyed l = true.
Proof.
  unfold parse_readunits_from_csv. intros Hparse.
  destruct (Csv.DictReader_of Csv.excel_delimiter csv) as [r|e];
    [|discriminate].
  cbn [bind] in Hparse.
  destruct (check_header MANDATORY_FIELDS (Csv.fieldnames r));
    [|discriminate].
  cbn [bind] in Hparse. apply groupable_with_keys.
  apply (parse_rows_groupable (Csv.rows r) [] l); [constructor | assumption].
Qed.

(** Once the sheet is parsed, the grouping of [main] does not fail. *)
Lemma main_groups_what_is_parsed (delimiter csv : str) (l : list pydict) :
  length delimiter = 1%nat -> parse_readunits_from_csv csv = Ok l ->
  exists samples, main delimiter csv = Ok samples.
Proof.
  intros Hd Hparse. unfold main. rewrite Hd. cbn [Nat.eqb negb].
  rewrite Hparse. cbn [bind].
  destruct (parse_output_groupable csv l Hparse) as [[keyed Hk] Hall].
  destruct (group_readunits_runs l keyed Hk (all_keyed_derivable l Hall))
    as [samples [Hgrp _]].
  now exists samples.
Qed.

(** ** The delimiter *)

(** The delimiter is used by [main] for the test on its length, and by
    nothing else. *)
Lemma main_ignores_delimiter (d1 d2 csv : str) :
  length d1 = 1%nat -> length d2 = 1%nat -> main d1 csv = main d2 csv.
Proof. intros H1 H2. unfold main. now rewrite H1, H2. Qed.

(** C1, where the code departs from it: on a sheet of two columns with a
    tab between them, read with the tab as delimiter, a reader that splits
    at the delimiter finds the columns [sample_id] and [fq1] and the row
    [S1], [a.fq]; the parser splits at commas whatever the delimiter is,
    takes each line for one field, and [main] stops on the header with the
    mandatory field [sample_id] reported missing. The same sheet with commas
    is parsed, with the tab given as delimiter. *)
Theorem tab_delimiter_is_not_used :
  Csv.reader_of 9 tab_sheet
  = [Ok [U "sample_id"; U "fq1"]; Ok [U "S1"; U "a.fq"]]
  /\ Csv.reader_of Csv.excel_delimiter tab_sheet
     = [Ok [U "sample_id" ++ tab ++ U "fq1"]; Ok [U "S1" ++ tab ++ U "a.fq"]]
  /\ main tab tab_sheet
     = Error (AssertionError (U "Missing mandatory header/field: sample_id"))
  /\ sample_sizes
       (main tab (full_header_line ++ nl ++ U "S1,a.fq,,,,," ++ nl))
     = Ok [(U "S1", 1%nat)].
Proof. repeat split; vm_compute; reflexivity. Qed.

(** ** From a sheet to the samples *)

(** Two rows of one sample, the second with an [fq2]: two entries, under
    two keys. *)
Example two_rows_two_keys :
  main tab
    (full_header_line ++ nl ++ U "S1,a_R1.fq.gz,,,,," ++ nl
     ++ U "S1,a_R1.fq.gz,a_R2.fq.gz,,,," ++ nl)
  = Ok [(U "S1",
         mkSample
           [(U "7f8c927a",
             [(Some (U "sample_id"), VStr (U "S1"));
              (Some (U "fq1"), VStr (U "a_R1.fq.gz"))]);
            (U "a10331db",
             [(Some (U "sample_id"), VStr (U "S1"));
              (Some (U "fq1"), VStr (U "a_R1.fq.gz"));
              (Some (U "fq2"), VStr (U "a_R2.fq.gz"))])])].
Proof. vm_compute. reflexivity. Qed.

(** * Further properties *)

(** ** What of a path enters the key *)

Lemma last_sep_split (p : str) :
  ~ In sep p \/ exists a b, p = a ++ sep :: b /\ ~ In sep b.
Proof.
  induction p as [|c p IH].
  - left. intros [].
  - destruct IH as [Hn|[a [b [-> Hb]]]].
    + destruct (c =? sep) eqn:E.
      * apply N.eqb_eq in E. subst c. right. exists [], p. now split.
      * apply N.eqb_neq in E. left. intros [Hc|Hin]; [congruence | contradiction].
    + right. exists (c :: a), b. now split.
Qed.

(** Every path is a directory prefix followed by its basename; the basename
    has no separator in it, is its own basename, and is empty for a path
    that ends with the separator. *)
Theorem basename_decomposition (p : str) :
  (exists d, dir_prefix d /\ p = d ++ basename p)
  /\ ~ In sep (basename p)
  /\ basename (basename p) = basename p
  /\ basename (p ++ [sep]) = [].
Proof.
  assert (Hlast : basename (p ++ [sep]) = []).
  { apply (basename_after_sep p []). intros []. }
  destruct (last_sep_split p) as [Hn|[a [b [-> Hb]]]].
  - rewrite (basename_no_sep p Hn). repeat split; try assumption.
    + exists []. split; [now left | reflexivity].
    + now apply basename_no_sep.
  - rewrite (basename_after_sep a b Hb). repeat split; try assumption.
    + exists (a ++ [sep]). split; [right; now exists a|].
      now rewrite <- app_assoc.
    + now apply basename_no_sep.
Qed.

(** ** What of the values enters the key *)

Lemma encodable_app (a b : str) :
  encodable (a ++ b) = encodable a && encodable b.
Proof. apply forallb_app. Qed.

Lemma utf8_app (a b : str) : utf8 (a ++ b) = utf8 a ++ utf8 b.
Proof. apply flat_map_app. Qed.

Lemma update_update (m : Md5.md5) (a b : bytes) :
  Md5.update (Md5.update m a) b = Md5.update m (a ++ b).
Proof. unfold Md5.update. simpl. now rewrite <- app_assoc. Qed.

(** The values are hashed end to end, with nothing between them: characters
    moved from the end of one value to the start of the next, neither of
    them a file path, leave the key as it was. *)
Theorem key_ignores_value_boundaries
  (before after : pydict) (k1 k2 : pykey) (x y z : str) :
  is_file_key k1 = false -> is_file_key k2 = false ->
  key_for_readunit (before ++ (k1, VStr (x ++ y)) :: (k2, VStr z) :: after)
  = key_for_readunit (before ++ (k1, VStr x) :: (k2, VStr (y ++ z)) :: after).
Proof.
  intros H1 H2. unfold key_for_readunit. rewrite !md5_feed_app.
  destruct (md5_feed before Md5.new) as [m|e]; [|reflexivity].
  cbn [bind]. rewrite !md5_feed_cons, H1.
  cbn [bind py_encode]. unfold encode. rewrite encodable_app.
  destruct (encodable x) eqn:Ex, (encodable y) eqn:Ey;
    cbn [andb bind]; try reflexivity;
    rewrite !md5_feed_cons, H2; cbn [bind py_encode]; unfold encode;
    rewrite ?encodable_app, ?Ey; cbn [andb bind]; try reflexivity.
  destruct (encodable z); cbn [andb bind]; [|reflexivity].
  now rewrite !update_update, !utf8_app, <- app_assoc.
Qed.

Lemma key_ignores_value_boundaries_witness :
  key_for_readunit
    ([(Some (U "sample_id"), VStr (U "S1"))]
       ++ (Some (U "run_id"), VStr (U "run" ++ U "7"))
       :: (Some (U "lane_id"), VStr (U "1")) :: [])
  = key_for_readunit
      ([(Some (U "sample_id"), VStr (U "S1"))]
         ++ (Some (U "run_id"), VStr (U "run"))
         :: (Some (U "lane_id"), VStr (U "7" ++ U "1")) :: []).
Proof.
  apply (key_ignores_value_boundaries
           [(Some (U "sample_id"), VStr (U "S1"))] []
           (Some (U "run_id")) (Some (U "lane_id")));
    reflexivity.
Defined.

(** A field whose value is the empty string adds nothing to the hash: the
    key is the key of the read unit without it, whatever its name and
    place. *)
Theorem key_ignores_empty_values (before after : pydict) (k : pykey) :
  key_for_readunit (before ++ (k, VStr []) :: after)
  = key_for_readunit (before ++ after).
Proof.
  unfold key_for_readunit. rewrite !md5_feed_app.
  destruct (md5_feed before Md5.new) as [[buf]|e]; [|reflexivity].
  cbn [bind]. rewrite md5_feed_cons.
  assert (E : (if is_file_key k then py_basename (VStr []) else Ok (VStr []))
              = Ok (VStr [])) by (now destruct (is_file_key k)).
  rewrite E. cbn [bind py_encode]. unfold encode. cbn [encodable forallb bind].
  unfold Md5.update. cbn [Md5.buffer utf8 flat_map]. now rewrite app_nil_r.
Qed.

(** ** The header comes first *)

Lemma check_header_missing (fs header : list str) :
  header_has fs header = false ->
  exists f, In f fs /\ ~ In f header
            /\ check_header fs (Some header)
               = Error (AssertionError (missing_header_msg f)).
Proof.
  induction fs as [|f fs IH]; simpl; [discriminate|].
  destruct (py_in f header) eqn:E; simpl.
  - intros Hfs. destruct (IH Hfs) as [f' [Hf' [Hn Hc]]]. exists f'. auto.
  - intros _. exists f. split; [now left|].
    split; [now apply py_in_not_In | reflexivity].
Qed.

(** The parse returns read units only for a sheet whose first record has
    the mandatory fields; when one is missing, the parse fails with the
    assertion error that names the first one missing, whatever the rows
    are; and for a sheet without any record it fails with a [TypeError]. *)
Theorem header_is_checked_first (csv : str) :
  (forall l, parse_readunits_from_csv csv = Ok l ->
     exists header rest,
       excel_reader csv = Ok header :: rest
       /\ header_has MANDATORY_FIELDS header = true)
  /\ (forall header rest,
        excel_reader csv = Ok header :: rest ->
        header_has MANDATORY_FIELDS header = false ->
        exists f, In f MANDATORY_FIELDS /\ ~ In f header
          /\ parse_readunits_from_csv csv
             = Error (AssertionError (missing_header_msg f)))
  /\ (excel_reader csv = [] ->
      parse_readunits_from_csv csv = Error TypeError).
Proof.
  unfold parse_readunits_from_csv, Csv.DictReader_of, excel_reader.
  split; [|split].
  - intros l Hparse.
    destruct (Csv.reader_of Csv.excel_delimiter csv) as [|[header|e] rest];
      try discriminate.
    cbn [bind Csv.fieldnames] in Hparse. exists header, rest.
    split; [reflexivity|]. apply check_header_Ok.
    destruct (check_header MANDATORY_FIELDS (Some header)) as [[]|e];
      [reflexivity | discriminate].
  - intros header rest -> Hmiss. cbn [bind Csv.fieldnames].
    destruct (check_header_missing _ _ Hmiss) as [f [Hf [Hn Hc]]].
    exists f. split; [assumption|]. split; [assumption|]. now rewrite Hc.
  - intros ->. reflexivity.
Qed.

Lemma header_is_checked_first_witness :
  exists f, In f MANDATORY_FIELDS /\ ~ In f [U "sample_id"; U "fq2"]
    /\ parse_readunits_from_csv (U "sample_id,fq2" ++ nl ++ U ",,,," ++ nl)
       = Error (AssertionError (missing_header_msg f)).
Proof.
  destruct (header_is_checked_first
              (U "sample_id,fq2" ++ nl ++ U ",,,," ++ nl)) as [_ [Hmiss _]].
  apply (Hmiss [U "sample_id"; U "fq2"] [Ok [[]; []; []; []; []]]);
    reflexivity.
Defined.

(** ** One read unit for each row, in row order *)

Lemma parse_rows_Ok (rows : list (result pydict)) (readunits l : list pydict) :
  parse_rows rows readunits = Ok l <->
  exists dicts rus,
    rows = map Ok dicts
    /\ Forall2 (fun row ru => readunit_of_row row = Ok ru)
         (filter (fun d => negb (eqb d [])) dicts) rus
    /\ l = readunits ++ rus.
Proof.
  revert readunits l. induction rows as [|[row|e] rows IH]; intros readunits l.
  - simpl. split.
    + intros [= <-]. exists [], []. repeat split; [constructor|].
      now rewrite app_nil_r.
    + intros [[|d dicts] [rus [Hr [Hall ->]]]]; [|discriminate].
      inversion Hall. now rewrite app_nil_r.
  - destruct row as [|kv row].
    + cbn [parse_rows]. rewrite IH. split.
      * intros [dicts [rus [-> [Hall ->]]]]. exists ([] :: dicts), rus.
        repeat split. exact Hall.
      * intros [[|d dicts] [rus [Hr [Hall ->]]]]; [discriminate|].
        injection Hr as <- ->. exists dicts, rus. repeat split. exact Hall.
    + rewrite parse_rows_cons by discriminate. split.
      * destruct (readunit_of_row (kv :: row)) as [ru|e] eqn:Eru;
          [|discriminate].
        cbn [bind]. intros Hparse.
        apply IH in Hparse as [dicts [rus [-> [Hall ->]]]].
        exists ((kv :: row) :: dicts), (ru :: rus). repeat split.
        -- cbn [filter]. constructor; assumption.
        -- now rewrite <- app_assoc.
      * intros [[|d dicts] [rus [Hr [Hall ->]]]]; [discriminate|].
        injection Hr as <- ->. cbn [filter] in Hall.
        inversion Hall as [|? ru ? rus' Hru Hall']; subst.
        rewrite Hru. cbn [bind]. apply IH. exists dicts, rus'.
        repeat split; [assumption|]. now rewrite <- app_assoc.
  - simpl. split; [discriminate|].
    intros [[|d dicts] [rus [Hr _]]]; discriminate.
Qed.

Lemma dict_rows_Ok (header : list str) (recs : list (result (list str)))
  (dicts : list pydict) :
  Csv.dict_rows header recs = map Ok dicts <->
  exists records,
    recs = map Ok records
    /\ dicts = map (Csv.row_dict header) (filter nonblank records).
Proof.
  revert dicts. induction recs as [|[record|e] recs IH]; intros dicts.
  - simpl. split.
    + destruct dicts; [|discriminate]. intros _. now exists [].
    + intros [[|r records] [Hr ->]]; [reflexivity | discriminate].
  - destruct record as [|v record].
    + cbn [Csv.dict_rows]. rewrite IH. split.
      * intros [records [-> ->]]. now exists ([] :: records).
      * intros [[|r records] [Hr ->]]; [discriminate|].
        injection Hr as <- ->. now exists records.
    + cbn [Csv.dict_rows]. split.
      * destruct dicts as [|d dicts]; [discriminate|].
        cbn [map]. intros [= <- Hrest].
        apply IH in Hrest as [records [-> ->]].
        now exists ((v :: record) :: records).
      * intros [[|r records] [Hr ->]]; [discriminate|].
        injection Hr as <- ->. cbn [filter nonblank map]. f_equal.
        apply IH. now exists records.
  - cbn [Csv.dict_rows]. split.
    + destruct dicts; discriminate.
    + intros [[|r records] [Hr _]]; discriminate.
Qed.

Lemma Forall2_map_l {A B C} (f : A -> B) (R : B -> C -> Prop)
  (l : list A) (l' : list C) :
  Forall2 R (map f l) l' <-> Forall2 (fun a c => R (f a) c) l l'.
Proof.
  revert l'. induction l as [|a l IH]; intros l'; simpl.
  - split; inversion 1; constructor.
  - split; inversion 1; subst; constructor; try assumption; now apply IH.
Qed.

Lemma filter_all {A} (p : A -> bool) (l : list A) :
  (forall x, In x l -> p x = true) -> filter p l = l.
Proof.
  induction l as [|x l IH]; intros H; simpl; [reflexivity|].
  rewrite (H x (or_introl eq_refl)). f_equal. apply IH.
  intros y Hy. apply H. now right.
Qed.

(** A parse that returns has read the header and made a read unit of every
    record that is not blank. *)
Lemma parse_Ok_rows (csv : str) (l : list pydict) :
  parse_readunits_from_csv csv = Ok l ->
  exists header records,
    excel_reader csv = Ok header :: map Ok records
    /\ header_has MANDATORY_FIELDS header = true
    /\ Forall2
         (fun record ru => readunit_of_row (Csv.row_dict header record) = Ok ru)
         (filter nonblank records) l.
Proof.
  unfold parse_readunits_from_csv, Csv.DictReader_of, excel_reader.
  intros Hparse.
  destruct (Csv.reader_of Csv.excel_delimiter csv) as [|[header|e] rest];
    try discriminate.
  cbn [bind Csv.fieldnames Csv.rows] in Hparse.
  destruct (check_header MANDATORY_FIELDS (Some header)) as [[]|e] eqn:Hc;
    [|discriminate].
  cbn [bind] in Hparse. apply check_header_Ok in Hc.
  apply parse_rows_Ok in Hparse as [dicts [rus [Hrows [Hall ->]]]].
  apply dict_rows_Ok in Hrows as [records [-> ->]].
  exists header, records. split; [reflexivity|]. split; [assumption|].
  rewrite filter_all in Hall.
  - now apply Forall2_map_l in Hall.
  - intros d Hd. apply in_map_iff in Hd as [record [<- _]].
    apply negb_true_iff, eqb_neq.
    apply (row_dict_nonempty header record (U "sample_id")).
    apply (proj1 (header_has_In _ _) Hc). now left.
Qed.

(** The parse returns [l] exactly when the first record has the mandatory
    fields, no record raises, and [l] holds, in row order, the read unit of
    each record that is not blank: one for each row, none left out, none
    merged, and nothing at all if one row fails. *)
Theorem one_readunit_per_row (csv : str) (l : list pydict) :
  parse_readunits_from_csv csv = Ok l <->
  exists header records,
    excel_reader csv = Ok header :: map Ok records
    /\ header_has MANDATORY_FIELDS header = true
    /\ Forall2
         (fun record ru => readunit_of_row (Csv.row_dict header record) = Ok ru)
         (filter nonblank records) l.
Proof.
  split; [apply parse_Ok_rows|].
  unfold parse_readunits_from_csv, Csv.DictReader_of, excel_reader.
  intros [header [records [-> [Hc Hall]]]].
  cbn [bind Csv.fieldnames Csv.rows].
  rewrite (proj2 (check_header_Ok _ _) Hc). cbn [bind].
  apply parse_rows_Ok.
  exists (map (Csv.row_dict header) (filter nonblank records)), l.
  split; [|split; [|reflexivity]].
  - apply dict_rows_Ok. now exists records.
  - rewrite filter_all.
    + now apply Forall2_map_l.
    + intros d Hd. apply in_map_iff in Hd as [record [<- _]].
      apply negb_true_iff, eqb_neq.
      apply (row_dict_nonempty header record (U "sample_id")).
      apply (proj1 (header_has_In _ _) Hc). now left.
Qed.

Lemma one_readunit_per_row_witness :
  exists header records,
    excel_reader blank_fq2_sheet = Ok header :: map Ok records
    /\ header_has MANDATORY_FIELDS header = true
    /\ Forall2
         (fun record ru =>
            readunit_of_row (Csv.row_dict header record) = Ok ru)
         (filter nonblank records)
         [[(Some (U "sample_id"), VStr (U "S1"));
           (Some (U "fq1"), VStr (U "a.fq")); (Some (U "fq2"), VStr [])]].
Proof.
  apply (one_readunit_per_row blank_fq2_sheet).
  vm_compute. reflexivity.
Defined.

(** ** The order of the fields of a read unit *)

Lemma keys_dict_set_fresh {K V} `{EqDec K} (d : dict K V) k v :
  ~ In k (keys d) -> keys (dict_set d k v) = keys d ++ [k].
Proof.
  intros Hn. rewrite dict_set_fresh by assumption.
  unfold keys. now rewrite map_app.
Qed.

Lemma NoDup_keys_dict_zip (fs vs : list str) (d : pydict) :
  NoDup (keys d) -> NoDup (keys (Csv.dict_zip fs vs d)).
Proof.
  revert vs d. induction fs as [|f fs IH]; intros [|v vs] d Hd; simpl; auto.
  apply IH. now apply NoDup_keys_dict_set.
Qed.

Lemma NoDup_keys_fill_restval (names : list str) (d : pydict) :
  NoDup (keys d) -> NoDup (keys (Csv.fill_restval names d)).
Proof.
  unfold Csv.fill_restval. revert d.
  induction names as [|n names IH]; intros d Hd; simpl; auto.
  apply IH. now apply NoDup_keys_dict_set.
Qed.

(** A row is a [dict]: no key twice. *)
Lemma NoDup_keys_row_dict (header record : list str) :
  NoDup (keys (Csv.row_dict header record)).
Proof.
  assert (H0 : NoDup (keys ([] : pydict))) by constructor.
  unfold Csv.row_dict.
  destruct (length header <? length record)%nat;
    [|destruct (length record <? length header)%nat].
  - now apply NoDup_keys_dict_set, NoDup_keys_dict_zip.
  - now apply NoDup_keys_fill_restval, NoDup_keys_dict_zip.
  - now apply NoDup_keys_dict_zip.
Qed.

Lemma keys_mandatory_loop (fs : list str) (row ru ru' : pydict) :
  mandatory_loop fs row ru = Ok ru' ->
  NoDup fs -> (forall f, In f fs -> ~ In (Some f) (keys ru)) ->
  keys ru' = keys ru ++ map Some fs.
Proof.
  revert ru. induction fs as [|f fs IH]; intros ru Hloop Hnd Hfresh.
  - injection Hloop as <-. simpl. now rewrite app_nil_r.
  - cbn [mandatory_loop] in Hloop.
    destruct (getitem row f) as [v|e]; [|discriminate].
    cbn [bind] in Hloop. destruct (truthy v); [|discriminate].
    destruct (py_strip v) as [s|e]; [|discriminate].
    cbn [bind] in Hloop. inversion Hnd as [|? ? Hf Hnd']; subst.
    assert (Hk : keys (dict_set ru (Some f) s) = keys ru ++ [Some f]).
    { apply keys_dict_set_fresh. apply Hfresh. now left. }
    rewrite (IH _ Hloop Hnd'), Hk.
    + cbn [map]. now rewrite <- app_assoc.
    + intros f' Hf'. rewrite Hk, in_app_iff. intros [Hin|[[= ->]|[]]].
      * apply (Hfresh f'); [now right | assumption].
      * contradiction.
Qed.

Lemma keys_recommended_loop (fs : list str) (row ru ru' : pydict) :
  recommended_loop fs row ru = Ok ru' ->
  NoDup fs -> (forall f, In f fs -> ~ In (Some f) (keys ru)) ->
  keys ru' = keys ru ++ map Some (filter (has_value row) fs).
Proof.
  revert ru. induction fs as [|f fs IH]; intros ru Hloop Hnd Hfresh.
  - injection Hloop as <-. simpl. now rewrite app_nil_r.
  - cbn [recommended_loop] in Hloop. unfold getitem in Hloop.
    cbn [filter]. unfold has_value at 1.
    destruct (dict_get row (Some f)) as [v|]; [|discriminate].
    cbn [bind] in Hloop. inversion Hnd as [|? ? Hf Hnd']; subst.
    destruct (truthy v).
    + destruct (py_strip v) as [s|e]; [|discriminate].
      cbn [bind] in Hloop.
      assert (Hk : keys (dict_set ru (Some f) s) = keys ru ++ [Some f]).
      { apply keys_dict_set_fresh. apply Hfresh. now left. }
      rewrite (IH _ Hloop Hnd'), Hk.
      * cbn [map]. now rewrite <- app_assoc.
      * intros f' Hf'. rewrite Hk, in_app_iff. intros [Hin|[[= ->]|[]]].
        -- apply (Hfresh f'); [now right | assumption].
        -- contradiction.
    + apply (IH _ Hloop Hnd'). intros f' Hf'. apply Hfresh. now right.
Qed.

Lemma keys_auxiliary_loop (items ru : pydict) :
  NoDup (keys items) ->
  (forall k, In k (keys items) -> is_schema_key k = false ->
     ~ In k (keys ru)) ->
  keys (auxiliary_loop items ru)
  = keys ru ++ filter (fun k => negb (is_schema_key k)) (keys items).
Proof.
  revert ru. induction items as [|[k v] items IH]; intros ru Hnd Hfresh.
  - simpl. now rewrite app_nil_r.
  - change (keys ((k, v) :: items)) with (k :: keys items) in *.
    cbn [auxiliary_loop filter].
    inversion Hnd as [|? ? Hk Hnd']; subst.
    destruct (is_schema_key k) eqn:Ek; cbn [negb].
    + apply (IH _ Hnd'). intros k' Hk'. apply Hfresh. now right.
    + assert (Hset : keys (dict_set ru k v) = keys ru ++ [k]).
      { apply keys_dict_set_fresh. apply Hfresh; [now left | assumption]. }
      rewrite (IH _ Hnd'), Hset.
      * now rewrite <- app_assoc.
      * intros k' Hk' Hs. rewrite Hset, in_app_iff. intros [Hin|[<-|[]]].
        -- apply (Hfresh k'); [now right | assumption | assumption].
        -- contradiction.
Qed.

Lemma keys_dict_zip (fs vs : list str) (d : pydict) :
  NoDup fs -> (forall f, In f fs -> ~ In (Some f) (keys d)) ->
  keys (Csv.dict_zip fs vs d) = keys d ++ map Some (firstn (length vs) fs).
Proof.
  revert vs d. induction fs as [|f fs IH]; intros vs d Hnd Hfresh.
  - simpl. rewrite firstn_nil. simpl. now rewrite app_nil_r.
  - destruct vs as [|v vs]; [simpl; now rewrite app_nil_r|].
    cbn [Csv.dict_zip length firstn map].
    inversion Hnd as [|? ? Hf Hnd']; subst.
    assert (Hk : keys (dict_set d (Some f) (VStr v)) = keys d ++ [Some f]).
    { apply keys_dict_set_fresh. apply Hfresh. now left. }
    rewrite (IH _ _ Hnd'), Hk.
    + now rewrite <- app_assoc.
    + intros f' Hf'. rewrite Hk, in_app_iff. intros [Hin|[[= ->]|[]]].
      * apply (Hfresh f'); [now right | assumption].
      * contradiction.
Qed.

(** The keys of a row with as many values as the header, all different,
    has columns: the columns, in order. *)
Lemma keys_row_dict_regular (header record : list str) :
  NoDup header -> length record = length header ->
  keys (Csv.row_dict header record) = map Some header.
Proof.
  intros Hnd Hlen. unfold Csv.row_dict. rewrite Hlen, Nat.ltb_irrefl.
  rewrite keys_dict_zip by (auto; intros f _ []).
  rewrite Hlen, firstn_all. reflexivity.
Qed.

(** The fields of a read unit come in this order: the mandatory fields, in
    the order of [MANDATORY_FIELDS]; then the recommended fields that have a
    value in the row, in the order of [RECOMMENDED_FIELDS]; then the other
    keys of the row, in the order of the row, which is the order of the
    columns when the header has no name twice and the row a value for each
    column. This is the order in which the values are hashed. *)
Theorem fields_come_in_schema_order (header record : list str) (ru : pydict) :
  readunit_of_row (Csv.row_dict header record) = Ok ru ->
  keys ru
  = map Some MANDATORY_FIELDS
    ++ map Some (filter (has_value (Csv.row_dict header record))
                   RECOMMENDED_FIELDS)
    ++ filter (fun k => negb (is_schema_key k))
         (keys (Csv.row_dict header record))
  /\ (NoDup header -> length record = length header ->
      keys (Csv.row_dict header record) = map Some header).
Proof.
  intros Hrow. split; [|apply keys_row_dict_regular].
  destruct (readunit_of_row_Ok _ ru Hrow) as [ru1 [ru2 [H1 [H2 ->]]]].
  assert (Hnm : NoDup MANDATORY_FIELDS).
  { repeat constructor; simpl; intuition discriminate. }
  assert (Hnr : NoDup RECOMMENDED_FIELDS).
  { repeat constructor; simpl; intuition discriminate. }
  assert (K1 : keys ru1 = map Some MANDATORY_FIELDS).
  { rewrite (keys_mandatory_loop _ _ _ _ H1 Hnm); [reflexivity|].
    intros f _ []. }
  assert (K2 : keys ru2
               = keys ru1
                 ++ map Some (filter (has_value (Csv.row_dict header record))
                                RECOMMENDED_FIELDS)).
  { apply (keys_recommended_loop _ _ _ _ H2 Hnr).
    intros f Hf. rewrite K1, In_map_Some.
    intros Hm. exact (mandatory_not_recommended f Hm Hf). }
  rewrite keys_auxiliary_loop.
  - rewrite K2, K1. now rewrite <- app_assoc.
  - apply NoDup_keys_row_dict.
  - intros k _ Hk Hin. rewrite K2, K1 in Hin.
    assert (Hs : is_schema_key k = true); [|congruence].
    apply in_app_iff in Hin as [Hin|Hin];
      apply in_map_iff in Hin as [f [<- Hf]].
    + now apply mandatory_is_schema_key.
    + apply filter_In in Hf as [Hf _]. now apply recommended_is_schema_key.
Qed.

Lemma fields_come_in_schema_order_witness :
  keys [(Some (U "sample_id"), VStr (U "S1"));
        (Some (U "fq1"), VStr (U "a_R1.fq.gz"));
        (Some (U "run_id"), VStr (U "run7"))]
  = map Some MANDATORY_FIELDS
    ++ map Some (filter (has_value (Csv.row_dict full_header empty_fq2_record))
                   RECOMMENDED_FIELDS)
    ++ filter (fun k => negb (is_schema_key k))
         (keys (Csv.row_dict full_header empty_fq2_record)).
Proof.
  apply (fields_come_in_schema_order full_header empty_fq2_record).
  vm_compute. reflexivity.
Defined.

(** ** The other columns are copied as they are *)

Lemma auxiliary_loop_get (items ru : pydict) (k : pykey) :
  NoDup (keys items) -> is_schema_key k = false ->
  dict_get (auxiliary_loop items ru) k
  = match dict_get items k with
    | Some v => Some v
    | None => dict_get ru k
    end.
Proof.
  intros Hnd Hk. revert ru.
  induction items as [|[k0 v0] items IH]; intros ru; [reflexivity|].
  change (keys ((k0, v0) :: items)) with (k0 :: keys items) in Hnd.
  inversion Hnd as [|? ? Hk0 Hnd']; subst.
  cbn [auxiliary_loop dict_get].
  destruct (is_schema_key k0) eqn:E0.
  - assert (E : eqb k k0 = false) by (apply eqb_neq; congruence).
    rewrite E. now apply IH.
  - rewrite (IH Hnd'). destruct (eqb k k0) eqn:E.
    + apply eqb_eq in E. subst k0.
      apply dict_get_None in Hk0. rewrite Hk0. apply dict_get_set_same.
    + apply eqb_neq in E.
      destruct (dict_get items k); [reflexivity|].
      now apply dict_get_set_other.
Qed.

Lemma readunit_of_row_auxiliary (row ru : pydict) (k : pykey) :
  readunit_of_row row = Ok ru -> NoDup (keys row) ->
  is_schema_key k = false -> dict_get ru k = dict_get row k.
Proof.
  intros Hrow Hnd Hk.
  destruct (readunit_of_row_Ok row ru Hrow) as [ru1 [ru2 [H1 [H2 ->]]]].
  rewrite (auxiliary_loop_get row ru2 k Hnd Hk).
  destruct (dict_get row k); [reflexivity|].
  destruct (recommended_loop_Ok _ _ _ _ H2) as [_ Hout2].
  destruct (mandatory_loop_Ok _ _ _ _ H1) as [_ Hout1].
  assert (Hnot : forall fs, (forall f, In f fs -> is_schema_key (Some f) = true)
                            -> ~ In k (map Some fs)).
  { intros fs Hfs Hin. apply in_map_iff in Hin as [f [<- Hf]].
    rewrite (Hfs f Hf) in Hk. discriminate. }
  rewrite Hout2 by (apply Hnot, recommended_is_schema_key).
  rewrite Hout1 by (apply Hnot, mandatory_is_schema_key).
  reflexivity.
Qed.

Lemma dict_get_dict_zip_other (fs vs : list str) (d : pydict) (k : pykey) :
  ~ In k (map Some fs) ->
  dict_get (Csv.dict_zip fs vs d) k = dict_get d k.
Proof.
  revert vs d. induction fs as [|f fs IH]; intros [|v vs] d Hn; simpl; auto.
  simpl in Hn. rewrite IH by tauto.
  apply dict_get_set_other. intros ->. tauto.
Qed.

Lemma dict_get_fill_restval_other (names : list str) (d : pydict) (k : pykey) :
  ~ In k (map Some names) ->
  dict_get (Csv.fill_restval names d) k = dict_get d k.
Proof.
  unfold Csv.fill_restval. revert d.
  induction names as [|n names IH]; intros d Hn; simpl; auto.
  simpl in Hn. rewrite IH by tauto.
  apply dict_get_set_other. intros ->. tauto.
Qed.

Lemma dict_get_dict_zip_nth (fs vs : list str) (d : pydict) (i : nat) :
  NoDup fs -> (i < length fs)%nat -> (i < length vs)%nat ->
  dict_get (Csv.dict_zip fs vs d) (Some (nth i fs []))
  = Some (VStr (nth i vs [])).
Proof.
  revert vs d i. induction fs as [|f fs IH]; intros vs d i Hnd Hf Hv;
    [simpl in Hf; lia|].
  destruct vs as [|v vs]; [simpl in Hv; lia|].
  inversion Hnd as [|? ? Hnf Hnd']; subst. cbn [Csv.dict_zip].
  destruct i as [|i]; cbn [nth].
  - rewrite (dict_get_dict_zip_other fs vs _ (Some f)).
    + apply dict_get_set_same.
    + intros Hin. apply (proj1 (In_map_Some f fs)) in Hin. contradiction.
  - apply IH; [assumption | simpl in Hf; lia | simpl in Hv; lia].
Qed.

Lemma NoDup_app_disjoint {A} (l1 l2 : list A) (x : A) :
  NoDup (l1 ++ l2) -> In x l1 -> ~ In x l2.
Proof.
  induction l1 as [|a l1 IH]; simpl; [tauto|].
  intros Hnd [->|Hin] Hx.
  - inversion Hnd as [|? ? Hn _]; subst. apply Hn, in_or_app. now right.
  - inversion Hnd; subst. now apply IH.
Qed.

(** Under a header without a name twice, a row has, under the name of a
    column, the field of the record at the place of the column. *)
Lemma row_dict_nth (header record : list str) (i : nat) :
  NoDup header -> (i < length header)%nat -> (i < length record)%nat ->
  dict_get (Csv.row_dict header record) (Some (nth i header []))
  = Some (VStr (nth i record [])).
Proof.
  intros Hnd Hh Hr. unfold Csv.row_dict.
  destruct (length header <? length record)%nat;
    [|destruct (length record <? length header)%nat].
  - rewrite dict_get_set_other by discriminate.
    now apply dict_get_dict_zip_nth.
  - rewrite dict_get_fill_restval_other; [now apply dict_get_dict_zip_nth|].
    intros Hin. apply (proj1 (In_map_Some _ _)) in Hin. revert Hin.
    assert (Hfirst : nth i header []
                     = nth i (firstn (length record) header) []).
    { rewrite <- (firstn_skipn (length record) header) at 1.
      apply app_nth1. rewrite length_firstn. lia. }
    rewrite <- (firstn_skipn (length record) header) in Hnd.
    apply (NoDup_app_disjoint _ _ _ Hnd). rewrite Hfirst.
    apply nth_In. rewrite length_firstn. lia.
  - now apply dict_get_dict_zip_nth.
Qed.

(** A column that is neither mandatory nor recommended is copied into the
    read unit as the row has it: same key, same value, not trimmed, empty or
    not. Under a header without a name twice that value is the field of the
    record in that column. *)
Theorem auxiliary_fields_are_copied (header record : list str) (ru : pydict) :
  readunit_of_row (Csv.row_dict header record) = Ok ru ->
  (forall k, is_schema_key k = false ->
     dict_get ru k = dict_get (Csv.row_dict header record) k)
  /\ (NoDup header ->
      forall i, (i < length header)%nat -> (i < length record)%nat ->
        is_schema_key (Some (nth i header [])) = false ->
        dict_get ru (Some (nth i header [])) = Some (VStr (nth i record []))).
Proof.
  intros Hrow.
  assert (Haux : forall k, is_schema_key k = false ->
            dict_get ru k = dict_get (Csv.row_dict header record) k).
  { intros k Hk. apply readunit_of_row_auxiliary; auto.
    apply NoDup_keys_row_dict. }
  split; [exact Haux|].
  intros Hnd i Hh Hr Hk. rewrite (Haux _ Hk). now apply row_dict_nth.
Qed.

Lemma auxiliary_fields_are_copied_witness :
  dict_get
    [(Some (U "sample_id"), VStr (U "S1")); (Some (U "fq1"), VStr (U "a.fq"));
     (Some (U "note"), VStr (U " kept as is ")); (Some (U "batch"), VStr [])]
    (Some (U "note"))
  = Some (VStr (U " kept as is ")).
Proof.
  destruct (auxiliary_fields_are_copied
              (full_header ++ [U "note"; U "batch"])
              [U " S1"; U "a.fq "; []; []; []; []; []; U " kept as is "; []]
              [(Some (U "sample_id"), VStr (U "S1"));
               (Some (U "fq1"), VStr (U "a.fq"));
               (Some (U "note"), VStr (U " kept as is "));
               (Some (U "batch"), VStr [])])
    as [_ Hcol].
  - vm_compute. reflexivity.
  - assert (Hnd : NoDup (full_header ++ [U "note"; U "batch"])).
    { repeat constructor; simpl; intuition discriminate. }
    apply (Hcol Hnd 7%nat); [simpl; lia | simpl; lia | reflexivity].
Defined.

(** ** What every read unit of a parse is like *)

Lemma lstrip_head (s : str) :
  lstrip s = [] \/ exists c t, lstrip s = c :: t /\ isspace c = false.
Proof.
  induction s as [|c s IH]; simpl; [now left|].
  destruct (isspace c) eqn:E; [exact IH|]. right. now exists c, s.
Qed.

Lemma lstrip_nonspace (c : N) (t : str) :
  isspace c = false -> lstrip (c :: t) = c :: t.
Proof. intros E. simpl. now rewrite E. Qed.

Lemma lstrip_idem (s : str) : lstrip (lstrip s) = lstrip s.
Proof.
  destruct (lstrip_head s) as [->|[c [t [-> E]]]]; [reflexivity|].
  now apply lstrip_nonspace.
Qed.

Lemma lstrip_app_nonspace (u : str) (c : N) :
  isspace c = false -> lstrip (u ++ [c]) = lstrip u ++ [c].
Proof.
  intros E. induction u as [|x u IH]; simpl.
  - now rewrite E.
  - destruct (isspace x); [exact IH | reflexivity].
Qed.

Lemma rstrip_cons_nonspace (c : N) (t : str) :
  isspace c = false -> rstrip (c :: t) = c :: rstrip t.
Proof.
  intros E. unfold rstrip. cbn [rev].
  rewrite lstrip_app_nonspace by assumption.
  now rewrite rev_unit.
Qed.

Lemma rstrip_idem (t : str) : rstrip (rstrip t) = rstrip t.
Proof. unfold rstrip. now rewrite rev_involutive, lstrip_idem. Qed.

(** What [strip] returns has no blank at either end: [strip] leaves it as it
    is. *)
Lemma strip_trimmed (s : str) : trimmed (strip s).
Proof.
  unfold trimmed, strip. split; [|apply rstrip_idem].
  destruct (lstrip_head s) as [->|[c [t [-> E]]]]; [reflexivity|].
  rewrite rstrip_cons_nonspace by assumption.
  now apply lstrip_nonspace.
Qed.

(** The key deriver raises on a value that is not a [str]. *)
Lemma md5_feed_Ok_str (d : pydict) (m m' : Md5.md5) :
  md5_feed d m = Ok m' -> Forall (fun kv => exists s, snd kv = VStr s) d.
Proof.
  revert m. induction d as [|[k v] d IH]; intros m Hfeed; [constructor|].
  rewrite md5_feed_cons in Hfeed.
  destruct v as [s| |l]; try (destruct (is_file_key k); discriminate).
  constructor; [now exists s|].
  destruct (if is_file_key k then py_basename (VStr s) else Ok (VStr s))
    as [v'|e]; [|discriminate].
  cbn [bind] in Hfeed. destruct (py_encode v') as [b|e]; [|discriminate].
  cbn [bind] in Hfeed. exact (IH _ Hfeed).
Qed.

Lemma mandatory_loop_NoDup (fs : list str) (row ru ru' : pydict) :
  mandatory_loop fs row ru = Ok ru' -> NoDup (keys ru) -> NoDup (keys ru').
Proof.
  revert ru. induction fs as [|f fs IH]; intros ru Hloop Hnd.
  - now injection Hloop as <-.
  - cbn [mandatory_loop] in Hloop.
    destruct (getitem row f) as [v|e]; [|discriminate].
    cbn [bind] in Hloop. destruct (truthy v); [|discriminate].
    destruct (py_strip v) as [s|e]; [|discriminate].
    cbn [bind] in Hloop. apply (IH _ Hloop). now apply NoDup_keys_dict_set.
Qed.

Lemma recommended_loop_NoDup (fs : list str) (row ru ru' : pydict) :
  recommended_loop fs row ru = Ok ru' -> NoDup (keys ru) -> NoDup (keys ru').
Proof.
  revert ru. induction fs as [|f fs IH]; intros ru Hloop Hnd.
  - now injection Hloop as <-.
  - cbn [recommended_loop] in Hloop.
    destruct (getitem row f) as [v|e]; [|discriminate].
    cbn [bind] in Hloop. destruct (truthy v).
    + destruct (py_strip v) as [s|e]; [|discriminate].
      cbn [bind] in Hloop. apply (IH _ Hloop). now apply NoDup_keys_dict_set.
    + now apply (IH _ Hloop).
Qed.

Lemma auxiliary_loop_NoDup (items ru : pydict) :
  NoDup (keys ru) -> NoDup (keys (auxiliary_loop items ru)).
Proof.
  revert ru. induction items as [|[k v] items IH]; intros ru Hnd;
    [assumption|].
  cbn [auxiliary_loop]. destruct (is_schema_key k); [now apply IH|].
  apply IH. now apply NoDup_keys_dict_set.
Qed.

Lemma row_dict_None (header record : list str) (v : pyval) :
  dict_get (Csv.row_dict header record) None = Some v ->
  exists l, v = VList l.
Proof.
  unfold Csv.row_dict.
  destruct (length header <? length record)%nat;
    [|destruct (length record <? length header)%nat].
  - rewrite dict_get_set_same. intros [= <-]. eauto.
  - rewrite dict_get_fill_restval_other
      by (intros Hin; apply in_map_iff in Hin as [f [[=] _]]).
    rewrite dict_get_dict_zip_other
      by (intros Hin; apply in_map_iff in Hin as [f [[=] _]]).
    discriminate.
  - rewrite dict_get_dict_zip_other
      by (intros Hin; apply in_map_iff in Hin as [f [[=] _]]).
    discriminate.
Qed.

Lemma readunit_of_row_well_formed (header record : list str) (ru : pydict) :
  readunit_of_row (Csv.row_dict header record) = Ok ru ->
  well_formed header ru.
Proof.
  intros Hrow.
  destruct (readunit_of_row_Ok _ ru Hrow) as [ru1 [ru2 [H1 [H2 Hru]]]].
  assert (Hnd : NoDup (keys ru)).
  { subst ru. apply auxiliary_loop_NoDup.
    apply (recommended_loop_NoDup _ _ _ _ H2).
    apply (mandatory_loop_NoDup _ _ _ _ H1). constructor. }
  assert (Hstr : Forall (fun kv => exists s, snd kv = VStr s) ru).
  { unfold readunit_of_row in Hrow. rewrite H1 in Hrow. cbn [bind] in Hrow.
    rewrite H2 in Hrow. cbn [bind] in Hrow. rewrite <- Hru in Hrow.
    unfold key_for_readunit in Hrow.
    destruct (md5_feed ru Md5.new) as [m|e] eqn:Em; [|discriminate].
    exact (md5_feed_Ok_str _ _ _ Em). }
  split; [exact Hnd|]. split; [|split].
  - intros k v Hin. rewrite Forall_forall in Hstr.
    destruct (Hstr _ Hin) as [s Hs]. cbn [snd] in Hs. subst v.
    pose proof (In_dict_get _ _ _ Hnd Hin) as Hget.
    destruct k as [f|].
    + exists f, s. split; [reflexivity|]. split; [|reflexivity].
      destruct (is_schema_key (Some f)) eqn:Es.
      * (* a mandatory or recommended field: the row was asked for it *)
        cbn [is_schema_key] in Es. apply orb_true_iff in Es as [Es|Es];
          apply py_in_In in Es.
        -- destruct (readunit_of_row_mandatory _ ru f Hrow Es)
             as [c [s' [Hraw _]]].
           apply (In_keys_row_dict header record).
           apply dict_get_In in Hraw. change (Some f) with (fst (Some f, VStr (c :: s'))).
           now apply in_map.
        -- destruct (readunit_of_row_recommended _ ru f Hrow Es)
             as [v [Hraw _]].
           apply (In_keys_row_dict header record).
           apply dict_get_In in Hraw. change (Some f) with (fst (Some f, v)).
           now apply in_map.
      * rewrite (readunit_of_row_auxiliary _ ru (Some f) Hrow
                   (NoDup_keys_row_dict header record) Es) in Hget.
        apply (In_keys_row_dict header record).
        apply dict_get_In in Hget. change (Some f) with (fst (Some f, VStr s)).
        now apply in_map.
    + rewrite (readunit_of_row_auxiliary _ ru None Hrow
                 (NoDup_keys_row_dict header record) eq_refl) in Hget.
      apply row_dict_None in Hget as [l Hl]. discriminate.
  - intros f Hf.
    destruct (readunit_of_row_mandatory _ ru f Hrow Hf) as [c [s [_ Hget]]].
    exists (strip (c :: s)). split; [assumption | apply strip_trimmed].
  - intros f s Hf Hget.
    destruct (readunit_of_row_recommended _ ru f Hrow Hf) as [v [_ Hcase]].
    destruct (truthy v).
    + destruct Hcase as [s' [_ Hget']]. rewrite Hget in Hget'.
      injection Hget' as ->. apply strip_trimmed.
    + rewrite Hget in Hcase. discriminate.
Qed.

(** Every read unit that a parse returns is well formed under the header of
    the sheet: no field twice, every key the name of a column, every value a
    [str] (never [None], never a list), the mandatory fields there, and the
    mandatory and recommended values without a blank at either end. *)
Theorem parsed_readunits_are_well_formed (csv : str) (l : list pydict) :
  parse_readunits_from_csv csv = Ok l ->
  exists header rest,
    excel_reader csv = Ok header :: rest
    /\ Forall (well_formed header) l.
Proof.
  intros Hparse.
  apply parse_Ok_rows in Hparse as [header [records [Hr [_ Hall]]]].
  exists header, (map Ok records). split; [assumption|].
  induction Hall as [|record ru recs l Hru _ IH]; constructor;
    [|assumption].
  now apply (readunit_of_row_well_formed header record).
Qed.

Lemma parsed_readunits_are_well_formed_witness :
  exists header rest,
    excel_reader blank_fq2_sheet = Ok header :: rest
    /\ Forall (well_formed header)
         [[(Some (U "sample_id"), VStr (U "S1"));
           (Some (U "fq1"), VStr (U "a.fq")); (Some (U "fq2"), VStr [])]].
Proof.
  apply (parsed_readunits_are_well_formed blank_fq2_sheet).
  vm_compute. reflexivity.
Defined.

(** ** Rows with too many or too few fields *)

Lemma Forall_dict_set {K V} `{EqDec K} (P : K * V -> Prop) (d : dict K V) k v :
  Forall P d -> P (k, v) -> Forall P (dict_set d k v).
Proof.
  intros Hd Hv. induction Hd as [|[k' v'] d Hkv Hd IH]; simpl.
  - repeat constructor. exact Hv.
  - match goal with |- context [if ?c then _ else _] => destruct c end;
      constructor; assumption.
Qed.

Lemma Forall_dict_zip (P : pykey * pyval -> Prop) (fs vs : list str)
  (d : pydict) :
  Forall P d -> (forall f v, In v vs -> P (Some f, VStr v)) ->
  Forall P (Csv.dict_zip fs vs d).
Proof.
  revert vs d. induction fs as [|f fs IH]; intros [|v vs] d Hd Hvs; simpl; auto.
  apply IH.
  - apply Forall_dict_set; [assumption|]. apply Hvs. now left.
  - intros f' v' Hv'. apply Hvs. now right.
Qed.

Lemma Forall_fill_restval (P : pykey * pyval -> Prop) (names : list str)
  (d : pydict) :
  Forall P d -> (forall f, In f names -> P (Some f, VNone)) ->
  Forall P (Csv.fill_restval names d).
Proof.
  unfold Csv.fill_restval. revert d.
  induction names as [|n names IH]; intros d Hd Hn; simpl; auto.
  apply IH.
  - apply Forall_dict_set; [assumption|]. apply Hn. now left.
  - intros f Hf. apply Hn. now right.
Qed.

Lemma forallb_In {A} (p : A -> bool) (l : list A) (x : A) :
  forallb p l = true -> In x l -> p x = true.
Proof. intros H. now apply forallb_forall. Qed.

Lemma row_dict_str_encodable (header record : list str) :
  forallb encodable record = true ->
  Forall str_encodable (Csv.row_dict header record).
Proof.
  intros Henc. unfold Csv.row_dict.
  assert (Hzip : Forall str_encodable (Csv.dict_zip header record [])).
  { apply Forall_dict_zip; [constructor|]. intros f v Hv.
    exact (forallb_In _ _ _ Henc Hv). }
  destruct (length header <? length record)%nat;
    [|destruct (length record <? length header)%nat].
  - apply Forall_dict_set; [assumption | exact I].
  - apply Forall_fill_restval; [assumption | intros f _; exact I].
  - assumption.
Qed.

Lemma str_encodable_get (d : pydict) (k : pykey) (s : str) :
  Forall str_encodable d -> dict_get d k = Some (VStr s) ->
  encodable s = true.
Proof.
  intros Hd Hg. apply dict_get_In in Hg. rewrite Forall_forall in Hd.
  exact (Hd _ Hg).
Qed.

Lemma mandatory_loop_stays_encodable (fs : list str) (row ru ru' : pydict) :
  Forall str_encodable row -> all_encodable ru ->
  mandatory_loop fs row ru = Ok ru' -> all_encodable ru'.
Proof.
  intros Hrow. revert ru. induction fs as [|f fs IH]; intros ru Hru Hloop.
  - now injection Hloop as <-.
  - cbn [mandatory_loop] in Hloop.
    destruct (getitem row f) as [v|e] eqn:Hget; [|discriminate].
    apply getitem_Ok in Hget. cbn [bind] in Hloop.
    destruct (truthy v); [|discriminate].
    destruct v as [s| |l]; try discriminate.
    cbn [py_strip bind] in Hloop. apply IH in Hloop; [assumption|].
    apply all_encodable_set; [assumption|].
    apply encodable_strip. exact (str_encodable_get _ _ _ Hrow Hget).
Qed.

Lemma recommended_loop_stays_encodable (fs : list str) (row ru ru' : pydict) :
  Forall str_encodable row -> all_encodable ru ->
  recommended_loop fs row ru = Ok ru' -> all_encodable ru'.
Proof.
  intros Hrow. revert ru. induction fs as [|f fs IH]; intros ru Hru Hloop.
  - now injection Hloop as <-.
  - cbn [recommended_loop] in Hloop.
    destruct (getitem row f) as [v|e] eqn:Hget; [|discriminate].
    apply getitem_Ok in Hget. cbn [bind] in Hloop.
    destruct (truthy v); [|now apply IH in Hloop].
    destruct v as [s| |l]; try discriminate.
    cbn [py_strip bind] in Hloop. apply IH in Hloop; [assumption|].
    apply all_encodable_set; [assumption|].
    apply encodable_strip. exact (str_encodable_get _ _ _ Hrow Hget).
Qed.

Lemma file_key_is_schema_key (k : pykey) :
  is_file_key k = true -> is_schema_key k = true.
Proof.
  destruct k as [f|]; [|discriminate]. cbn [is_file_key is_schema_key].
  intros Hf. apply py_in_In in Hf. apply orb_true_iff.
  destruct Hf as [<-|[<-|[]]]; [left | right]; reflexivity.
Qed.

Lemma auxiliary_loop_hashes_or_raises (items ru : pydict) :
  Forall str_encodable items -> Forall hashes_or_raises ru ->
  Forall hashes_or_raises (auxiliary_loop items ru).
Proof.
  intros Hitems. revert ru.
  induction Hitems as [|[k v] items Hv _ IH]; intros ru Hru; [assumption|].
  cbn [auxiliary_loop]. destruct (is_schema_key k) eqn:Ek; [now apply IH|].
  apply IH. apply Forall_dict_set; [assumption|].
  unfold hashes_or_raises, str_encodable in *. cbn [fst snd] in *.
  destruct v as [s| |l].
  - now left.
  - right. split; [|exact I].
    destruct (is_file_key k) eqn:Ef; [|reflexivity].
    apply file_key_is_schema_key in Ef. congruence.
  - right. split; [|exact I].
    destruct (is_file_key k) eqn:Ef; [|reflexivity].
    apply file_key_is_schema_key in Ef. congruence.
Qed.

(** On items that it hashes or on which it raises, one of them not a [str],
    the key deriver raises an [AttributeError]. *)
Lemma md5_feed_AttributeError (d : pydict) (m : Md5.md5) :
  Forall hashes_or_raises d -> Exists (fun kv => not_str (snd kv)) d ->
  md5_feed d m = Error AttributeError.
Proof.
  intros Hd. revert m.
  induction Hd as [|[k v] d Hkv Hd IH]; intros m Hex; [inversion Hex|].
  rewrite md5_feed_cons. destruct Hkv as [Henc|[Hf Hns]]; cbn [fst snd] in *.
  - destruct v as [s| |l]; [|destruct Henc|destruct Henc]. cbn in Henc.
    inversion Hex as [? ? Hbad|? ? Hex']; subst; [destruct Hbad|].
    destruct (is_file_key k); cbn [py_basename bind py_encode]; unfold encode.
    + rewrite (encodable_basename _ Henc). cbn [bind]. now apply IH.
    + rewrite Henc. cbn [bind]. now apply IH.
  - rewrite Hf. cbn [bind]. destruct v as [s| |l]; [destruct Hns| |];
      reflexivity.
Qed.

Lemma dict_get_fill_restval_in (names : list str) (d : pydict) (f : str) :
  In f names \/ dict_get d (Some f) = Some VNone ->
  dict_get (Csv.fill_restval names d) (Some f) = Some VNone.
Proof.
  unfold Csv.fill_restval. revert d.
  induction names as [|n names IH]; intros d [Hin|Hd]; simpl.
  - destruct Hin.
  - assumption.
  - apply IH. destruct Hin as [->|Hin]; [right | now left].
    apply dict_get_set_same.
  - apply IH. right. rewrite dict_get_set.
    match goal with |- context [if ?c then _ else _] => destruct c end;
      [reflexivity | assumption].
Qed.

Lemma row_dict_short_items (header record : list str) :
  (length record <= length header)%nat ->
  Forall (short_row_item record (skipn (length record) header))
    (Csv.row_dict header record).
Proof.
  intros Hlen. unfold Csv.row_dict.
  assert (E : (length header <? length record)%nat = false)
    by (apply Nat.ltb_ge; lia).
  rewrite E.
  assert (Hzip : Forall (short_row_item record (skipn (length record) header))
                   (Csv.dict_zip header record [])).
  { apply Forall_dict_zip; [constructor|]. intros f v Hv. left. now exists v. }
  destruct (length record <? length header)%nat; [|assumption].
  apply Forall_fill_restval; [assumption|].
  intros f Hf. right. split; [reflexivity|]. now exists f.
Qed.

Lemma auxiliary_loop_copies_encodable (items ru : pydict) :
  (forall k v, In (k, v) items -> is_schema_key k = false ->
     encodable_value v) ->
  all_encodable ru -> all_encodable (auxiliary_loop items ru).
Proof.
  revert ru. induction items as [|[k v] items IH]; intros ru Hitems Hru;
    [assumption|].
  cbn [auxiliary_loop]. destruct (is_schema_key k) eqn:Ek.
  - apply IH; [|assumption]. intros k' v' Hin. apply Hitems. now right.
  - apply IH.
    + intros k' v' Hin. apply Hitems. now right.
    + apply all_encodable_set; [assumption|].
      apply (Hitems k v); [now left | assumption].
Qed.

(** Rows that do not have one field for each column, under a header with
    all the mandatory and recommended fields, with non-empty mandatory
    values and with fields that all encode. A row with more fields than columns fails with an
    [AttributeError]: the fields past the last column are kept as a list,
    which the key deriver cannot hash. A row that stops before a column
    that is neither mandatory nor recommended fails the same way, on the
    [None] it has there. A row that stops before recommended columns only
    makes a read unit. *)
Theorem ragged_rows (header record : list str) :
  header_has MANDATORY_FIELDS header = true ->
  header_has RECOMMENDED_FIELDS header = true ->
  (forall f, In f MANDATORY_FIELDS ->
     raw_nonempty (Csv.row_dict header record) f) ->
  forallb encodable record = true ->
  ((length header < length record)%nat ->
   readunit_of_row (Csv.row_dict header record) = Error AttributeError)
  /\ ((length record < length header)%nat ->
      (exists f, In f (skipn (length record) header)
                 /\ is_schema_key (Some f) = false) ->
      readunit_of_row (Csv.row_dict header record) = Error AttributeError)
  /\ ((length record < length header)%nat ->
      (forall f, In f (skipn (length record) header) ->
         In f RECOMMENDED_FIELDS) ->
      exists ru, readunit_of_row (Csv.row_dict header record) = Ok ru).
Proof.
  intros Hm Hr Hall Henc.
  rewrite header_has_In in Hm, Hr.
  set (row := Csv.row_dict header record) in *.
  pose proof (row_dict_str_encodable header record Henc) as Hrow.
  fold row in Hrow.
  destruct (mandatory_loop_cases MANDATORY_FIELDS row [])
    as [[ru1 [H1 _]]|[f [Hf [He _]]]].
  { intros f Hf. left. now apply Hall. }
  2: { exfalso. exact (raw_nonempty_not_empty row f (Hall f Hf) He). }
  destruct (recommended_loop_total RECOMMENDED_FIELDS row ru1) as [ru2 H2].
  { intros f Hf. apply row_dict_raw. now apply Hr. }
  assert (Henc2 : all_encodable ru2).
  { apply (recommended_loop_stays_encodable RECOMMENDED_FIELDS row ru1 ru2);
      auto.
    apply (mandatory_loop_stays_encodable MANDATORY_FIELDS row [] ru1); auto.
    constructor. }
  assert (Hunfold : readunit_of_row row
                    = _ <- key_for_readunit (auxiliary_loop row ru2) ;;
                      Ok (auxiliary_loop row ru2)).
  { unfold readunit_of_row. rewrite H1. cbn [bind]. now rewrite H2. }
  assert (Hfail : forall k v,
            is_schema_key k = false -> dict_get row k = Some v -> not_str v ->
            readunit_of_row row = Error AttributeError).
  { intros k v Hk Hget Hv. rewrite Hunfold. unfold key_for_readunit.
    rewrite md5_feed_AttributeError; [reflexivity| |].
    - apply auxiliary_loop_hashes_or_raises; [assumption|].
      unfold all_encodable in Henc2. rewrite Forall_forall in *.
      intros kv Hkv. left. now apply Henc2.
    - apply Exists_exists. exists (k, v). split; [|exact Hv].
      apply dict_get_In.
      rewrite (auxiliary_loop_get row ru2 k (NoDup_keys_row_dict _ _) Hk).
      now rewrite Hget. }
  split; [|split].
  - intros Hlong. apply (Hfail None (VList (skipn (length header) record)));
      [reflexivity | | exact I].
    unfold row, Csv.row_dict.
    rewrite (proj2 (Nat.ltb_lt _ _) Hlong). apply dict_get_set_same.
  - intros Hshort [f [Hf Hk]]. apply (Hfail (Some f) VNone Hk); [|exact I].
    unfold row, Csv.row_dict.
    assert (E : (length header <? length record)%nat = false)
      by (apply Nat.ltb_ge; lia).
    rewrite E, (proj2 (Nat.ltb_lt _ _) Hshort).
    apply dict_get_fill_restval_in. now left.
  - intros Hshort Hrec.
    destruct (key_for_readunit_total (auxiliary_loop row ru2)) as [k Hk].
    + apply auxiliary_loop_copies_encodable; [|assumption].
      intros k v Hin Hk.
      pose proof (row_dict_short_items header record) as Hitems.
      rewrite Forall_forall in Hitems.
      destruct (Hitems ltac:(lia) _ Hin) as [[s [Hv Hs]]|[Hv [f [Hkf Hf]]]];
        cbn [fst snd] in *.
      * subst v. exact (forallb_In _ _ _ Henc Hs).
      * subst k. rewrite (recommended_is_schema_key f (Hrec f Hf)) in Hk.
        discriminate.
    + exists (auxiliary_loop row ru2). rewrite Hunfold. now rewrite Hk.
Qed.

Lemma ragged_rows_witness :
  readunit_of_row
    (Csv.row_dict full_header
       [U "S1"; U "a.fq"; []; []; []; []; []; U "one too many"])
  = Error AttributeError.
Proof.
  destruct (ragged_rows full_header
              [U "S1"; U "a.fq"; []; []; []; []; []; U "one too many"])
    as [Hlong _].
  - reflexivity.
  - reflexivity.
  - intros f [<-|[<-|[]]]; unfold raw_nonempty; vm_compute; eauto.
  - reflexivity.
  - apply Hlong. unfold full_header, MANDATORY_FIELDS, RECOMMENDED_FIELDS.
    simpl. lia.
Defined.

(** ** Blank lines *)

Lemma parse_add_char_state (r r' : Csv.reader) (c : N) :
  Csv.parse_add_char r c = Ok r' -> Csv.state r' = Csv.state r.
Proof.
  unfold Csv.parse_add_char.
  destruct (Csv.field_limit <=? N.of_nat (length (Csv.field r)));
    [discriminate|].
  now intros [= <-].
Qed.

(** A character that is not the quote keeps the reader outside quotes. *)
Lemma parse_process_char_unquoted (d : N) (r r' : Csv.reader) (c : N) :
  c <> Csv.quotechar -> unquoted r ->
  Csv.parse_process_char d r (Some c) = Ok r' -> unquoted r'.
Proof.
  intros Hc Hr. apply N.eqb_neq in Hc.
  assert (Hset : forall s r0,
            match s with
            | Csv.IN_QUOTED_FIELD | Csv.QUOTE_IN_QUOTED_FIELD => False
            | _ => True
            end -> unquoted (Csv.set_state s r0)) by (intros s r0 H; exact H).
  unfold unquoted in Hr. unfold Csv.parse_process_char.
  destruct (Csv.state r) eqn:Es; try destruct Hr.
  - (* START_RECORD *)
    destruct (Csv.is_newline c); [intros [= <-]; now apply Hset|].
    rewrite Hc. destruct (c =? d).
    + intros [= <-]. unfold unquoted. exact I.
    + destruct (Csv.parse_add_char (Csv.set_state Csv.START_FIELD r) c)
        as [r1|e]; [|discriminate].
      intros [= <-]. now apply Hset.
  - (* START_FIELD *)
    destruct (Csv.is_newline c); [intros [= <-]; now apply Hset|].
    rewrite Hc. destruct (c =? d).
    + intros [= <-]. unfold unquoted. cbn [Csv.parse_save_field Csv.state].
      now rewrite Es.
    + destruct (Csv.parse_add_char r c) as [r1|e]; [|discriminate].
      intros [= <-]. now apply Hset.
  - (* IN_FIELD *)
    destruct (Csv.is_newline c); [intros [= <-]; now apply Hset|].
    destruct (c =? d); [intros [= <-]; now apply Hset|].
    intros Hadd. apply parse_add_char_state in Hadd.
    unfold unquoted. now rewrite Hadd, Es.
  - (* EAT_CRNL *)
    destruct (Csv.is_newline c); [|discriminate].
    intros [= <-]. unfold unquoted. now rewrite Es.
Qed.

(** A line without a quote, read from outside quotes, ends the record. *)
Lemma parse_line_unquoted (d : N) (line : str) (r : Csv.reader) :
  ~ In Csv.quotechar line -> unquoted r ->
  (exists e, Csv.parse_line d r line = Error e)
  \/ (exists r', Csv.parse_line d r line = Ok r' /\ Csv.at_start r' = true).
Proof.
  revert r. induction line as [|c line IH]; intros r Hq Hr.
  - right. cbn [Csv.parse_line]. unfold Csv.parse_process_char.
    unfold unquoted in Hr.
    destruct (Csv.state r) eqn:Es; try destruct Hr; eexists;
      (split; [reflexivity|]); unfold Csv.at_start;
      cbn [Csv.set_state Csv.parse_save_field Csv.state]; rewrite ?Es;
      reflexivity.
  - cbn [Csv.parse_line].
    destruct (Csv.parse_process_char d r (Some c)) as [r1|e] eqn:E1.
    + cbn [bind]. apply IH.
      * intros Hin. apply Hq. now right.
      * apply (parse_process_char_unquoted d r r1 c); auto.
        intros ->. apply Hq. now left.
    + left. now exists e.
Qed.

Lemma parse_reset_unquoted : unquoted Csv.parse_reset.
Proof. exact I. Qed.

Lemma dict_rows_cons_eq (h : list str) (x : result (list str))
  (a b : list (result (list str))) :
  Csv.dict_rows h a = Csv.dict_rows h b ->
  Csv.dict_rows h (x :: a) = Csv.dict_rows h (x :: b).
Proof.
  intros E. destruct x as [[|v record]|e]; cbn [Csv.dict_rows];
    [assumption | now rewrite E | reflexivity].
Qed.

(** After lines without quotes, a line that is only a newline changes
    nothing in the rows that the [DictReader] yields. *)
Lemma dict_rows_blank_line (d : N) (h : list str) (lines rest : list str) :
  Forall (fun line => ~ In Csv.quotechar line) lines ->
  Csv.dict_rows h (Csv.reader_iter d Csv.parse_reset (lines ++ [10] :: rest))
  = Csv.dict_rows h (Csv.reader_iter d Csv.parse_reset (lines ++ rest)).
Proof.
  induction 1 as [|line lines Hq _ IH].
  - reflexivity.
  - cbn [app Csv.reader_iter].
    destruct (parse_line_unquoted d line Csv.parse_reset Hq
                parse_reset_unquoted) as [[e ->]|[r' [-> Hs]]];
      [reflexivity|].
    rewrite Hs. now apply dict_rows_cons_eq.
Qed.

Lemma universal_newlines_app (pre rest : str) :
  ~ In 13 pre ->
  Csv.universal_newlines (pre ++ rest) = pre ++ Csv.universal_newlines rest.
Proof.
  induction pre as [|c pre IH]; intros Hn; [reflexivity|].
  cbn [app Csv.universal_newlines].
  assert (E : (c =? 13) = false).
  { apply N.eqb_neq. intros ->. apply Hn. now left. }
  rewrite E. f_equal. apply IH. intros Hin. apply Hn. now right.
Qed.

Lemma lines_from_app_nl (cur pre rest : str) :
  Csv.lines_from cur (pre ++ 10 :: rest)
  = Csv.lines_from cur (pre ++ [10]) ++ Csv.lines_from [] rest.
Proof.
  revert cur. induction pre as [|c pre IH]; intros cur.
  - reflexivity.
  - cbn [app Csv.lines_from]. destruct (c =? 10).
    + rewrite IH. reflexivity.
    + apply IH.
Qed.

Lemma lines_from_nl_nonempty (cur pre : str) :
  Csv.lines_from cur (pre ++ [10]) <> [].
Proof.
  revert cur. induction pre as [|c pre IH]; intros cur.
  - discriminate.
  - cbn [app Csv.lines_from]. destruct (c =? 10); [discriminate | apply IH].
Qed.

Lemma lines_from_unquoted (cur s : str) :
  ~ In Csv.quotechar cur -> ~ In Csv.quotechar s ->
  Forall (fun line => ~ In Csv.quotechar line) (Csv.lines_from cur s).
Proof.
  revert cur. induction s as [|c s IH]; intros cur Hcur Hs.
  - cbn [Csv.lines_from]. destruct cur as [|x cur]; [constructor|].
    constructor; [assumption | constructor].
  - assert (Hcur' : ~ In Csv.quotechar (cur ++ [c])).
    { rewrite in_app_iff. intros [Hin|[E|[]]]; [contradiction|].
      apply Hs. left. exact E. }
    assert (Hs' : ~ In Csv.quotechar s) by (intros Hin; apply Hs; now right).
    cbn [Csv.lines_from]. destruct (c =? 10).
    + constructor; [assumption|]. apply IH; [intros [] | assumption].
    + now apply IH.
Qed.

(** An empty line, after text without a quote and without a carriage
    return, changes nothing in what the [DictReader] is. *)
Lemma DictReader_of_blank_line (d : N) (pre post : str) :
  ~ In Csv.quotechar pre -> ~ In 13 pre ->
  Csv.DictReader_of d (pre ++ [10; 10] ++ post)
  = Csv.DictReader_of d (pre ++ [10] ++ post).
Proof.
  intros Hq Hcr. unfold Csv.DictReader_of, Csv.reader_of, Csv.readlines.
  rewrite (universal_newlines_app pre ([10; 10] ++ post) Hcr).
  rewrite (universal_newlines_app pre ([10] ++ post) Hcr).
  change (Csv.universal_newlines ([10; 10] ++ post))
    with (10 :: 10 :: Csv.universal_newlines post).
  change (Csv.universal_newlines ([10] ++ post))
    with (10 :: Csv.universal_newlines post).
  rewrite (lines_from_app_nl [] pre (10 :: Csv.universal_newlines post)).
  rewrite (lines_from_app_nl [] pre (Csv.universal_newlines post)).
  change (Csv.lines_from [] (10 :: Csv.universal_newlines post))
    with ([10] :: Csv.lines_from [] (Csv.universal_newlines post)).
  pose proof (lines_from_nl_nonempty [] pre) as Hne.
  assert (Hall : Forall (fun line => ~ In Csv.quotechar line)
                   (Csv.lines_from [] (pre ++ [10]))).
  { apply lines_from_unquoted; [intros []|].
    rewrite in_app_iff. intros [Hin|[E|[]]]; [contradiction | discriminate]. }
  destruct (Csv.lines_from [] (pre ++ [10])) as [|line lines];
    [congruence|].
  inversion Hall as [|? ? Hline Hlines]; subst.
  cbn [app Csv.reader_iter].
  destruct (parse_line_unquoted d line Csv.parse_reset Hline
              parse_reset_unquoted) as [[e ->]|[r' [-> Hs]]];
    [reflexivity|].
  rewrite Hs.
  now rewrite (dict_rows_blank_line d (Csv.fields r') lines _ Hlines).
Qed.

Lemma dict_rows_never_empty (header : list str)
  (recs : list (result (list str))) (row : pydict) :
  In (Ok row) (Csv.dict_rows header recs) -> row <> [].
Proof.
  induction recs as [|[[|v record]|e] recs IH]; cbn [Csv.dict_rows].
  - intros [].
  - exact IH.
  - intros [[= <-]|Hin]; [|now apply IH].
    destruct header as [|f header].
    + discriminate.
    + apply (row_dict_nonempty (f :: header) (v :: record) f). now left.
  - intros [[=]|[]].
Qed.

(** Blank lines make no row and no error: with an empty line put after any
    text that has no quote and no carriage return in it, the parse returns
    what it returns without that line. It is the [DictReader] that drops
    the blank records; no row that it yields is an empty [dict], so the
    parser's own test for an empty row never holds. *)
Theorem blank_lines_are_skipped (pre post : str) :
  ~ In Csv.quotechar pre -> ~ In 13 pre ->
  parse_readunits_from_csv (pre ++ [10; 10] ++ post)
  = parse_readunits_from_csv (pre ++ [10] ++ post)
  /\ forall header recs row,
       In (Ok row) (Csv.dict_rows header recs) -> row <> [].
Proof.
  intros Hq Hcr. split; [|apply dict_rows_never_empty].
  unfold parse_readunits_from_csv.
  now rewrite DictReader_of_blank_line.
Qed.

Lemma blank_lines_are_skipped_witness :
  parse_readunits_from_csv
    (U "sample_id,fq1,fq2,run_id,flowcell_id,lane_id,library_id"
     ++ [10; 10] ++ U "S1,a.fq,,,,,")
  = parse_readunits_from_csv
      (U "sample_id,fq1,fq2,run_id,flowcell_id,lane_id,library_id"
       ++ [10] ++ U "S1,a.fq,,,,,").
Proof.
  apply (blank_lines_are_skipped
           (U "sample_id,fq1,fq2,run_id,flowcell_id,lane_id,library_id")
           (U "S1,a.fq,,,,,")).
  - intros Hin. simpl in Hin.
    repeat (destruct Hin as [Hin|Hin]; [discriminate|]). exact Hin.
  - intros Hin. simpl in Hin.
    repeat (destruct Hin as [Hin|Hin]; [discriminate|]). exact Hin.
Defined.

(** ** What the document holds *)

Lemma group_readunits_samples (l : list pydict) (keyed : list (str * pydict)) :
  with_keys l = Ok keyed -> keys_derivable l ->
  exists samples,
    group_readunits l = Ok samples
    /\ Forall2 sample_of (groupby (sorted keyed)) samples.
Proof.
  intros Hk Hder. unfold group_readunits. rewrite Hk. cbn [bind].
  destruct (with_keys_Ok l keyed Hk) as [Hsnd _].
  destruct (groupby_sorted (sorted keyed) (sorted_sorted keyed))
    as [Hs [Hrun _]].
  destruct (add_groups_spec (groupby (sorted keyed)) [])
    as [samples [Hadd Hall]].
  - now apply group_lt_NoDup.
  - intros k _ [].
  - rewrite Forall_forall. intros [k g] Hin. cbn [snd].
    rewrite (Hrun k g Hin). unfold run_of. rewrite sorted_stable.
    unfold keys_derivable in *. rewrite Forall_forall in *.
    intros ru Hru. apply Hder. rewrite <- Hsnd.
    apply (run_of_incl k keyed) in Hru.
    change ru with (snd (k, ru)). now apply in_map.
  - exists samples. simpl in Hadd. now split.
Qed.

(** Every entry of the document is a read unit of the input, filed under
    its own sample id and its own key; every read unit of the input has its
    key bound in the sample of its id; and no sample is empty. *)
Theorem document_is_sound (l : list pydict) (keyed : list (str * pydict)) :
  with_keys l = Ok keyed -> all_keyed l = true ->
  exists samples,
    group_readunits l = Ok samples
    /\ (forall sid s k ru,
          dict_get samples sid = Some s ->
          dict_get (readunits s) k = Some ru ->
          In ru l /\ sample_id_of ru = Ok sid /\ key_for_readunit ru = Ok k)
    /\ (forall ru, In ru l ->
          exists sid k s held,
            sample_id_of ru = Ok sid /\ key_for_readunit ru = Ok k
            /\ dict_get samples sid = Some s
            /\ dict_get (readunits s) k = Some held)
    /\ (forall sid s, dict_get samples sid = Some s -> readunits s <> []).
Proof.
  intros Hk Hall. apply all_keyed_derivable in Hall.
  destruct (group_readunits_runs l keyed Hk Hall)
    as [samples [Hgrp [Hkeys [Hnd [Hids Hget]]]]].
  destruct (with_keys_In l keyed Hk) as [Hto Hfrom].
  assert (Hcover : forall sid ru, In (sid, ru) keyed ->
            exists k s held,
              key_for_readunit ru = Ok k /\ dict_get samples sid = Some s
              /\ dict_get (readunits s) k = Some held).
  { intros sid ru Hin.
    destruct (Hfrom sid ru Hin) as [Hru _].
    unfold keys_derivable in Hall. rewrite Forall_forall in Hall.
    destruct (Hall ru Hru) as [k Hkey].
    assert (Hsid : In sid (keys samples)).
    { apply Hids. change sid with (fst (sid, ru)). now apply in_map. }
    destruct (dict_get samples sid) as [s|] eqn:Es;
      [|apply dict_get_None in Es; contradiction].
    destruct (Hget sid s Es) as [_ Hins].
    assert (Hb : dict_get (readunits s) k <> None).
    { apply (insert_all_bound _ _ _ _ Hins). right. exists ru.
      split; [now apply In_run_of | assumption]. }
    destruct (dict_get (readunits s) k) as [held|] eqn:Eh; [|congruence].
    now exists k, s, held. }
  exists samples. split; [assumption|]. split; [|split].
  - intros sid s k ru Hs Hru. destruct (Hget sid s Hs) as [_ Hins].
    destruct (insert_all_In _ _ _ _ _ Hins Hru) as [[Hin Hkey]|Hd];
      [|discriminate].
    apply run_of_incl, Hfrom in Hin. tauto.
  - intros ru Hru. destruct (Hto ru Hru) as [sid [Hsid Hin]].
    destruct (Hcover sid ru Hin) as [k [s [held [Hkey [Hs Hheld]]]]].
    now exists sid, k, s, held.
  - intros sid s Hs Hempty.
    assert (Hsid : In sid (map fst keyed)).
    { apply Hids. apply dict_get_In in Hs.
      change sid with (fst (sid, s)). now apply in_map. }
    apply in_map_iff in Hsid as [[sid' ru] [E Hin]]. simpl in E. subst sid'.
    destruct (Hcover sid ru Hin) as [k [s' [held [_ [Hs' Hheld]]]]].
    rewrite Hs in Hs'. injection Hs' as <-.
    rewrite Hempty in Hheld. discriminate.
Qed.

Lemma document_is_sound_witness :
  exists samples,
    group_readunits colliding_rows = Ok samples
    /\ forall sid s, dict_get samples sid = Some s -> readunits s <> [].
Proof.
  destruct (document_is_sound colliding_rows
              (combine [U "S1"; U "S0"; U "S1"] colliding_rows))
    as [samples [Hgrp [_ [_ Hne]]]].
  - reflexivity.
  - reflexivity.
  - exists samples. split; [exact Hgrp | exact Hne].
Defined.

(** ** The order of the rows of different samples *)

(** Increasing lists with the same elements are the same. *)
Lemma str_lt_sorted_unique (a b : list str) :
  StronglySorted str_lt a -> StronglySorted str_lt b ->
  (forall x, In x a <-> In x b) -> a = b.
Proof.
  intros Ha. revert b. induction Ha as [|x a Ha IH Hx]; intros b Hb Hab.
  - destruct b as [|y b]; [reflexivity|].
    destruct (proj2 (Hab y) (or_introl eq_refl)).
  - destruct b as [|y b]; [destruct (proj1 (Hab x) (or_introl eq_refl))|].
    inversion Hb as [|? ? Hb' Hy]; subst.
    rewrite Forall_forall in Hx, Hy.
    assert (Exy : x = y).
    { destruct (proj1 (Hab x) (or_introl eq_refl)) as [E|Hin]; [now symmetry|].
      destruct (proj2 (Hab y) (or_introl eq_refl)) as [E|Hin']; [assumption|].
      pose proof (Hy x Hin) as H1. pose proof (Hx y Hin') as H2.
      unfold str_lt in *. pose proof (str_ltb_trans _ _ _ H1 H2) as H3.
      rewrite str_ltb_irrefl in H3. discriminate. }
    subst y. f_equal. apply IH; [assumption|].
    intros z. split; intros Hz.
    + destruct (proj1 (Hab z) (or_intror Hz)) as [E|Hin]; [|assumption].
      subst z. specialize (Hx x Hz). unfold str_lt in Hx.
      rewrite str_ltb_irrefl in Hx. discriminate.
    + destruct (proj2 (Hab z) (or_intror Hz)) as [E|Hin]; [|assumption].
      subst z. specialize (Hy x Hz). unfold str_lt in Hy.
      rewrite str_ltb_irrefl in Hy. discriminate.
Qed.

Lemma run_of_nonempty (k : str) (l : list (str * pydict)) :
  In k (map fst l) <-> run_of k l <> [].
Proof.
  split.
  - intros Hin Hempty. apply in_map_iff in Hin as [[k' x] [E Hx]].
    simpl in E. subst k'. apply In_run_of in Hx. rewrite Hempty in Hx.
    destruct Hx.
  - intros Hne. destruct (run_of k l) as [|x r] eqn:E; [congruence|].
    assert (Hx : In x (run_of k l)) by (rewrite E; now left).
    apply run_of_incl in Hx. change k with (fst (k, x)). now apply in_map.
Qed.

(** The groups of the sorted read units: the sample ids in increasing
    order, each with its run. *)
Lemma groupby_sorted_runs (keyed : list (str * pydict)) :
  groupby (sorted keyed)
  = map (fun k => (k, run_of k keyed)) (map fst (groupby (sorted keyed))).
Proof.
  destruct (groupby_sorted (sorted keyed) (sorted_sorted keyed))
    as [_ [Hrun _]].
  assert (G : forall groups : list (str * list pydict),
            (forall k g, In (k, g) groups -> g = run_of k keyed) ->
            groups = map (fun k => (k, run_of k keyed)) (map fst groups)).
  { induction groups as [|[k g] groups IH]; intros H; [reflexivity|].
    cbn [map fst]. rewrite <- (H k g (or_introl eq_refl)). f_equal.
    apply IH. intros k' g' Hin. apply H. now right. }
  apply G. intros k g Hin. rewrite (Hrun k g Hin).
  unfold run_of. now rewrite sorted_stable.
Qed.

(** The document depends on the rows of each sample, in their order, and on
    nothing else: two lists of read units with the same run for every sample
    id make the same samples, however the rows of different samples are
    mixed. *)
Theorem rows_of_different_samples_commute
  (l1 l2 : list pydict) (keyed1 keyed2 : list (str * pydict)) :
  with_keys l1 = Ok keyed1 -> with_keys l2 = Ok keyed2 ->
  (forall sid, run_of sid keyed1 = run_of sid keyed2) ->
  group_readunits l1 = group_readunits l2.
Proof.
  intros H1 H2 Hruns. unfold group_readunits. rewrite H1, H2. cbn [bind].
  f_equal.
  rewrite (groupby_sorted_runs keyed1), (groupby_sorted_runs keyed2).
  assert (Hk : map fst (groupby (sorted keyed1))
               = map fst (groupby (sorted keyed2))).
  { destruct (groupby_sorted (sorted keyed1) (sorted_sorted keyed1))
      as [Hs1 [_ [Hk1 _]]].
    destruct (groupby_sorted (sorted keyed2) (sorted_sorted keyed2))
      as [Hs2 [_ [Hk2 _]]].
    apply str_lt_sorted_unique; try now apply group_lt_keys.
    intros sid. rewrite <- Hk1, <- Hk2.
    assert (Hp : forall keyed : list (str * pydict),
              In sid (map fst (sorted keyed)) <-> In sid (map fst keyed)).
    { intros keyed. split; intros Hin;
        apply in_map_iff in Hin as [x [<- Hx]]; apply in_map.
      - exact (Permutation_in _ (sorted_perm keyed) Hx).
      - exact (Permutation_in _ (Permutation_sym (sorted_perm keyed)) Hx). }
    rewrite !Hp, !run_of_nonempty. now rewrite Hruns. }
  rewrite Hk. apply map_ext. intros k. now rewrite Hruns.
Qed.

Lemma rows_of_different_samples_commute_witness :
  group_readunits colliding_rows
  = group_readunits
      [nth 1 colliding_rows []; nth 0 colliding_rows [];
       nth 2 colliding_rows []].
Proof.
  apply (rows_of_different_samples_commute _ _
           (combine [U "S1"; U "S0"; U "S1"] colliding_rows)
           (combine [U "S0"; U "S1"; U "S1"]
              [nth 1 colliding_rows []; nth 0 colliding_rows [];
               nth 2 colliding_rows []])).
  - reflexivity.
  - reflexivity.
  - intros sid. unfold run_of, with_key, colliding_rows.
    cbn [combine nth filter fst].
    destruct (eqb (U "S1") sid) eqn:E1, (eqb (U "S0") sid) eqn:E2;
      try reflexivity.
    apply eqb_eq in E1, E2. rewrite <- E2 in E1. discriminate E1.
Defined.

(** ** The numbers that are logged *)

Lemma length_dict_set_le {K V} `{EqDec K} (d : dict K V) k v :
  (length (dict_set d k v) <= S (length d))%nat.
Proof.
  induction d as [|[k' v'] d IH]; simpl; [lia|].
  match goal with |- context [if ?c then _ else _] => destruct c end;
    simpl; lia.
Qed.

Lemma insert_all_length_le (g : list pydict) (d d' : dict str pydict) :
  insert_all g d = Ok d' -> (length d' <= length d + length g)%nat.
Proof.
  revert d. induction g as [|x g IH]; intros d Hins; simpl in Hins.
  - injection Hins as <-. lia.
  - destruct (key_for_readunit x) as [k|e]; [|discriminate].
    simpl in Hins. apply IH in Hins.
    pose proof (length_dict_set_le d k x). simpl. lia.
Qed.

Lemma insert_all_length_eq (g : list pydict) (d d' : dict str pydict) :
  insert_all g d = Ok d' ->
  NoDup (map key_for_readunit g) ->
  (forall x k, In x g -> key_for_readunit x = Ok k -> ~ In k (keys d)) ->
  length d' = (length d + length g)%nat.
Proof.
  revert d. induction g as [|x g IH]; intros d Hins Hnd Hfresh;
    simpl in Hins.
  - injection Hins as <-. simpl. lia.
  - destruct (key_for_readunit x) as [k|e] eqn:Ex; [|discriminate].
    simpl in Hins. cbn [map] in Hnd. inversion Hnd as [|? ? Hx Hnd']; subst.
    assert (Hk : ~ In k (keys d)) by (apply (Hfresh x k); [now left | assumption]).
    rewrite (IH _ Hins Hnd').
    + rewrite dict_set_fresh by assumption. rewrite length_app. simpl. lia.
    + intros y ky Hy Hky. rewrite keys_dict_set_fresh by assumption.
      rewrite in_app_iff. intros [Hin|[<-|[]]].
      * apply (Hfresh y ky); [now right | assumption | assumption].
      * apply Hx. rewrite Ex, <- Hky. now apply in_map.
Qed.

Lemma insert_all_nonempty (g : list pydict) (d : dict str pydict) :
  g <> [] -> insert_all g [] = Ok d -> (1 <= length d)%nat.
Proof.
  intros Hg Hins. destruct g as [|x g]; [congruence|].
  destruct (key_for_readunit x) as [k|e] eqn:Ex;
    [|simpl in Hins; rewrite Ex in Hins; discriminate].
  assert (Hb : dict_get d k <> None).
  { apply (insert_all_bound _ _ _ _ Hins). right. exists x.
    split; [now left | assumption]. }
  destruct d; [simpl in Hb; congruence | simpl; lia].
Qed.

Lemma groupby_nonempty (l : list (str * pydict)) :
  Forall (fun grp => snd grp <> []) (groupby l).
Proof.
  induction l as [|[k x] l IH]; [constructor|].
  rewrite groupby_cons. destruct (groupby l) as [|[k' g] gs].
  - repeat constructor. discriminate.
  - inversion IH as [|? ? Hg Hgs]; subst.
    destruct (eqb k k'); repeat constructor; try assumption; discriminate.
Qed.

Lemma length_document_entries (smp : str * Sample) (samples : Samples) :
  length (document_entries (smp :: samples))
  = (length (readunits (snd smp)) + length (document_entries samples))%nat.
Proof.
  unfold document_entries. cbn [flat_map].
  now rewrite length_app, length_map.
Qed.

Lemma length_ungroup (grp : str * list pydict)
  (groups : list (str * list pydict)) :
  length (flat_map ungroup (grp :: groups))
  = (length (snd grp) + length (flat_map ungroup groups))%nat.
Proof.
  cbn [flat_map]. unfold ungroup at 1. now rewrite length_app, length_map.
Qed.

Lemma entries_and_rows (groups : list (str * list pydict)) (samples : Samples) :
  Forall2 sample_of groups samples ->
  (length (document_entries samples) <= length (flat_map ungroup groups))%nat
  /\ (Forall (fun grp => snd grp <> []) groups ->
      (length samples <= length (document_entries samples))%nat)
  /\ (Forall (fun grp => NoDup (map key_for_readunit (snd grp))) groups ->
      length (document_entries samples) = length (flat_map ungroup groups)).
Proof.
  induction 1 as [|grp smp groups samples [_ Hins] _ [IH1 [IH2 IH3]]].
  - repeat split; simpl; auto.
  - rewrite length_document_entries, length_ungroup. split; [|split].
    + pose proof (insert_all_length_le _ _ _ Hins). simpl in *. lia.
    + intros Hne. inversion Hne as [|? ? Hg Hne']; subst.
      pose proof (insert_all_nonempty _ _ Hg Hins).
      specialize (IH2 Hne'). simpl. lia.
    + intros Hnd. inversion Hnd as [|? ? Hg Hnd']; subst.
      rewrite (IH3 Hnd').
      rewrite (insert_all_length_eq _ _ _ Hins Hg) by (intros x k _ _ []).
      simpl. lia.
Qed.

Lemma NoDup_run_keys (sid : str) (keyed : list (str * pydict)) :
  NoDup (map slot keyed) ->
  NoDup (map key_for_readunit (run_of sid keyed)).
Proof.
  unfold run_of, with_key.
  induction keyed as [|[k x] keyed IH]; intros Hnd; [constructor|].
  cbn [map] in Hnd. inversion Hnd as [|? ? Hx Hnd']; subst.
  cbn [filter fst]. destruct (eqb k sid) eqn:E; [|now apply IH].
  apply eqb_eq in E. subst k. cbn [map snd]. constructor; [|now apply IH].
  intros Hin. apply in_map_iff in Hin as [y [Hky Hy]].
  apply in_map_iff in Hy as [[k' y'] [Ey Hy]]. simpl in Ey. subst y'.
  apply filter_In in Hy as [Hy Hk']. apply eqb_eq in Hk'. simpl in Hk'.
  subst k'. apply Hx. apply in_map_iff. exists (sid, y).
  split; [|assumption]. unfold slot. simpl. now rewrite Hky.
Qed.

(** The total of read units that [main] logs is the number of rows. The
    document has at most that many entries, at least one for each sample,
    and exactly that many when no two rows have both the same sample id and
    the same key: rows that collide are counted in the log and are not in
    the document. *)
Theorem logged_total_counts_rows (l : list pydict)
  (keyed : list (str * pydict)) :
  with_keys l = Ok keyed -> all_keyed l = true ->
  exists samples,
    group_readunits l = Ok samples
    /\ snd (logged_counts samples (sorted keyed)) = length l
    /\ (length (document_entries samples)
        <= snd (logged_counts samples (sorted keyed)))%nat
    /\ (fst (logged_counts samples (sorted keyed))
        <= length (document_entries samples))%nat
    /\ (NoDup (map slot keyed) ->
        length (document_entries samples)
        = snd (logged_counts samples (sorted keyed))).
Proof.
  intros Hk Hall. apply all_keyed_derivable in Hall.
  destruct (group_readunits_samples l keyed Hk Hall)
    as [samples [Hgrp Hsamples]].
  destruct (entries_and_rows _ _ Hsamples) as [Hle [Hge Heq]].
  rewrite groupby_concat in Hle, Heq.
  exists samples. cbn [logged_counts fst snd].
  split; [assumption|]. split; [|split; [|split]].
  - rewrite (Permutation_length (sorted_perm keyed)).
    destruct (with_keys_Ok l keyed Hk) as [<- _]. now rewrite length_map.
  - exact Hle.
  - apply Hge, groupby_nonempty.
  - intros Hnd. apply Heq. rewrite Forall_forall. intros [k g] Hin.
    cbn [snd].
    destruct (groupby_sorted (sorted keyed) (sorted_sorted keyed))
      as [_ [Hrun _]].
    rewrite (Hrun k g Hin). unfold run_of. rewrite sorted_stable.
    now apply NoDup_run_keys.
Qed.

Lemma logged_total_counts_rows_witness :
  exists samples,
    group_readunits colliding_rows = Ok samples
    /\ snd (logged_counts samples
              (sorted (combine [U "S1"; U "S0"; U "S1"] colliding_rows)))
       = length colliding_rows
    /\ (length (document_entries samples)
        <= snd (logged_counts samples
                  (sorted (combine [U "S1"; U "S0"; U "S1"] colliding_rows))))%nat.
Proof.
  destruct (logged_total_counts_rows colliding_rows
              (combine [U "S1"; U "S0"; U "S1"] colliding_rows))
    as [samples [Hgrp [Hrows [Hle _]]]].
  - reflexivity.
  - reflexivity.
  - exists samples. split; [exact Hgrp|]. split; [exact Hrows | exact Hle].
Defined.

Example colliding_rows_logged :
  (samples <- group_readunits colliding_rows ;;
   Ok (logged_counts samples
         (sorted (combine [U "S1"; U "S0"; U "S1"] colliding_rows)),
       length (document_entries samples)))
  = Ok ((2%nat, 3%nat), 2%nat).
Proof. vm_compute. reflexivity. Qed.

(** ** What the logger lets through *)

(** For [-q] given [quiet] times and [-v] given [verbose] times, the
    messages of each level that the logger writes. Up to two more [-v] than
    [-q] this is the table in [main]: each [-v] lets one more level through
    and each [-q] one less, and with three more [-q] than [-v] nothing is
    written. With three more [-v] than [-q] the level is zero, which is not
    a level but hands over to the root logger: debug and info messages are
    not written then, although they are with one [-v] less and with one
    more. *)
Theorem verbosity_levels (quiet verbose : nat) :
  let enabled := Logging.isEnabledFor (logger quiet verbose) in
  (enabled Logging.DEBUG = true
   <-> (verbose = quiet + 2 \/ quiet + 4 <= verbose)%nat)
  /\ (enabled Logging.INFO = true
      <-> (quiet + 1 <= verbose /\ verbose <> quiet + 3)%nat)
  /\ (enabled Logging.WARNING = true <-> (quiet <= verbose)%nat)
  /\ (enabled Logging.ERROR = true <-> (quiet <= verbose + 1)%nat)
  /\ (enabled Logging.CRITICAL = true <-> (quiet <= verbose + 2)%nat).
Proof.
  cbv zeta. unfold Logging.isEnabledFor, logger, Logging.manager_disable.
  cbn [Logging.getEffectiveLevel Logging.root].
  unfold Logging.DEBUG, Logging.INFO, Logging.WARN, Logging.WARNING,
    Logging.ERROR, Logging.CRITICAL, Logging.NOTSET.
  repeat split; intros;
    repeat match goal with
           | H : context [(?a =? ?b)%Z] |- _ =>
               destruct (Z.eqb_spec a b); cbn [negb] in H
           | |- context [(?a =? ?b)%Z] =>
               destruct (Z.eqb_spec a b); cbn [negb]
           end;
    cbn [Z.geb Z.compare Pos.compare Pos.compare_cont] in *;
    try discriminate;
    repeat match goal with
           | H : (_ >=? _)%Z = true |- _ => apply Z.geb_le in H
           | |- (_ >=? _)%Z = true => apply Z.geb_le
           end;
    lia.
Qed.

(** * The checker *)

Section YamlcheckProperties.

Variable obj : Type.
Variable load : str -> result obj.
Variable items : obj -> option (list (obj * obj)).
Variable iter : obj -> option (list obj).

#[warnings="-notation-for-abbreviation"]
Local Notation parse := (Yamlcheck.parse load items iter).
#[warnings="-notation-for-abbreviation"]
Local Notation check_files := (Yamlcheck.check_files load items iter).
#[warnings="-notation-for-abbreviation"]
Local Notation script := (Yamlcheck.script load items iter).

Lemma ok_files_app (out out' : list (Yamlcheck.line obj)) :
  Yamlcheck.ok_files (out ++ out')
  = Yamlcheck.ok_files out ++ Yamlcheck.ok_files out'.
Proof.
  induction out as [|[ | | | |y| ] out IH]; simpl; try assumption;
    [reflexivity | now rewrite IH].
Qed.

Lemma ok_files_map {A} (f : A -> Yamlcheck.line obj) (l : list A) :
  (forall x y, f x <> Yamlcheck.OK y) ->
  Yamlcheck.ok_files (map f l) = [].
Proof.
  intros Hf. induction l as [|x l IH]; [reflexivity|].
  simpl. destruct (f x) eqn:E; try assumption.
  now apply Hf in E.
Qed.

Lemma parse_prints_no_OK (y : str) (p : bool) :
  Yamlcheck.ok_files (fst (parse y p)) = [].
Proof.
  unfold parse, Yamlcheck.parse.
  destruct (load y) as [d|e]; [|reflexivity].
  destruct p; [|reflexivity].
  destruct (items d) as [kvs|]; [|destruct (iter d) as [vs|]];
    cbn [fst Yamlcheck.ok_files]; try reflexivity;
    apply ok_files_map; discriminate.
Qed.

Lemma parse_Ok_loads (y : str) (p : bool) :
  snd (parse y p) = Ok tt -> snd (parse y false) = Ok tt.
Proof.
  unfold parse, Yamlcheck.parse.
  destruct (load y) as [d|e]; [reflexivity|]. destruct p; exact (fun H => H).
Qed.

Lemma check_files_cons (y : str) (rest : list str) (p : bool) :
  check_files (y :: rest) p
  = match snd (parse y p) with
    | Error e => (fst (parse y p), Error e)
    | Ok _ => (fst (parse y p) ++ Yamlcheck.OK y :: fst (check_files rest p),
               snd (check_files rest p))
    end.
Proof.
  cbn [Yamlcheck.check_files].
  destruct (Yamlcheck.parse load items iter y p) as [out [u|e]];
    [|reflexivity].
  cbn [fst snd].
  now destruct (Yamlcheck.check_files load items iter rest p).
Qed.

Lemma check_files_runs (yamlfiles : list str) (p : bool) :
  exists passed rest,
    yamlfiles = passed ++ rest
    /\ Yamlcheck.ok_files (fst (check_files yamlfiles p)) = passed
    /\ Forall (fun y => snd (parse y p) = Ok tt) passed
    /\ match rest with
       | [] => snd (check_files yamlfiles p) = Ok tt
       | y :: _ => exists e, snd (parse y p) = Error e
                             /\ snd (check_files yamlfiles p) = Error e
       end.
Proof.
  induction yamlfiles as [|y l [passed [rest [Hl [Hok [Hall Hrest]]]]]].
  - exists [], []. repeat split. constructor.
  - rewrite check_files_cons.
    destruct (snd (parse y p)) as [[]|e] eqn:Ey.
    + exists (y :: passed), rest. cbn [fst snd]. split; [|split; [|split]].
      * simpl. now rewrite Hl.
      * rewrite ok_files_app, parse_prints_no_OK. simpl. now rewrite Hok.
      * now constructor.
      * exact Hrest.
    + exists [], (y :: l). cbn [fst snd]. split; [|split; [|split]].
      * reflexivity.
      * apply parse_prints_no_OK.
      * constructor.
      * now exists e.
Qed.

(** The checker without files prints its help and ends with status 1.
    With files it stops at the first one that fails, with that file's
    error: the files reported [OK] are the files before it, in the order of
    the command line, each of them parsed without error, and the files
    after it are not looked at. The run ends well exactly when every file
    does. *)
Theorem a_failure_ends_the_run (yamlfiles : list str) (p : bool) :
  script [] p = ([Yamlcheck.Help], Error (SystemExit 1))
  /\ (yamlfiles <> [] ->
      exists passed rest,
        yamlfiles = passed ++ rest
        /\ Yamlcheck.ok_files (fst (script yamlfiles p)) = passed
        /\ Forall (fun y => snd (parse y p) = Ok tt) passed
        /\ match rest with
           | [] => snd (script yamlfiles p) = Ok tt
           | y :: _ => exists e, snd (parse y p) = Error e
                                 /\ snd (script yamlfiles p) = Error e
           end
        /\ (snd (script yamlfiles p) = Ok tt <-> rest = [])).
Proof.
  split; [reflexivity|]. intros Hne.
  assert (Es : script yamlfiles p = check_files yamlfiles p).
  { destruct yamlfiles; [congruence | reflexivity]. }
  rewrite Es.
  destruct (check_files_runs yamlfiles p)
    as [passed [rest [Hl [Hok [Hall Hrest]]]]].
  exists passed, rest. repeat (split; [assumption|]).
  destruct rest as [|y rest]; [tauto|].
  destruct Hrest as [e [_ He]]. rewrite He. split; discriminate.
Qed.

Lemma printing_oks_prefix (yamlfiles : list str) :
  exists more,
    Yamlcheck.ok_files (fst (check_files yamlfiles false))
    = Yamlcheck.ok_files (fst (check_files yamlfiles true)) ++ more.
Proof.
  induction yamlfiles as [|y l [more IH]]; [now exists []|].
  rewrite !check_files_cons.
  destruct (snd (parse y true)) as [[]|e] eqn:Et.
  - rewrite (parse_Ok_loads y true Et). cbn [fst].
    rewrite !ok_files_app, !parse_prints_no_OK. simpl. rewrite IH.
    now exists more.
  - cbn [fst]. rewrite parse_prints_no_OK. simpl. eauto.
Qed.

Lemma printing_Ok (yamlfiles : list str) :
  snd (check_files yamlfiles true) = Ok tt ->
  snd (check_files yamlfiles false) = Ok tt.
Proof.
  induction yamlfiles as [|y l IH]; [reflexivity|].
  rewrite !check_files_cons.
  destruct (snd (parse y true)) as [[]|e] eqn:Et; [|discriminate].
  rewrite (parse_Ok_loads y true Et). exact IH.
Qed.

(** Printing can only make the checker fail more. Without [-p] a file is
    reported [OK] as soon as it loads; whatever passes with [-p] passes
    without it, and the files reported [OK] with [-p] are the first of
    those reported without. The converse fails for a document that is
    neither a [dict] nor iterable: it is [OK] without [-p], and with [-p]
    the checker prints the list header and ends with a [TypeError]. *)
Theorem printing_only_adds_failures (yamlfiles : list str) :
  (forall y, snd (parse y false) = Ok tt <-> exists d, load y = Ok d)
  /\ (snd (script yamlfiles true) = Ok tt ->
      snd (script yamlfiles false) = Ok tt)
  /\ (exists more,
        Yamlcheck.ok_files (fst (script yamlfiles false))
        = Yamlcheck.ok_files (fst (script yamlfiles true)) ++ more)
  /\ (forall y d,
        load y = Ok d -> items d = None -> iter d = None ->
        script [y] false = ([Yamlcheck.OK y], Ok tt)
        /\ script [y] true = ([Yamlcheck.List_header], Error TypeError)).
Proof.
  split; [|split; [|split]].
  - intros y. unfold parse, Yamlcheck.parse.
    destruct (load y) as [d|e]; cbn [snd].
    + split; [now exists d | reflexivity].
    + split; [discriminate | intros [d Hd]; discriminate].
  - destruct yamlfiles as [|y l]; [exact (fun H => H)|].
    apply (printing_Ok (y :: l)).
  - destruct yamlfiles as [|y l]; [now exists []|].
    apply (printing_oks_prefix (y :: l)).
  - intros y d Hd Hi Ht.
    unfold script, Yamlcheck.script, Yamlcheck.check_files, Yamlcheck.parse.
    rewrite Hd, Hi, Ht. split; reflexivity.
Qed.

End YamlcheckProperties.

Lemma a_failure_ends_the_run_witness :
  exists passed rest,
    [U "null"; U "missing"; U "null"] = passed ++ rest
    /\ Yamlcheck.ok_files
         (fst (Yamlcheck.script example_load (fun _ => None)
                 (fun d => option_map (map (fun n => Some [n])) d)
                 [U "null"; U "missing"; U "null"] false))
       = passed.
Proof.
  destruct (a_failure_ends_the_run _ example_load (fun _ => None)
              (fun d => option_map (map (fun n => Some [n])) d)
              [U "null"; U "missing"; U "null"] false)
    as [_ H].
  destruct H as [passed [rest [Hl [Hok _]]]]; [discriminate|].
  now exists passed, rest.
Defined.

Lemma printing_only_adds_failures_witness :
  Yamlcheck.script example_load (fun _ => None)
    (fun d => option_map (map (fun n => Some [n])) d) [U "null"] false
  = ([Yamlcheck.OK (U "null")], Ok tt)
  /\ Yamlcheck.script example_load (fun _ => None)
       (fun d => option_map (map (fun n => Some [n])) d) [U "null"] true
     = ([Yamlcheck.List_header], Error TypeError).
Proof.
  destruct (printing_only_adds_failures _ example_load (fun _ => None)
              (fun d => option_map (map (fun n => Some [n])) d) [])
    as [_ [_ [_ H]]].
  apply (H (U "null") None); reflexivity.
Defined.

(** ** From the sheet to the document *)

(** [main] fails only before the grouping: with a delimiter that is not one
    character long it exits with status 1 whatever the sheet holds, and an
    error of the parser is the error of [main]. Whatever the parser returns
    can be grouped: every parsed read unit has a string as its sample id
    and a key, so neither the sort, nor the grouping, nor the key under
    which a read unit is filed can fail. *)
Theorem main_fails_only_in_parsing (delimiter csv : str) :
  (length delimiter <> 1%nat -> main delimiter csv = Error (SystemExit 1))
  /\ (length delimiter = 1%nat ->
      forall e, parse_readunits_from_csv csv = Error e ->
        main delimiter csv = Error e)
  /\ (length delimiter = 1%nat ->
      forall l, parse_readunits_from_csv csv = Ok l ->
        exists samples,
          group_readunits l = Ok samples
          /\ main delimiter csv = Ok samples).
Proof.
  split; [|split].
  - intros Hd. unfold main. apply Nat.eqb_neq in Hd. now rewrite Hd.
  - intros Hd e He. unfold main. rewrite Hd, He. reflexivity.
  - intros Hd l Hl.
    destruct (main_groups_what_is_parsed delimiter csv l Hd Hl)
      as [samples Hmain].
    exists samples. split; [|exact Hmain].
    unfold main in Hmain. rewrite Hd, Hl in Hmain. exact Hmain.
Qed.

Lemma main_fails_only_in_parsing_witness :
  exists samples,
    group_readunits
      [[(Some (U "sample_id"), VStr (U "S1"));
        (Some (U "fq1"), VStr (U "a.fq")); (Some (U "fq2"), VStr [])]]
    = Ok samples
    /\ main (U ",") blank_fq2_sheet = Ok samples.
Proof.
  destruct (main_fails_only_in_parsing (U ",") blank_fq2_sheet)
    as [_ [_ H]].
  apply H; vm_compute; reflexivity.
Defined.
